(** * dream_card: the browser scripts of the card game

    A shallow embedding of the scripts of the front-end and of the admin
    pages:

    - the user collection view ([displayCollection], [updateCard],
      [fetchCards], [openEditModal], the listeners of the page and the edit
      form of collection.html);
    - the admin card browser ([fetchAndDisplayCards],
      [renderPaginationControls], its control listeners, and the global
      [updateQuantity] / [updateQuantityByInput]);
    - the admin page of the collections ([fetchAllCollections],
      [displayCollections], [handleCollectionSubmit], [displayAlert]);
    - the two scripts of the upload form, the form that adds a pack, the
      reading of the form that updates a pack, the links between the admin
      pages, and the navigation bar with the protection of the pages.

    JavaScript strings are modelled as [string]: the bytes of the UTF-8 form
    of the text.  Integral JavaScript numbers are modelled as [Z], [NaN] as
    [None]: the numbers of the engine are doubles, which hold the integers up
    to 2^53 - 1 in absolute value exactly, add them as [Z] does and write
    them with all their digits ([Js.safe_integer]); beyond these the engine
    rounds, which is not followed.  An [async] function is split at its
    [await fetch(..)]: a synchronous [_start] part that runs until the
    request is sent, and a [_resume] part that runs when the response
    arrives, on the state as it is at that moment.  A chain of promises is
    written with [then_] and [catch] on settled promises. *)

From Stdlib Require Import Ascii.
From stdpp Require Import base numbers list strings pretty gmap.

Local Open Scope string_scope.
Local Open Scope list_scope.
Local Open Scope Z_scope.

(** ** JavaScript primitives used by the scripts *)

Module Js.

(** The characters of [WhiteSpace] and [LineTerminator] of one byte: TAB,
    LF, VT, FF, CR and SPACE. *)
Definition is_whitespace (c : ascii) : bool :=
  let n := Ascii.nat_of_ascii c in
  ((9 <=? n)%nat && (n <=? 13)%nat) || (n =? 32)%nat.

(** The one of two bytes: U+00A0, written C2 A0. *)
Definition is_whitespace2 (a b : ascii) : bool :=
  ((Ascii.N_of_ascii a =? 194) && (Ascii.N_of_ascii b =? 160))%N.

(** Those of three bytes: U+1680 (E1 9A 80), U+2000 to U+200A, U+2028,
    U+2029 and U+202F (E2 80 80 to 8A, A8, A9 and AF), U+205F (E2 81 9F),
    U+3000 (E3 80 80) and U+FEFF (EF BB BF). *)
Definition is_whitespace3 (a b c : ascii) : bool :=
  let x := Ascii.N_of_ascii a in
  let y := Ascii.N_of_ascii b in
  let z := Ascii.N_of_ascii c in
  ((x =? 225) && (y =? 154) && (z =? 128)
   || (x =? 226) && (y =? 128)
      && ((128 <=? z) && (z <=? 138) || (z =? 168) || (z =? 169) || (z =? 175))
   || (x =? 226) && (y =? 129) && (z =? 159)
   || (x =? 227) && (y =? 128) && (z =? 128)
   || (x =? 239) && (y =? 187) && (z =? 191))%N.

(** What stands behind the white space character that [s] starts with;
    [None] when it starts with none. *)
Definition skip_whitespace (s : string) : option string :=
  match s with
  | String a r =>
      if is_whitespace a then Some r
      else match r with
           | String b r2 =>
               if is_whitespace2 a b then Some r2
               else match r2 with
                    | String c r3 => if is_whitespace3 a b c then Some r3 else None
                    | EmptyString => None
                    end
           | EmptyString => None
           end
  | EmptyString => None
  end.

(** [String.prototype.trimStart]: the white space characters at the start
    are skipped one after the other. *)
Fixpoint trimStart (s : string) : string :=
  match s with
  | String a r =>
      if is_whitespace a then trimStart r
      else match r with
           | String b r2 =>
               if is_whitespace2 a b then trimStart r2
               else match r2 with
                    | String c r3 => if is_whitespace3 a b c then trimStart r3 else s
                    | EmptyString => s
                    end
           | EmptyString => s
           end
  | EmptyString => EmptyString
  end.

(** [s] is made of white space only. *)
Definition blank (s : string) : bool := String.eqb (trimStart s) "".

(** [String.prototype.trimEnd]: the text is cut where what follows is white
    space only.  A white space character starts with a byte that is no
    continuation byte, so that the cut falls between two characters. *)
Fixpoint trimEnd (s : string) : string :=
  match s with
  | EmptyString => EmptyString
  | String c r => if blank s then EmptyString else String c (trimEnd r)
  end.

(** [String.prototype.trim]. *)
Definition trim (s : string) : string := trimEnd (trimStart s).

(** Truthiness of a value that is a string or [null]. *)
Definition truthy (v : option string) : bool :=
  match v with
  | Some s => negb (String.eqb s "")
  | None => false
  end.

(** [v || null] for a string [v]. *)
Definition or_null (v : string) : option string :=
  if String.eqb v "" then None else Some v.

(** [v || ''] for a string or [null]. *)
Definition or_empty (v : option string) : string :=
  match v with
  | Some s => s
  | None => ""
  end.

(** [String(v)] for a string or [null]. *)
Definition string_of (v : option string) : string :=
  match v with
  | Some s => s
  | None => "null"
  end.

(** The integers that a number of the engine holds exactly and writes with
    all their digits: [Number.isSafeInteger]. *)
Definition safe_integer (n : Z) : bool :=
  (- (2 ^ 53 - 1) <=? n) && (n <=? 2 ^ 53 - 1).

(** [String(n)] for a number that is a safe integer; [None] is [NaN]. *)
Definition number_to_string (n : option Z) : string :=
  match n with
  | Some z => pretty z
  | None => "NaN"
  end.

Definition digit_value (radix : Z) (c : ascii) : option Z :=
  let n := Z.of_nat (Ascii.nat_of_ascii c) in
  let v :=
    if (48 <=? n) && (n <=? 57) then Some (n - 48)
    else if (97 <=? n) && (n <=? 122) then Some (n - 87)
    else if (65 <=? n) && (n <=? 90) then Some (n - 55)
    else None in
  match v with
  | Some d => if d <? radix then Some d else None
  | None => None
  end.

(** Reads the longest prefix of digits of the radix; [seen] records whether a
    digit was read. *)
Fixpoint parse_digits (radix : Z) (s : string) (acc : Z) (seen : bool) : option Z :=
  match s with
  | String c r =>
      match digit_value radix c with
      | Some d => parse_digits radix r (acc * radix + d) true
      | None => if seen then Some acc else None
      end
  | EmptyString => if seen then Some acc else None
  end.

Definition strip_hex_prefix (s : string) : option string :=
  match s with
  | String "0" (String "x" r) => Some r
  | String "0" (String "X" r) => Some r
  | _ => None
  end.

(** [parseInt(s, radix)] for [radix] undefined ([None]) or 10: leading white
    space is skipped, one sign is read, with no radix the prefix [0x] selects
    base 16, and the digits that follow are read; without a digit the result
    is [NaN].  The result is the integer that the digits write; the engine
    gives the double next to it, which is that integer when it is a safe
    one. *)
Definition parseInt (s : string) (radix : option Z) : option Z :=
  let s1 := trimStart s in
  let '(sign, s2) :=
    match s1 with
    | String "-" r => (-1, r)
    | String "+" r => (1, r)
    | _ => (1, s1)
    end in
  let '(R, s3) :=
    match radix with
    | Some r => (r, s2)
    | None =>
        match strip_hex_prefix s2 with
        | Some r => (16, r)
        | None => (10, s2)
        end
    end in
  match parse_digits R s3 0 false with
  | Some v => Some (sign * v)
  | None => None
  end.

Definition hex_digit (n : N) : ascii :=
  Ascii.ascii_of_N (if (n <? 10)%N then 48 + n else 55 + n)%N.

(** [%XX], upper case. *)
Definition percent_byte (c : ascii) (rest : string) : string :=
  let n := Ascii.N_of_ascii c in
  String "%" (String (hex_digit (n / 16)%N) (String (hex_digit (n mod 16)%N) rest)).

Definition is_alphanumeric (c : ascii) : bool :=
  let n := Ascii.nat_of_ascii c in
  (((48 <=? n) && (n <=? 57)) || ((65 <=? n) && (n <=? 90))
   || ((97 <=? n) && (n <=? 122)))%nat.

Fixpoint char_in (c : ascii) (set : string) : bool :=
  match set with
  | EmptyString => false
  | String d r => Ascii.eqb c d || char_in c r
  end.

(** [encodeURIComponent]: the unreserved characters are kept, every other byte
    of the UTF-8 text is percent-encoded. *)
Fixpoint encodeURIComponent (s : string) : string :=
  match s with
  | EmptyString => EmptyString
  | String c r =>
      if is_alphanumeric c || char_in c "-_.!~*'()"
      then String c (encodeURIComponent r)
      else percent_byte c (encodeURIComponent r)
  end.

(** The [application/x-www-form-urlencoded] byte serializer used by
    [URLSearchParams.prototype.toString]. *)
Fixpoint form_urlencode (s : string) : string :=
  match s with
  | EmptyString => EmptyString
  | String c r =>
      if Ascii.eqb c " " then String "+" (form_urlencode r)
      else if is_alphanumeric c || char_in c "*-._"
      then String c (form_urlencode r)
      else percent_byte c (form_urlencode r)
  end.

(** [URLSearchParams.prototype.toString] on the list of appended pairs. *)
Fixpoint searchParams_toString (ps : list (string * string)) : string :=
  match ps with
  | [] => ""
  | [(k, v)] => form_urlencode k +:+ "=" +:+ form_urlencode v
  | (k, v) :: rest =>
      form_urlencode k +:+ "=" +:+ form_urlencode v +:+ "&" +:+ searchParams_toString rest
  end.

(** [String.prototype.toLowerCase] on the one-byte letters. *)
Definition lower_char (c : ascii) : ascii :=
  let n := Ascii.nat_of_ascii c in
  if ((65 <=? n) && (n <=? 90))%nat then Ascii.ascii_of_nat (n + 32) else c.

Fixpoint toLowerCase (s : string) : string :=
  match s with
  | EmptyString => EmptyString
  | String c r => String (lower_char c) (toLowerCase r)
  end.

(** [s.split(sep)] for a separator of one character. *)
Fixpoint split (sep : ascii) (s : string) : list string :=
  match s with
  | EmptyString => [EmptyString]
  | String c r =>
      if Ascii.eqb c sep then EmptyString :: split sep r
      else match split sep r with
           | h :: t => String c h :: t
           | [] => [String c EmptyString]
           end
  end.

(** [s.startsWith(prefix)]. *)
Fixpoint startsWith (prefix s : string) : bool :=
  match prefix, s with
  | EmptyString, _ => true
  | String a p, String b r => Ascii.eqb a b && startsWith p r
  | String _ _, EmptyString => false
  end.

(** [parts.join(sep)]. *)
Fixpoint join (sep : string) (parts : list string) : string :=
  match parts with
  | [] => ""
  | [part] => part
  | part :: rest => part +:+ sep +:+ join sep rest
  end.

(** The text of a member in a template literal or joined to a string;
    [None] is a member that is missing. *)
Definition or_undefined (v : option string) : string :=
  match v with
  | Some s => s
  | None => "undefined"
  end.

(** The exceptions of the engine itself that the scripts can run into.  Their
    message texts are chosen by the browser. *)
Inductive Exception :=
  | ReferenceError_not_defined (name : string)
  | TypeError_const_assignment (name : string)
  | TypeError_fetch_failed
  | TypeError_body_used
  | TypeError_null_property (name : string)
  | TypeError_not_a_function (name : string)
  | SyntaxError_json
  | SyntaxError_selector
  | InvalidCharacterError (token : string).

(** ASCII white space as the DOM has it: TAB, LF, FF, CR and SPACE. *)
Definition is_ascii_whitespace (c : ascii) : bool :=
  let n := Ascii.nat_of_ascii c in
  ((n =? 9) || (n =? 10) || (n =? 12) || (n =? 13) || (n =? 32))%nat.

Fixpoint has_ascii_whitespace (s : string) : bool :=
  match s with
  | EmptyString => false
  | String c r => is_ascii_whitespace c || has_ascii_whitespace r
  end.

(** [element.classList.add(token)] for a token that is not empty, as the
    tokens of the scripts are: a token with ASCII white space is refused with
    an [InvalidCharacterError], and a token that the list has is not added
    again. *)
Definition classList_add (token : string) (classList : list string)
  : Exception + list string :=
  if has_ascii_whitespace token then inl (InvalidCharacterError token)
  else inr (if bool_decide (token ∈ classList) then classList else classList ++ [token]).

End Js.

(** ** The card record served by the storage API *)

Record Card := {
  id : string;
  card_name : string;
  rarity : string;
  point_worth : Z;
  quantity : Z;
  date_got_in_stock : string;
  image_url : option string
}.

(** ** The user collection view (collection.js) *)

Module Collection.

(** One [div.card-item] appended to [#my-cards-area]; the fields of a card
    are taken as plain text. *)
Record CardElement := {
  classList : list string;
  img_src : string;
  img_alt : string;
  h4_text : string;
  rarity_text : string;
  quantity_text : string;
  points_text : string
}.

(** The page: the closure variables [currentCards] and
    [currentCollectionName], the elements the script writes to, and the
    [alert] boxes shown so far (oldest first). *)
Record Page := {
  currentCards : list Card;
  currentCollectionName : option string;
  my_cards_area_html : string;
  my_cards_area : list CardElement;
  total_cards : string;
  unique_cards : string;
  modal_show : bool;
  alerts : list string
}.

Definition API_BASE_URL : string := "http://localhost:8080/gacha/api/v1/storage".

Definition collection_query (collectionName : option string) : string :=
  match collectionName with
  | Some c =>
      if negb (String.eqb c "") && negb (String.eqb (Js.trim c) "")
      then "?collectionName=" +:+ Js.encodeURIComponent (Js.trim c)
      else ""
  | None => ""
  end.

Definition GET_CARDS (collectionName : option string) : string :=
  (API_BASE_URL +:+ "/cards") +:+ collection_query collectionName.

Definition UPDATE_CARD (id : option string) (collectionName : option string) : string :=
  (API_BASE_URL +:+ "/cards/" +:+ Js.string_of id) +:+ collection_query collectionName.

Definition placeholder_image : string :=
  "https://via.placeholder.com/150/CCCCCC/000000?Text=No+Image".

(** The element that the body of [cards.forEach] builds for a card, or the
    exception of [classList.add]: the class made of the rarity is refused
    when the rarity has ASCII white space. *)
Definition card_element (card : Card) : Js.Exception + CardElement :=
  match Js.classList_add ("rarity-" +:+ Js.toLowerCase (rarity card)) ["card-item"] with
  | inl e => inl e
  | inr classes =>
      inr {| classList := classes;
             img_src := if Js.truthy (image_url card) then Js.or_empty (image_url card)
                        else placeholder_image;
             img_alt := card_name card;
             h4_text := card_name card;
             rarity_text := "Rarity: " +:+ rarity card;
             quantity_text := "Quantity: " +:+ pretty (quantity card);
             points_text := "Points: " +:+ pretty (point_worth card) |}
  end.

(** [cards.forEach(..)] from the card at hand on: the id joins [uniqueIds],
    the element is built and appended to the area.  An exception ends the
    loop: the ids and the elements are those of the moment. *)
Fixpoint displayCollection_forEach (cards : list Card) (uniqueIds : gset string)
    (area : list CardElement) : gset string * list CardElement * option Js.Exception :=
  match cards with
  | [] => (uniqueIds, area, None)
  | card :: rest =>
      let uniqueIds := {[ id card ]} ∪ uniqueIds in
      match card_element card with
      | inl e => (uniqueIds, area, Some e)
      | inr element => displayCollection_forEach rest uniqueIds (area ++ [element])
      end
  end.

(** [cards.reduce((sum, card) => sum + card.quantity, 0)]: the sum of the
    engine when the quantities and the sums on the way are safe integers. *)
Definition reduce_quantity (cards : list Card) : Z :=
  foldl (λ sum card, sum + quantity card) 0 cards.

(** [displayCollection(cards)]; [None] is a missing ([null], [undefined])
    list.  The result is the page and the exception that leaves the function,
    if one does: the area is emptied before the loop and the counters are
    written behind it. *)
Definition displayCollection (cards : option (list Card)) (p : Page)
  : Page * option Js.Exception :=
  match cards with
  | None | Some [] =>
      ({| currentCards := currentCards p;
          currentCollectionName := currentCollectionName p;
          my_cards_area_html := "<p>Your collection is empty. Go draw some cards!</p>";
          my_cards_area := [];
          total_cards := "0";
          unique_cards := "0";
          modal_show := modal_show p;
          alerts := alerts p |}, None)
  | Some cs =>
      match displayCollection_forEach cs ∅ [] with
      | (uniqueIds, elements, None) =>
          ({| currentCards := currentCards p;
              currentCollectionName := currentCollectionName p;
              my_cards_area_html := "";
              my_cards_area := elements;
              total_cards := pretty (reduce_quantity cs);
              unique_cards := pretty (size uniqueIds);
              modal_show := modal_show p;
              alerts := alerts p |}, None)
      | (_, elements, Some e) =>
          ({| currentCards := currentCards p;
              currentCollectionName := currentCollectionName p;
              my_cards_area_html := "";
              my_cards_area := elements;
              total_cards := total_cards p;
              unique_cards := unique_cards p;
              modal_show := modal_show p;
              alerts := alerts p |}, Some e)
      end
  end.

Definition alert (message : string) (p : Page) : Page :=
  {| currentCards := currentCards p;
     currentCollectionName := currentCollectionName p;
     my_cards_area_html := my_cards_area_html p;
     my_cards_area := my_cards_area p;
     total_cards := total_cards p;
     unique_cards := unique_cards p;
     modal_show := modal_show p;
     alerts := alerts p ++ [message] |}.

(** The declarations of [displayError], [displaySuccess] and [closeModal]
    that are in force are the last ones of the closure. *)
Definition displayError (message : string) : Page → Page := alert message.
Definition displaySuccess (message : string) : Page → Page := alert message.

Definition closeModal (p : Page) : Page :=
  {| currentCards := currentCards p;
     currentCollectionName := currentCollectionName p;
     my_cards_area_html := my_cards_area_html p;
     my_cards_area := my_cards_area p;
     total_cards := total_cards p;
     unique_cards := unique_cards p;
     modal_show := false;
     alerts := alerts p |}.

Definition set_currentCards (cs : list Card) (p : Page) : Page :=
  {| currentCards := cs;
     currentCollectionName := currentCollectionName p;
     my_cards_area_html := my_cards_area_html p;
     my_cards_area := my_cards_area p;
     total_cards := total_cards p;
     unique_cards := unique_cards p;
     modal_show := modal_show p;
     alerts := alerts p |}.

Definition set_currentCollectionName (c : option string) (p : Page) : Page :=
  {| currentCards := currentCards p;
     currentCollectionName := c;
     my_cards_area_html := my_cards_area_html p;
     my_cards_area := my_cards_area p;
     total_cards := total_cards p;
     unique_cards := unique_cards p;
     modal_show := modal_show p;
     alerts := alerts p |}.

(** What comes back for a request.  A 2xx body that parses is taken by its
    type [A]: for the endpoints of the cards it is of the type that the
    endpoint returns. *)
Inductive Outcome (A : Type) :=
  | NetworkFailure
  | HttpError (status : Z)
  | OkNotJson
  | Ok (body : A).
Arguments NetworkFailure {A}.
Arguments HttpError {A} status.
Arguments OkNotJson {A}.
Arguments Ok {A} body.

(** The entries of a [FormData], by name; [formData.get(name)] is the
    look-up, [null] for a name without entry. *)
Abbreviation FormData := (gmap string string).

(** The JSON object sent by [updateCard]; [None] is [null], which is also
    what [JSON.stringify] writes for [NaN]. *)
Record UpdateCardBody := {
  b_card_name : option string;
  b_rarity : option string;
  b_point_worth : option Z;
  b_quantity : option Z;
  b_date_got_in_stock : option string
}.

Inductive Request :=
  | GET (url : string)
  | PUT (url : string) (body : UpdateCardBody).

(** [fetchCards] up to its [await fetch(url)].  The marking of the active
    tab button is left out. *)
Definition fetchCards_start (collectionName : option string) (p : Page) : Page * Request :=
  (set_currentCollectionName collectionName p, GET (GET_CARDS collectionName)).

(** [fetchCards] from the response on.  The call of [displayCollection] is
    inside the [try]: its exception ends in the handler too. *)
Definition fetchCards_resume (r : Outcome (list Card)) (p : Page) : Page :=
  match r with
  | Ok cards =>
      match displayCollection (Some cards) (set_currentCards cards p) with
      | (p, None) => p
      | (p, Some _) => displayError "Failed to load cards. Please try again later." p
      end
  | _ => displayError "Failed to load cards. Please try again later." p
  end.

(** [card.id === cardId] for the id of a card and a string or [null]. *)
Definition strict_equal (a : string) (b : option string) : bool :=
  match b with
  | Some b => String.eqb a b
  | None => false
  end.

(** [currentCards.findIndex(card => card.id === cardId)]; [None] is [-1]. *)
Fixpoint findIndex (cardId : option string) (cards : list Card) : option nat :=
  match cards with
  | [] => None
  | card :: rest =>
      if strict_equal (id card) cardId then Some 0%nat
      else S <$> findIndex cardId rest
  end.

(** [updateCard] up to its [await fetch(..)]. *)
Definition updateCard_start (formData : FormData) : Request :=
  PUT (UPDATE_CARD (formData !! "card-id") (formData !! "edit-collection-name"))
      {| b_card_name := formData !! "card-name";
         b_rarity := formData !! "card-rarity";
         b_point_worth := Js.parseInt (Js.string_of (formData !! "card-points")) None;
         b_quantity := Js.parseInt (Js.string_of (formData !! "card-quantity")) None;
         b_date_got_in_stock := formData !! "card-date" |}.

(** [updateCard] from the response on.  An exception of [displayCollection]
    ends in the handler, after the array has been written. *)
Definition updateCard_resume (formData : FormData) (r : Outcome Card) (p : Page) : Page :=
  let cardId := formData !! "card-id" in
  match r with
  | Ok updatedCard =>
      match findIndex cardId (currentCards p) with
      | Some index =>
          let cards := <[index := updatedCard]> (currentCards p) in
          match displayCollection (Some cards) (set_currentCards cards p) with
          | (p, None) => displaySuccess "Card updated successfully!" (closeModal p)
          | (p, Some _) => displayError "Failed to update card. Please try again." p
          end
      | None => displaySuccess "Card updated successfully!" (closeModal p)
      end
  | _ => displayError "Failed to update card. Please try again." p
  end.

(** The controls of [#edit-card-form] in collection.html, by their values:
    the two hidden inputs, the name, the rarity that is selected, the points,
    the quantity and the date. *)
Record EditForm := {
  card_id_value : string;
  edit_collection_name_value : string;
  card_name_value : string;
  card_rarity_value : string;
  card_points_value : string;
  card_quantity_value : string;
  card_date_value : string
}.

(** [new FormData(editForm)]: an entry is made for a control that has a
    [name].  The controls of the form have an [id] and no [name]: whatever
    they hold, the form data has no entry. *)
Definition editForm_FormData (form : EditForm) : FormData := ∅.

(** The listener of [submit] of the edit form: the request that [updateCard]
    sends for the form data of the form. *)
Definition editForm_submit (form : EditForm) : Request :=
  updateCard_start (editForm_FormData form).

(** The rest of that call of [updateCard], when the answer is there. *)
Definition editForm_answered (form : EditForm) (r : Outcome Card) (p : Page) : Page :=
  updateCard_resume (editForm_FormData form) r p.

End Collection.

(** ** The admin card browser *)

Module AdminCards.

(** *** Responses *)

Record Pagination := {
  total_pages : Z;
  current_page : Z
}.

(** The [detail] member of an error body.  For a value that is not a string
    the record keeps its truthiness, its [JSON.stringify] text and its
    [String(..)] text. *)
Inductive Detail :=
  | DetailString (s : string)
  | DetailOther (is_truthy : bool) (json : string) (text : string).

Definition detail_truthy (d : option Detail) : bool :=
  match d with
  | Some (DetailString s) => negb (String.eqb s "")
  | Some (DetailOther t _ _) => t
  | None => false
  end.

(** The members the script reads from the body of [GET /cards]; [None] is a
    member that is missing or of another type than the one read. *)
Record CardsObject := {
  detail : option Detail;
  cards : option (list Card);
  pagination : option Pagination
}.

(** The members read from the body of an update request. *)
Record UpdateObject := {
  u_detail : option Detail;
  u_id : option string;
  u_quantity : option Z
}.

(** The body of a response, by what [response.json()] gives: no body at
    all (the call rejects, and [response.text()] gives the empty string), a
    body that is not JSON (the call rejects), [null], another value that is
    not an object, or an object (arrays included) with the members read. *)
Inductive Body (A : Type) :=
  | NoBody
  | NotJson
  | JsonNull
  | JsonPrimitive
  | JsonObject (o : A).
Arguments NoBody {A}.
Arguments NotJson {A}.
Arguments JsonNull {A}.
Arguments JsonPrimitive {A}.
Arguments JsonObject {A} o.

(** What [await fetch(..)] gives: a rejection, or a response. *)
Inductive FetchResult (A : Type) :=
  | Rejected
  | Response (status : Z) (body : Body A).
Arguments Rejected {A}.
Arguments Response {A} status body.

(** [response.ok]. *)
Definition ok (status : Z) : bool := (200 <=? status) && (status <=? 299).

Inductive Request :=
  | GET (url : string)
  | PATCH (url : string) (quantity_change : Z)
  | PUT (url : string) (new_quantity : Z).

(** *** The document *)

(** One [div.card-item] of the card area.  The fields of a card are taken as
    plain text: markup inside a field is not followed into the element. *)
Record CardElement := {
  data_card_id : string;
  image : option (string * string);
  h3 : string;
  rarity_text : string;
  point_worth_text : string;
  date_text : string;
  quantity_value : string;
  quantity_input : string;
  onclick_collectionName : string
}.

Inductive PaginationNode :=
  | Button (textContent : string) (page : Z) (disabled : bool)
  | PageInfo (textContent : string).

(** The values of the five input controls. *)
Record Controls := {
  collectionNameInput : string;
  searchInput : string;
  sortBySelect : string;
  sortOrderSelect : string;
  perPageSelect : string
}.

Record Dom := {
  cardDisplayArea_innerHTML : string;
  cardDisplayArea : list CardElement;
  loadingMessage_display : string;
  errorMessage_textContent : string;
  errorMessage_display : string;
  clearSearchButton_display : string;
  paginationControlsTop : list PaginationNode;
  paginationControlsBottom : list PaginationNode;
  controls : Controls;
  alerts : list string
}.

(** The [let] variables of the listener's closure. *)
Record Vars := {
  currentPage : Z;
  itemsPerPage : option Z;
  currentSortBy : string;
  currentSortOrder : string;
  currentCollectionName : option string;
  currentSearchQuery : option string;
  totalPages : Z
}.

Record State := {
  vars : Vars;
  dom : Dom
}.

(** What the page gets from outside the script: the [collectionName]
    parameter of [window.location.search], the function [parseUrlParams],
    which the closure calls and does not define ([None]: the call throws, as
    it does when no other script defines it; a function defined elsewhere
    sees the document and not the closure's variables), and the message texts
    of the engine's own exceptions. *)
Record Env := {
  location_collectionName : option string;
  parseUrlParams : Dom → option Dom;
  message : Js.Exception → string
}.

Definition set_area (html : string) (children : list CardElement) (d : Dom) : Dom :=
  {| cardDisplayArea_innerHTML := html;
     cardDisplayArea := children;
     loadingMessage_display := loadingMessage_display d;
     errorMessage_textContent := errorMessage_textContent d;
     errorMessage_display := errorMessage_display d;
     clearSearchButton_display := clearSearchButton_display d;
     paginationControlsTop := paginationControlsTop d;
     paginationControlsBottom := paginationControlsBottom d;
     controls := controls d;
     alerts := alerts d |}.

Definition set_loadingMessage_display (v : string) (d : Dom) : Dom :=
  {| cardDisplayArea_innerHTML := cardDisplayArea_innerHTML d;
     cardDisplayArea := cardDisplayArea d;
     loadingMessage_display := v;
     errorMessage_textContent := errorMessage_textContent d;
     errorMessage_display := errorMessage_display d;
     clearSearchButton_display := clearSearchButton_display d;
     paginationControlsTop := paginationControlsTop d;
     paginationControlsBottom := paginationControlsBottom d;
     controls := controls d;
     alerts := alerts d |}.

Definition set_errorMessage_textContent (v : string) (d : Dom) : Dom :=
  {| cardDisplayArea_innerHTML := cardDisplayArea_innerHTML d;
     cardDisplayArea := cardDisplayArea d;
     loadingMessage_display := loadingMessage_display d;
     errorMessage_textContent := v;
     errorMessage_display := errorMessage_display d;
     clearSearchButton_display := clearSearchButton_display d;
     paginationControlsTop := paginationControlsTop d;
     paginationControlsBottom := paginationControlsBottom d;
     controls := controls d;
     alerts := alerts d |}.

Definition set_errorMessage_display (v : string) (d : Dom) : Dom :=
  {| cardDisplayArea_innerHTML := cardDisplayArea_innerHTML d;
     cardDisplayArea := cardDisplayArea d;
     loadingMessage_display := loadingMessage_display d;
     errorMessage_textContent := errorMessage_textContent d;
     errorMessage_display := v;
     clearSearchButton_display := clearSearchButton_display d;
     paginationControlsTop := paginationControlsTop d;
     paginationControlsBottom := paginationControlsBottom d;
     controls := controls d;
     alerts := alerts d |}.

Definition set_clearSearchButton_display (v : string) (d : Dom) : Dom :=
  {| cardDisplayArea_innerHTML := cardDisplayArea_innerHTML d;
     cardDisplayArea := cardDisplayArea d;
     loadingMessage_display := loadingMessage_display d;
     errorMessage_textContent := errorMessage_textContent d;
     errorMessage_display := errorMessage_display d;
     clearSearchButton_display := v;
     paginationControlsTop := paginationControlsTop d;
     paginationControlsBottom := paginationControlsBottom d;
     controls := controls d;
     alerts := alerts d |}.

Definition set_paginationControls (top bottom : list PaginationNode) (d : Dom) : Dom :=
  {| cardDisplayArea_innerHTML := cardDisplayArea_innerHTML d;
     cardDisplayArea := cardDisplayArea d;
     loadingMessage_display := loadingMessage_display d;
     errorMessage_textContent := errorMessage_textContent d;
     errorMessage_display := errorMessage_display d;
     clearSearchButton_display := clearSearchButton_display d;
     paginationControlsTop := top;
     paginationControlsBottom := bottom;
     controls := controls d;
     alerts := alerts d |}.

Definition set_controls (c : Controls) (d : Dom) : Dom :=
  {| cardDisplayArea_innerHTML := cardDisplayArea_innerHTML d;
     cardDisplayArea := cardDisplayArea d;
     loadingMessage_display := loadingMessage_display d;
     errorMessage_textContent := errorMessage_textContent d;
     errorMessage_display := errorMessage_display d;
     clearSearchButton_display := clearSearchButton_display d;
     paginationControlsTop := paginationControlsTop d;
     paginationControlsBottom := paginationControlsBottom d;
     controls := c;
     alerts := alerts d |}.

(** [alert(message)]. *)
Definition alert (message : string) (d : Dom) : Dom :=
  {| cardDisplayArea_innerHTML := cardDisplayArea_innerHTML d;
     cardDisplayArea := cardDisplayArea d;
     loadingMessage_display := loadingMessage_display d;
     errorMessage_textContent := errorMessage_textContent d;
     errorMessage_display := errorMessage_display d;
     clearSearchButton_display := clearSearchButton_display d;
     paginationControlsTop := paginationControlsTop d;
     paginationControlsBottom := paginationControlsBottom d;
     controls := controls d;
     alerts := alerts d ++ [message] |}.

Definition set_currentPage (v : Z) (x : Vars) : Vars :=
  {| currentPage := v;
     itemsPerPage := itemsPerPage x;
     currentSortBy := currentSortBy x;
     currentSortOrder := currentSortOrder x;
     currentCollectionName := currentCollectionName x;
     currentSearchQuery := currentSearchQuery x;
     totalPages := totalPages x |}.

Definition set_itemsPerPage (v : option Z) (x : Vars) : Vars :=
  {| currentPage := currentPage x;
     itemsPerPage := v;
     currentSortBy := currentSortBy x;
     currentSortOrder := currentSortOrder x;
     currentCollectionName := currentCollectionName x;
     currentSearchQuery := currentSearchQuery x;
     totalPages := totalPages x |}.

Definition set_currentSortBy (v : string) (x : Vars) : Vars :=
  {| currentPage := currentPage x;
     itemsPerPage := itemsPerPage x;
     currentSortBy := v;
     currentSortOrder := currentSortOrder x;
     currentCollectionName := currentCollectionName x;
     currentSearchQuery := currentSearchQuery x;
     totalPages := totalPages x |}.

Definition set_currentSortOrder (v : string) (x : Vars) : Vars :=
  {| currentPage := currentPage x;
     itemsPerPage := itemsPerPage x;
     currentSortBy := currentSortBy x;
     currentSortOrder := v;
     currentCollectionName := currentCollectionName x;
     currentSearchQuery := currentSearchQuery x;
     totalPages := totalPages x |}.

Definition set_currentCollectionName (v : option string) (x : Vars) : Vars :=
  {| currentPage := currentPage x;
     itemsPerPage := itemsPerPage x;
     currentSortBy := currentSortBy x;
     currentSortOrder := currentSortOrder x;
     currentCollectionName := v;
     currentSearchQuery := currentSearchQuery x;
     totalPages := totalPages x |}.

Definition set_currentSearchQuery (v : option string) (x : Vars) : Vars :=
  {| currentPage := currentPage x;
     itemsPerPage := itemsPerPage x;
     currentSortBy := currentSortBy x;
     currentSortOrder := currentSortOrder x;
     currentCollectionName := currentCollectionName x;
     currentSearchQuery := v;
     totalPages := totalPages x |}.

Definition set_totalPages (v : Z) (x : Vars) : Vars :=
  {| currentPage := currentPage x;
     itemsPerPage := itemsPerPage x;
     currentSortBy := currentSortBy x;
     currentSortOrder := currentSortOrder x;
     currentCollectionName := currentCollectionName x;
     currentSearchQuery := currentSearchQuery x;
     totalPages := v |}.

Definition with_vars (f : Vars → Vars) (s : State) : State :=
  {| vars := f (vars s); dom := dom s |}.

Definition with_dom (f : Dom → Dom) (s : State) : State :=
  {| vars := vars s; dom := f (dom s) |}.

(** *** Rendering *)

Definition baseUrl : string := "http://localhost:8080/gacha/api/v1/storage".

(** The three nodes that [renderPaginationControls] appends to a container:
    [createButton('Previous', ..)], the page information and
    [createButton('Next', ..)]. *)
Definition pagination_nodes (p : Pagination) : list PaginationNode :=
  [ Button "Previous" (current_page p - 1) (current_page p =? 1);
    PageInfo ("Page " +:+ pretty (current_page p) +:+ " of " +:+ pretty (total_pages p));
    Button "Next" (current_page p + 1) (current_page p =? total_pages p) ].

(** [renderPaginationControls(paginationData)]; [None] is a call without an
    argument. *)
Definition renderPaginationControls (paginationData : option Pagination) (d : Dom) : Dom :=
  let d := set_paginationControls [] [] d in
  match paginationData with
  | None => d
  | Some p =>
      if total_pages p <=? 0 then d
      else set_paginationControls (pagination_nodes p) (pagination_nodes p) d
  end.

Definition displayError (message : string) (d : Dom) : Dom :=
  let d := set_errorMessage_textContent message d in
  let d := set_errorMessage_display "block" d in
  let d := set_loadingMessage_display "none" d in
  let d := set_area "" [] d in
  renderPaginationControls None d.

(** [updateActiveControls()].  The value of a select is kept as the text
    that is assigned to it: the options of the document are not among the
    sources, and a value that is assigned is taken to be that of an
    option. *)
Definition updateActiveControls (s : State) : State :=
  let v := vars s in
  with_dom (set_controls
    {| sortBySelect := currentSortBy v;
       sortOrderSelect := currentSortOrder v;
       perPageSelect := Js.number_to_string (itemsPerPage v);
       collectionNameInput := Js.or_empty (currentCollectionName v);
       searchInput := Js.or_empty (currentSearchQuery v) |}) s.

(** The element built for one card of [result.cards]; [collectionName] is the
    value of [currentCollectionName] when the response is rendered. *)
Definition card_element (collectionName : option string) (card : Card) : CardElement :=
  {| data_card_id := id card;
     image := if Js.truthy (image_url card)
              then Some (Js.or_empty (image_url card), card_name card)
              else None;
     h3 := card_name card;
     rarity_text := rarity card;
     point_worth_text := pretty (point_worth card);
     date_text := date_got_in_stock card;
     quantity_value := pretty (if quantity card =? 0 then 0 else quantity card);
     quantity_input := "";
     onclick_collectionName := Js.or_empty collectionName |}.

(** *** fetchAndDisplayCards *)

(** [v && v.trim() !== '']. *)
Definition has_text (v : option string) : bool :=
  Js.truthy v && negb (String.eqb (Js.trim (Js.or_empty v)) "").

Inductive Started :=
  | Sent (req : Request)
  | Threw (e : Js.Exception).

(** The pairs appended to [queryParams]. *)
Definition queryParams (v : Vars) : list (string * string) :=
  [ ("page", pretty (currentPage v));
    ("per_page", Js.number_to_string (itemsPerPage v));
    ("sort_by", currentSortBy v);
    ("sort_order", currentSortOrder v) ]
  ++ (if has_text (currentCollectionName v)
      then [("collectionName", Js.trim (Js.or_empty (currentCollectionName v)))]
      else [])
  ++ (if has_text (currentSearchQuery v)
      then [("search_query", Js.trim (Js.or_empty (currentSearchQuery v)))]
      else []).

(** The look-up of [collectionName] in the address of the page, made when
    [currentCollectionName] is not set. *)
Definition collectionName_from_location (env : Env) (s : State) : State :=
  if negb (Js.truthy (currentCollectionName (vars s)))
  then if Js.truthy (location_collectionName env)
       then with_vars (set_currentCollectionName (location_collectionName env)) s
       else s
  else s.

(** The call of [parseUrlParams], made when [currentCollectionName] is still
    not set; [None] when the call throws. *)
Definition parseUrlParams_if_unset (env : Env) (s : State) : option State :=
  if negb (Js.truthy (currentCollectionName (vars s)))
  then match parseUrlParams env (dom s) with
       | Some d => Some (with_dom (λ _, d) s)
       | None => None
       end
  else Some s.

(** The construction of [url] and the call of [fetch].  [url] is declared
    [const], so the statement [url += ..] that runs for a search query
    throws. *)
Definition build_url_and_fetch (s : State) : State * Started :=
  let searching := has_text (currentSearchQuery (vars s)) in
  let s := with_dom (set_clearSearchButton_display
                       (if searching then "inline-block" else "none")) s in
  let url := baseUrl +:+ "/cards?" +:+ Js.searchParams_toString (queryParams (vars s)) in
  if searching
  then (s, Threw (Js.TypeError_const_assignment "url"))
  else (s, Sent (GET url)).

(** [fetchAndDisplayCards] up to [await fetch(url)].  All of it is outside
    the [try]: an exception ends the call, nothing is sent and the document
    stays as it is at that point. *)
Definition fetchAndDisplayCards_start (env : Env) (s : State) : State * Started :=
  let s := with_dom (set_loadingMessage_display "block") s in
  let s := with_dom (set_errorMessage_display "none") s in
  let s := with_dom (set_area "" []) s in
  let s := collectionName_from_location env s in
  match parseUrlParams_if_unset env s with
  | None => (s, Threw (Js.ReferenceError_not_defined "parseUrlParams"))
  | Some s => build_url_and_fetch s
  end.

(** The text of [errorMsg] for a response that is not ok, or the exception
    that leaves the inner [try .. catch]: after [response.json()] has read
    the body, [response.text()] in the handler rejects. *)
Definition errorMsg (status : Z) (body : Body CardsObject) : Js.Exception + string :=
  let generic := "Error fetching cards. Status: " +:+ pretty status in
  match body with
  | NoBody => inr generic
  | NotJson => inl Js.TypeError_body_used
  | JsonNull => inl Js.TypeError_body_used
  | JsonPrimitive => inr generic
  | JsonObject o =>
      if detail_truthy (detail o)
      then match detail o with
           | Some (DetailString d) => inr (generic +:+ ", Server says: " +:+ d)
           | Some (DetailOther _ json _) => inr (generic +:+ ", Server says: " +:+ json)
           | None => inr generic
           end
      else inr generic
  end.

(** The rendering of a 2xx body that is an object. *)
Definition render_result (result : CardsObject) (s : State) : State :=
  let s :=
    match cards result with
    | None =>
        with_vars (set_totalPages 0)
          (with_dom (set_area "<p>No cards data found in the expected format (array).</p>" []) s)
    | Some [] =>
        with_vars (set_totalPages 0)
          (with_dom (set_area "<p>No cards found matching your criteria.</p>" []) s)
    | Some cs =>
        let s :=
          foldl (λ s card,
                   with_dom (λ d, set_area (cardDisplayArea_innerHTML d)
                                    (cardDisplayArea d
                                     ++ [card_element (currentCollectionName (vars s)) card]) d) s)
                s cs in
        with_vars (set_totalPages
                     match pagination result with
                     | Some p => if total_pages p =? 0 then 0 else total_pages p
                     | None => 0
                     end) s
    end in
  let s :=
    match pagination result with
    | Some p => with_dom (renderPaginationControls (Some p)) s
    | None =>
        with_dom (renderPaginationControls
                    (Some {| total_pages := totalPages (vars s);
                             current_page := currentPage (vars s) |})) s
    end in
  updateActiveControls s.

(** [fetchAndDisplayCards] from the outcome of [await fetch(url)] on. *)
Definition fetchAndDisplayCards_resume (env : Env) (r : FetchResult CardsObject) (s : State)
  : State :=
  let failed (text : string) := with_dom (displayError ("Failed to load cards. " +:+ text)) s in
  match r with
  | Rejected => failed (message env Js.TypeError_fetch_failed)
  | Response status body =>
      if negb (ok status)
      then match errorMsg status body with
           | inl e => failed (message env e)
           | inr text => failed text
           end
      else match body with
           | NoBody | NotJson => failed (message env Js.SyntaxError_json)
           | JsonNull | JsonPrimitive =>
               let s := with_dom (set_loadingMessage_display "none") s in
               let s := with_dom (displayError "Invalid data structure received from server.") s in
               let s := with_dom (renderPaginationControls
                                    (Some {| total_pages := 0;
                                             current_page := currentPage (vars s) |})) s in
               updateActiveControls s
           | JsonObject result =>
               render_result result (with_dom (set_loadingMessage_display "none") s)
           end
  end.

(** *** The listeners of the controls *)

Definition fetchCollectionButton_click (env : Env) (s : State) : State * Started :=
  let s := with_vars (set_currentCollectionName
                        (Js.or_null (Js.trim (collectionNameInput (controls (dom s)))))) s in
  let s := with_vars (set_currentPage 1) s in
  fetchAndDisplayCards_start env s.

Definition searchButton_click (env : Env) (s : State) : State * Started :=
  let s := with_vars (set_currentSearchQuery
                        (Js.or_null (Js.trim (searchInput (controls (dom s)))))) s in
  let s := with_vars (set_currentPage 1) s in
  fetchAndDisplayCards_start env s.

Definition set_searchInput (v : string) (c : Controls) : Controls :=
  {| collectionNameInput := collectionNameInput c;
     searchInput := v;
     sortBySelect := sortBySelect c;
     sortOrderSelect := sortOrderSelect c;
     perPageSelect := perPageSelect c |}.

Definition clearSearchButton_click (env : Env) (s : State) : State * Started :=
  let s := with_vars (set_currentSearchQuery None) s in
  let s := with_dom (λ d, set_controls (set_searchInput "" (controls d)) d) s in
  let s := with_vars (set_currentPage 1) s in
  let s := with_dom (set_clearSearchButton_display "none") s in
  fetchAndDisplayCards_start env s.

Definition sortBySelect_change (env : Env) (s : State) : State * Started :=
  let s := with_vars (set_currentSortBy (sortBySelect (controls (dom s)))) s in
  let s := with_vars (set_currentPage 1) s in
  fetchAndDisplayCards_start env s.

Definition sortOrderSelect_change (env : Env) (s : State) : State * Started :=
  let s := with_vars (set_currentSortOrder (sortOrderSelect (controls (dom s)))) s in
  let s := with_vars (set_currentPage 1) s in
  fetchAndDisplayCards_start env s.

Definition perPageSelect_change (env : Env) (s : State) : State * Started :=
  let s := with_vars (set_itemsPerPage
                        (Js.parseInt (perPageSelect (controls (dom s))) (Some 10))) s in
  let s := with_vars (set_currentPage 1) s in
  fetchAndDisplayCards_start env s.

(** The listener that [createButton(text, page, ..)] attaches. *)
Definition pageButton_click (env : Env) (page : Z) (s : State) : State * Started :=
  let s := with_vars (set_currentPage page) s in
  fetchAndDisplayCards_start env s.

(** The state when the listener of [DOMContentLoaded] has read the controls,
    before its initial call of [fetchAndDisplayCards]. *)
Definition initial_vars (c : Controls) : Vars :=
  {| currentPage := 1;
     itemsPerPage := Js.parseInt (perPageSelect c) (Some 10);
     currentSortBy := sortBySelect c;
     currentSortOrder := sortOrderSelect c;
     currentCollectionName := Js.or_null (Js.trim (collectionNameInput c));
     currentSearchQuery := Js.or_null (Js.trim (searchInput c));
     totalPages := 1 |}.

(** *** updateQuantity and updateQuantityByInput *)

(** The characters that end or escape a CSS string. *)
Definition css_special (c : ascii) : bool :=
  let n := Ascii.nat_of_ascii c in
  ((n =? 34) || (n =? 92) || (n =? 10) || (n =? 12) || (n =? 13))%nat.

Fixpoint css_plain (s : string) : bool :=
  match s with
  | EmptyString => true
  | String c r => negb (css_special c) && css_plain r
  end.

(** [document.querySelector(`[data-card-id="${documentId}"]`)]: the index of
    the first card element with that attribute value, [None] for [null].  The
    selector is that attribute test for an id without a character that is
    special in a CSS string.  What the parser of CSS makes of the text built
    from another id is not followed: it stands here as a selector that is
    refused, and the statements about the look-up are made for the ids
    without such a character. *)
Definition querySelector_card (documentId : string) (d : Dom) : Js.Exception + option nat :=
  if css_plain documentId
  then inr (fst <$> list_find (λ e, data_card_id e = documentId) (cardDisplayArea d))
  else inl Js.SyntaxError_selector.

Definition set_quantity_value (v : string) (e : CardElement) : CardElement :=
  {| data_card_id := data_card_id e;
     image := image e;
     h3 := h3 e;
     rarity_text := rarity_text e;
     point_worth_text := point_worth_text e;
     date_text := date_text e;
     quantity_value := v;
     quantity_input := quantity_input e;
     onclick_collectionName := onclick_collectionName e |}.

Definition set_quantity_input (v : string) (e : CardElement) : CardElement :=
  {| data_card_id := data_card_id e;
     image := image e;
     h3 := h3 e;
     rarity_text := rarity_text e;
     point_worth_text := point_worth_text e;
     date_text := date_text e;
     quantity_value := quantity_value e;
     quantity_input := v;
     onclick_collectionName := onclick_collectionName e |}.

(** A write to the card element at [index]. *)
Definition with_card (index : nat) (f : CardElement → CardElement) (d : Dom) : Dom :=
  set_area (cardDisplayArea_innerHTML d) (alter f index (cardDisplayArea d)) d.

Definition collection_query (collectionName : option string) : string :=
  if has_text collectionName
  then "?collectionName=" +:+ Js.encodeURIComponent (Js.trim (Js.or_empty collectionName))
  else "".

Definition quantity_url (documentId : string) (collectionName : option string) : string :=
  ("http://localhost:8080/gacha/api/v1/storage/cards/" +:+ documentId +:+ "/quantity")
  +:+ collection_query collectionName.

Definition updateUrl (documentId : string) (collectionName : option string) : string :=
  ("http://localhost:8080/gacha/api/v1/storage/cards/" +:+ documentId)
  +:+ collection_query collectionName.

(** The text of [String(detail)], the message of [new Error(detail)]. *)
Definition detail_text (d : option Detail) : string :=
  match d with
  | Some (DetailString s) => s
  | Some (DetailOther _ _ text) => text
  | None => ""
  end.

(** The [try .. catch] that both functions run on the outcome of their
    request: [prefix] starts the text of the [alert] of the handler, and
    [clear_input] tells whether the quantity input is emptied with the
    update of the displayed quantity (the [PUT] of [updateQuantityByInput]
    does it, [updateQuantity] does not). *)
Definition update_response (env : Env) (prefix : string) (clear_input : bool)
    (documentId : string) (r : FetchResult UpdateObject) (d : Dom) : Dom :=
  let failed (text : string) := alert (prefix +:+ text) d in
  match r with
  | Rejected => failed (message env Js.TypeError_fetch_failed)
  | Response status body =>
      if negb (ok status)
      then match body with
           | NoBody | NotJson => failed (message env Js.SyntaxError_json)
           | JsonNull => failed (message env (Js.TypeError_null_property "detail"))
           | JsonPrimitive => failed ("Error: " +:+ pretty status)
           | JsonObject errorData =>
               if detail_truthy (u_detail errorData)
               then failed (detail_text (u_detail errorData))
               else failed ("Error: " +:+ pretty status)
           end
      else
        let shown (quantity_text : string) (index : nat) :=
          let d := with_card index (set_quantity_value quantity_text) d in
          if clear_input then with_card index (set_quantity_input "") d else d in
        match body with
        | NoBody | NotJson => failed (message env Js.SyntaxError_json)
        | _ =>
            match querySelector_card documentId d with
            | inl e => failed (message env e)
            | inr None => d
            | inr (Some index) =>
                match body with
                | JsonObject updatedCard =>
                    shown (match u_quantity updatedCard with
                           | Some q => pretty q
                           | None => ""
                           end) index
                | JsonPrimitive => shown "" index
                | _ => failed (message env (Js.TypeError_null_property "quantity"))
                end
            end
        end
  end.

(** [updateQuantity] up to [await fetch(..)]. *)
Definition updateQuantity_start (documentId : string) (change : Z)
    (collectionName : option string) : Request :=
  PATCH (quantity_url documentId collectionName) change.

(** [updateQuantity] from the outcome of its request on. *)
Definition updateQuantity_resume (env : Env) (documentId : string)
    (r : FetchResult UpdateObject) (d : Dom) : Dom :=
  update_response env "Failed to update quantity: " false documentId r d.

(** How a part of an [async] function ends: it returned, it waits for a
    request, or an exception left it. *)
Inductive Next :=
  | Done
  | Await (req : Request)
  | Uncaught (e : Js.Exception).

(** [updateQuantityByInput] up to the [await] of its call of
    [updateQuantity]. *)
Definition updateQuantityByInput_start (documentId inputValue : string)
    (collectionName : option string) (d : Dom) : Dom * Next :=
  match Js.parseInt inputValue None with
  | None => (alert "Please enter a valid number for quantity change." d, Done)
  | Some amount => (d, Await (updateQuantity_start documentId amount collectionName))
  end.

(** [updateQuantityByInput] from the end of [updateQuantity] to the [await]
    of its own [PUT]. *)
Definition updateQuantityByInput_patched (env : Env) (documentId inputValue : string)
    (collectionName : option string) (r : FetchResult UpdateObject) (d : Dom) : Dom * Next :=
  let d := updateQuantity_resume env documentId r d in
  match querySelector_card documentId d with
  | inl e => (d, Uncaught e)
  | inr cardElement =>
      let d :=
        match cardElement with
        | Some index => with_card index (set_quantity_input "") d
        | None => d
        end in
      match Js.parseInt inputValue None with
      | None => (alert "Please enter a valid non-negative number for quantity." d, Done)
      | Some newQuantity =>
          if newQuantity <? 0
          then (alert "Please enter a valid non-negative number for quantity." d, Done)
          else (d, Await (PUT (updateUrl documentId collectionName) newQuantity))
      end
  end.

(** [updateQuantityByInput] from the outcome of its [PUT] on. *)
Definition updateQuantityByInput_resume (env : Env) (documentId : string)
    (r : FetchResult UpdateObject) (d : Dom) : Dom :=
  update_response env "Failed to set quantity: " true documentId r d.

(** The whole of [updateQuantityByInput] when nothing else runs in between:
    the document at the end and the requests sent, in order.  [r1] answers
    the [PATCH], [r2] the [PUT]. *)
Definition updateQuantityByInput (env : Env) (documentId inputValue : string)
    (collectionName : option string) (r1 r2 : FetchResult UpdateObject) (d : Dom)
  : Dom * list Request :=
  match updateQuantityByInput_start documentId inputValue collectionName d with
  | (d, Await patch) =>
      match updateQuantityByInput_patched env documentId inputValue collectionName r1 d with
      | (d, Await put) => (updateQuantityByInput_resume env documentId r2 d, [patch; put])
      | (d, _) => (d, [patch])
      end
  | (d, _) => (d, [])
  end.

(** *** The page as an event system *)

(** What runs when the answer to a request arrives: the rest of the [async]
    function that sent it. *)
Inductive Continuation :=
  | fetchAndDisplayCards_k
  | updateQuantity_k (documentId : string)
  | updateQuantityByInput_patch_k (documentId inputValue : string)
      (collectionName : option string)
  | updateQuantityByInput_put_k (documentId : string).

Record InFlight := {
  request : Request;
  continuation : Continuation
}.

(** The page between two events: the state of the script, the requests that
    wait for their answer (oldest first), and the exceptions that left an
    [async] function uncaught. *)
Record World := {
  state : State;
  pending : list InFlight;
  uncaught : list Js.Exception
}.

Inductive Event :=
  (* the user edits a control; only the selects have a listener for it *)
  | collectionNameInput_input (v : string)
  | searchInput_input (v : string)
  | sortBySelect_select (v : string)
  | sortOrderSelect_select (v : string)
  | perPageSelect_select (v : string)
  | quantity_input_input (index : nat) (v : string)
  (* a key is pressed in the search input *)
  | searchInput_keypress (key : string)
  (* clicks *)
  | fetchCollectionButton_clicked
  | searchButton_clicked
  | clearSearchButton_clicked
  | paginationTop_clicked (index : nat)
  | paginationBottom_clicked (index : nat)
  | plus_clicked (index : nat)
  | minus_clicked (index : nat)
  | set_clicked (index : nat)
  (* the answer to the pending request [index] arrives *)
  | cards_arrived (index : nat) (r : FetchResult CardsObject)
  | update_arrived (index : nat) (r : FetchResult UpdateObject).

Definition set_state (s : State) (w : World) : World :=
  {| state := s; pending := pending w; uncaught := uncaught w |}.

Definition send (req : Request) (k : Continuation) (w : World) : World :=
  {| state := state w;
     pending := pending w ++ [{| request := req; continuation := k |}];
     uncaught := uncaught w |}.

Definition throw (e : Js.Exception) (w : World) : World :=
  {| state := state w; pending := pending w; uncaught := uncaught w ++ [e] |}.

Definition answered (index : nat) (w : World) : World :=
  {| state := state w; pending := delete index (pending w); uncaught := uncaught w |}.

(** A listener that ends in a call of [fetchAndDisplayCards]. *)
Definition fetching (listener : State → State * Started) (w : World) : World :=
  match listener (state w) with
  | (s, Sent req) => send req fetchAndDisplayCards_k (set_state s w)
  | (s, Threw e) => throw e (set_state s w)
  end.

Definition proceed (k : Continuation) (w : World) (dn : Dom * Next) : World :=
  let w := set_state (with_dom (λ _, dn.1) (state w)) w in
  match dn.2 with
  | Done => w
  | Await req => send req k w
  | Uncaught e => throw e w
  end.

Definition pagination_click (env : Env) (node : option PaginationNode) (w : World) : World :=
  match node with
  | Some (Button _ page false) => fetching (pageButton_click env page) w
  | _ => w
  end.

Definition set_control (f : Controls → Controls) (w : World) : World :=
  set_state (with_dom (λ d, set_controls (f (controls d)) d) (state w)) w.

Definition step (env : Env) (ev : Event) (w : World) : World :=
  let d := dom (state w) in
  match ev with
  | collectionNameInput_input v =>
      set_control (λ c, {| collectionNameInput := v;
                           searchInput := searchInput c;
                           sortBySelect := sortBySelect c;
                           sortOrderSelect := sortOrderSelect c;
                           perPageSelect := perPageSelect c |}) w
  | searchInput_input v => set_control (set_searchInput v) w
  | sortBySelect_select v =>
      fetching (sortBySelect_change env)
        (set_control (λ c, {| collectionNameInput := collectionNameInput c;
                              searchInput := searchInput c;
                              sortBySelect := v;
                              sortOrderSelect := sortOrderSelect c;
                              perPageSelect := perPageSelect c |}) w)
  | sortOrderSelect_select v =>
      fetching (sortOrderSelect_change env)
        (set_control (λ c, {| collectionNameInput := collectionNameInput c;
                              searchInput := searchInput c;
                              sortBySelect := sortBySelect c;
                              sortOrderSelect := v;
                              perPageSelect := perPageSelect c |}) w)
  | perPageSelect_select v =>
      fetching (perPageSelect_change env)
        (set_control (λ c, {| collectionNameInput := collectionNameInput c;
                              searchInput := searchInput c;
                              sortBySelect := sortBySelect c;
                              sortOrderSelect := sortOrderSelect c;
                              perPageSelect := v |}) w)
  | quantity_input_input index v =>
      set_state (with_dom (with_card index (set_quantity_input v)) (state w)) w
  | searchInput_keypress key =>
      if String.eqb key "Enter" then fetching (searchButton_click env) w else w
  | fetchCollectionButton_clicked => fetching (fetchCollectionButton_click env) w
  | searchButton_clicked => fetching (searchButton_click env) w
  | clearSearchButton_clicked => fetching (clearSearchButton_click env) w
  | paginationTop_clicked index => pagination_click env (paginationControlsTop d !! index) w
  | paginationBottom_clicked index =>
      pagination_click env (paginationControlsBottom d !! index) w
  | plus_clicked index =>
      match cardDisplayArea d !! index with
      | Some e =>
          send (updateQuantity_start (data_card_id e) 1 (Some (onclick_collectionName e)))
               (updateQuantity_k (data_card_id e)) w
      | None => w
      end
  | minus_clicked index =>
      match cardDisplayArea d !! index with
      | Some e =>
          send (updateQuantity_start (data_card_id e) (-1) (Some (onclick_collectionName e)))
               (updateQuantity_k (data_card_id e)) w
      | None => w
      end
  | set_clicked index =>
      match cardDisplayArea d !! index with
      | Some e =>
          proceed (updateQuantityByInput_patch_k (data_card_id e) (quantity_input e)
                     (Some (onclick_collectionName e))) w
            (updateQuantityByInput_start (data_card_id e) (quantity_input e)
               (Some (onclick_collectionName e)) d)
      | None => w
      end
  | cards_arrived index r =>
      match pending w !! index with
      | Some {| continuation := fetchAndDisplayCards_k |} =>
          set_state (fetchAndDisplayCards_resume env r (state w)) (answered index w)
      | _ => w
      end
  | update_arrived index r =>
      match pending w !! index with
      | Some {| continuation := updateQuantity_k documentId |} =>
          set_state (with_dom (updateQuantity_resume env documentId r) (state w))
            (answered index w)
      | Some {| continuation := updateQuantityByInput_patch_k documentId inputValue c |} =>
          proceed (updateQuantityByInput_put_k documentId) (answered index w)
            (updateQuantityByInput_patched env documentId inputValue c r d)
      | Some {| continuation := updateQuantityByInput_put_k documentId |} =>
          set_state (with_dom (updateQuantityByInput_resume env documentId r) (state w))
            (answered index w)
      | _ => w
      end
  end.

(** The events of a session, in the order in which they happen. *)
Definition run (env : Env) (evs : list Event) (w : World) : World :=
  foldl (λ w ev, step env ev w) w evs.

(** The page when the listener of [DOMContentLoaded] has run: the variables
    are read from the controls of the document [d] and the initial call of
    [fetchAndDisplayCards] is made. *)
Definition loaded (env : Env) (d : Dom) : World :=
  fetching (fetchAndDisplayCards_start env)
    {| state := {| vars := initial_vars (controls d); dom := d |};
       pending := [];
       uncaught := [] |}.

End AdminCards.

(** ** The listeners of the user collection view (collection.js) *)

Module CollectionEvents.
Import Collection.

(** What a caller hands to [openEditModal]: the listener of a card name
    hands the card, the listener that [enableCardNameEditing] installs hands
    the [data-card-id] of the card item. *)
Inductive Argument :=
  | TheCard (card : Card)
  | TheId (cardId : string).

(** [card.id === cardId] for the id of a card, a string, and the argument:
    a string and an object are never strictly equal. *)
Definition id_is (cardId : Argument) (card : Card) : bool :=
  match cardId with
  | TheId i => String.eqb (id card) i
  | TheCard _ => false
  end.

(** [openEditModal], by the declaration that is in force, the last one of
    the closure: the card is looked up in [currentCards]; the inputs of the
    form of collection.html have no [name], so that the look-up of the first
    of them, for a card that is found, gives [null]. *)
Definition openEditModal (cardId : Argument) (p : Page) : Js.Exception + Page :=
  match List.find (id_is cardId) (currentCards p) with
  | None => inr p
  | Some card => inl (Js.TypeError_null_property "value")
  end.

(** The listener of a click on the name of a card, which
    [displayCollection] attaches to the [h4] of its element. *)
Definition cardName_click (card : Card) (p : Page) : Js.Exception + Page :=
  openEditModal (TheCard card) p.

(** The listener of [#viewCustomCollection], by the value of
    [#customCollectionName]. *)
Definition viewCustomCollection_click (customCollectionName : string) (p : Page)
  : Page * Request :=
  let collectionName := Js.trim customCollectionName in
  if Js.truthy (Some collectionName)
  then fetchCards_start (Some collectionName) p
  else fetchCards_start None p.

End CollectionEvents.

(** ** The admin page of the collections (admin_collections.js) *)

Module AdminCollections.

Record CollectionMetadata := {
  name : string;
  firestoreCollection : string;
  storagePrefix : string
}.

(** One row of [#collections-table-body]: the three cells and the address
    that the button "View Cards" goes to. *)
Record Row := {
  nameCell : string;
  firestoreCollectionCell : string;
  storagePrefixCell : string;
  viewBtn_href : string
}.

(** One alert of [#alerts-container]: the [type] of [displayAlert], which
    makes its class, and the message. *)
Record Alert := {
  alert_type : string;
  alert_message : string
}.

(** The page: the rows of the table and the alerts, [None] when the
    document has no such element, and whether the modal is shown. *)
Record Page := {
  collections_table_body : option (list Row);
  alerts_container : option (list Alert);
  collectionModal_shown : bool
}.

Definition GET_ALL_COLLECTIONS : string :=
  "http://localhost:8080/gacha/api/v1/storage/collections".
Definition ADD_COLLECTION : string :=
  "http://localhost:8080/gacha/api/v1/storage/collections".

Definition row_of (collection : CollectionMetadata) : Row :=
  {| nameCell := name collection;
     firestoreCollectionCell := firestoreCollection collection;
     storagePrefixCell := storagePrefix collection;
     viewBtn_href := "http://localhost:8080/gacha/api/v1/storage/cards?collectionName="
                     +:+ name collection |}.

(** The value that [response.json()] gives for the body of the list:
    [null], an array, whose elements are taken to be collections, or another
    value. *)
Inductive Collections :=
  | CollectionsNull
  | CollectionsArray (collections : list CollectionMetadata)
  | CollectionsOther.

Definition set_collections_table_body (rows : list Row) (p : Page) : Page :=
  {| collections_table_body := Some rows;
     alerts_container := alerts_container p;
     collectionModal_shown := collectionModal_shown p |}.

(** [displayCollections(collections)]: the page and the exception that
    leaves the function, if one does.  Without the table the function
    returns at once; with it the table is emptied before [forEach] is looked
    up. *)
Definition displayCollections (collections : Collections) (p : Page)
  : Page * option Js.Exception :=
  match collections_table_body p with
  | None => (p, None)
  | Some _ =>
      match collections with
      | CollectionsArray collections =>
          (set_collections_table_body (row_of <$> collections) p, None)
      | CollectionsNull =>
          (set_collections_table_body [] p, Some (Js.TypeError_null_property "forEach"))
      | CollectionsOther =>
          (set_collections_table_body [] p, Some (Js.TypeError_not_a_function "forEach"))
      end
  end.

Definition displayAlert (message type : string) (p : Page) : Page :=
  match alerts_container p with
  | None => p
  | Some alerts =>
      {| collections_table_body := collections_table_body p;
         alerts_container := Some (alerts ++ [{| alert_type := type;
                                                 alert_message := message |}]);
         collectionModal_shown := collectionModal_shown p |}
  end.

Definition displayError (message : string) : Page → Page := displayAlert message "danger".
Definition displaySuccess (message : string) : Page → Page := displayAlert message "success".

(** [fetchAllCollections] from the outcome of its request on.  The call of
    [displayCollections] is inside the [try]. *)
Definition fetchAllCollections_resume (r : Collection.Outcome Collections) (p : Page)
  : Page :=
  match r with
  | Collection.Ok collections =>
      match displayCollections collections p with
      | (p, None) => p
      | (p, Some _) => displayError "Failed to load collections. Please try again." p
      end
  | _ => displayError "Failed to load collections. Please try again." p
  end.

(** The JSON object sent by [handleCollectionSubmit]; [None] is [null], for
    a name without entry in the form data. *)
Record CollectionData := {
  d_name : option string;
  d_firestoreCollection : option string;
  d_storagePrefix : option string
}.

Inductive Request :=
  | GET (url : string)
  | POST (url : string) (body : CollectionData).

(** [handleCollectionSubmit] up to [await fetch(..)]. *)
Definition handleCollectionSubmit_start (formData : gmap string string) : Request :=
  POST ADD_COLLECTION
    {| d_name := formData !! "name";
       d_firestoreCollection := formData !! "firestoreCollection";
       d_storagePrefix := formData !! "storagePrefix" |}.

(** [handleCollectionSubmit] from the outcome of its request on: the page,
    and the request of the call of [fetchAllCollections] when it is made.  An
    ok answer is not read. *)
Definition handleCollectionSubmit_resume (message : Js.Exception → string)
    (r : AdminCards.FetchResult (option AdminCards.Detail)) (p : Page)
  : Page * option Request :=
  let failed (text : string) :=
    (displayError ("Failed to add collection: " +:+ text) p, None) in
  match r with
  | AdminCards.Rejected => failed (message Js.TypeError_fetch_failed)
  | AdminCards.Response status body =>
      if negb (AdminCards.ok status)
      then match body with
           | AdminCards.NoBody | AdminCards.NotJson => failed (message Js.SyntaxError_json)
           | AdminCards.JsonNull => failed (message (Js.TypeError_null_property "detail"))
           | AdminCards.JsonPrimitive => failed "Failed to add collection"
           | AdminCards.JsonObject detail =>
               if AdminCards.detail_truthy detail
               then failed (AdminCards.detail_text detail)
               else failed "Failed to add collection"
           end
      else
        let p := {| collections_table_body := collections_table_body p;
                    alerts_container := alerts_container p;
                    collectionModal_shown := false |} in
        (displaySuccess "Collection added successfully!" p, Some (GET GET_ALL_COLLECTIONS))
  end.

End AdminCollections.

(** ** Settled promises *)

Module Promise.

(** What a promise is rejected with: an [Error] made by the script, of which
    the message is read, or an exception of the engine. *)
Inductive Reason :=
  | Error (message : string)
  | Engine (e : Js.Exception).

(** A promise when it is settled. *)
Inductive Settled (A : Type) :=
  | Fulfilled (value : A)
  | Rejected (reason : Reason).
Arguments Fulfilled {A} value.
Arguments Rejected {A} reason.

(** [p.then(onFulfilled)]: a callback that throws gives a rejected promise,
    one that returns a promise gives that promise. *)
Definition then_ {A B : Type} (p : Settled A) (onFulfilled : A → Settled B) : Settled B :=
  match p with
  | Fulfilled value => onFulfilled value
  | Rejected reason => Rejected reason
  end.

(** [p.catch(onRejected)]. *)
Definition catch {A : Type} (p : Settled A) (onRejected : Reason → Settled A) : Settled A :=
  match p with
  | Fulfilled value => Fulfilled value
  | Rejected reason => onRejected reason
  end.

(** [error.message]. *)
Definition message_of (message : Js.Exception → string) (reason : Reason) : string :=
  match reason with
  | Error text => text
  | Engine e => message e
  end.

End Promise.

(** ** The upload form, with the form data built field by field *)

Module UploadCard.

(** The controls of the form; [image_file] is the first file of the file
    input, by its name, [None] when no file is selected. *)
Record Fields := {
  card_name : string;
  rarity : string;
  point_worth : string;
  quantity : string;
  date_got_in_stock : string;
  collection_metadata_id : string;
  image_file : option string
}.

(** The page: the controls, the values that [uploadForm.reset()] gives
    them, and [#message]. *)
Record Page := {
  fields : Fields;
  defaults : Fields;
  message_textContent : string;
  message_className : string
}.

Definition set_message (text className : string) (p : Page) : Page :=
  {| fields := fields p;
     defaults := defaults p;
     message_textContent := text;
     message_className := className |}.

Inductive Entry :=
  | Text (name value : string)
  | File (name file : string).

Record Request := {
  url : string;
  formData : list Entry
}.

Definition backendUrl : string := "http://localhost:8080/gacha/api/v1/storage/upload_card".

(** The listener of [submit] up to [await fetch(..)]; [None] when it
    returns before. *)
Definition submit (p : Page) : Page * option Request :=
  let p := set_message "" "" p in
  let f := fields p in
  let formData :=
    [ Text "card_name" (card_name f);
      Text "rarity" (rarity f);
      Text "point_worth" (point_worth f);
      Text "quantity" (quantity f);
      Text "date_got_in_stock" (date_got_in_stock f) ] in
  let collectionMetadataId := collection_metadata_id f in
  let uploadUrl :=
    if Js.truthy (Some collectionMetadataId)
    then backendUrl +:+ "?collection_metadata_id=" +:+ Js.encodeURIComponent collectionMetadataId
    else backendUrl in
  match image_file f with
  | None => (set_message "Please select an image file." "error" p, None)
  | Some imageFile =>
      (p, Some {| url := uploadUrl; formData := formData ++ [File "image_file" imageFile] |})
  end.

(** The [detail] of the body of an answer that is not ok: a string, an
    array (of the validation errors of the server, each with the second
    element of its [loc] and its [msg]), another object with its JSON text,
    or a value of another kind with its truthiness. *)
Inductive Detail :=
  | DetailString (s : string)
  | DetailArray (errors : list (string * string))
  | DetailObject (json : string)
  | DetailOther (is_truthy : bool).

(** The members read from the body. *)
Record UploadObject := {
  r_card_name : option string;
  r_image_url : option string;
  r_detail : option Detail
}.

(** The text of [errorMessage] for the [detail] of the body. *)
Definition errorMessage (detail : option Detail) : string :=
  "Error uploading card."
  +:+ match detail with
      | Some (DetailString s) =>
          if String.eqb s "" then "" else " Server says: " +:+ s
      | Some (DetailArray errors) =>
          " Details: "
          +:+ Js.join "; " ((λ err, "Field: " +:+ err.1 +:+ ", Message: " +:+ err.2) <$> errors)
      | Some (DetailObject json) => " Server says: " +:+ json
      | Some (DetailOther _) => ""
      | None => ""
      end.

(** The listener of [submit] from the outcome of [await fetch(..)] on.  The
    body is read before the status is looked at. *)
Definition submit_resume (r : AdminCards.FetchResult UploadObject) (p : Page) : Page :=
  let unexpected := "An unexpected error occurred. Check the console for details." in
  let success (card_name image_url : option string) :=
    {| fields := defaults p;
       defaults := defaults p;
       message_textContent :=
         "Card uploaded successfully! Card Name: " +:+ Js.or_undefined card_name
         +:+ ", Image URL: " +:+ Js.or_undefined image_url;
       message_className := "success" |} in
  match r with
  | AdminCards.Rejected => set_message unexpected "error" p
  | AdminCards.Response status body =>
      match body with
      | AdminCards.NoBody | AdminCards.NotJson | AdminCards.JsonNull =>
          set_message unexpected "error" p
      | AdminCards.JsonPrimitive =>
          if AdminCards.ok status then success None None
          else set_message (errorMessage None) "error" p
      | AdminCards.JsonObject result =>
          if AdminCards.ok status then success (r_card_name result) (r_image_url result)
          else set_message (errorMessage (r_detail result)) "error" p
      end
  end.

End UploadCard.

(** ** The upload form, with the form data built from the form *)

Module UploadCardForm.
Import Promise.

(** The paragraph that the script writes into [#message]. *)
Record Paragraph := {
  class : string;
  text : string
}.

(** The page: the value of the drop-down [#collection_metadata_id], the
    value of [#collection_backup] ([None]: the document has no such
    element), [#message], and whether [uploadForm.reset()] has run.  What
    the reset makes of the two values depends on the options of the
    document and is not followed: they stand as they were before it. *)
Record Page := {
  collectionDropdown_value : string;
  collection_backup_value : option string;
  messageDiv : option Paragraph;
  uploadForm_reset : bool
}.

Definition set_messageDiv (m : Paragraph) (p : Page) : Page :=
  {| collectionDropdown_value := collectionDropdown_value p;
     collection_backup_value := collection_backup_value p;
     messageDiv := Some m;
     uploadForm_reset := uploadForm_reset p |}.

Definition backendUrl : string := "http://localhost:8080/gacha/api/v1/storage/upload_card".

(** [formData.delete(name)]. *)
Definition delete (name : string) (formData : list (string * string))
  : list (string * string) :=
  filter (λ entry, entry.1 ≠ name) formData.

(** [formData.append(name, value)]. *)
Definition append (name value : string) (formData : list (string * string))
  : list (string * string) :=
  formData ++ [(name, value)].

Record Request := {
  url : string;
  body : list (string * string)
}.

(** The listener of [submit] up to the call of [fetch]; [entries] are the
    entries that [new FormData(uploadForm)] takes from the form, a file
    standing with its name. *)
Definition submit (entries : list (string * string)) (p : Page)
  : Page * (Js.Exception + Request) :=
  let p := set_messageDiv {| class := "info"; text := "Uploading card..." |} p in
  let selectedCollection := collectionDropdown_value p in
  match collection_backup_value p with
  | None => (p, inl (Js.TypeError_null_property "value"))
  | Some _ =>
      let p := {| collectionDropdown_value := collectionDropdown_value p;
                  collection_backup_value := Some selectedCollection;
                  messageDiv := messageDiv p;
                  uploadForm_reset := uploadForm_reset p |} in
      let formData :=
        if Js.truthy (Some (collectionDropdown_value p))
        then append "collection_metadata_id" (collectionDropdown_value p)
               (delete "collection_metadata_id" entries)
        else entries in
      (p, inr {| url := backendUrl; body := formData |})
  end.

(** [response.json()]: the promise of the value of the body. *)
Definition json {A : Type} (body : AdminCards.Body A) : Settled (AdminCards.Body A) :=
  match body with
  | AdminCards.NoBody | AdminCards.NotJson => Rejected (Engine Js.SyntaxError_json)
  | value => Fulfilled value
  end.

(** [errData.detail || 'Upload failed'], as the message of the [Error]
    made of it. *)
Definition detail_or_default (errData : AdminCards.Body (option AdminCards.Detail))
  : Settled string :=
  match errData with
  | AdminCards.JsonNull => Rejected (Engine (Js.TypeError_null_property "detail"))
  | AdminCards.JsonObject detail =>
      Fulfilled (if AdminCards.detail_truthy detail
                 then AdminCards.detail_text detail
                 else "Upload failed")
  | _ => Fulfilled "Upload failed"
  end.

(** The promise that [fetch] returns, settled. *)
Definition fetch {A : Type} (r : AdminCards.FetchResult A) : Settled (Z * AdminCards.Body A) :=
  match r with
  | AdminCards.Rejected => Rejected (Engine Js.TypeError_fetch_failed)
  | AdminCards.Response status body => Fulfilled (status, body)
  end.

(** The chain of the listener, from the promise of [fetch] to the handler
    at its end.  The body of an answer is taken by its member [detail]. *)
Definition submit_resume (message : Js.Exception → string)
    (r : AdminCards.FetchResult (option AdminCards.Detail)) (p : Page) : Page :=
  let chain : Settled Page :=
    catch
      (then_
         (then_ (fetch r)
            (λ response,
               let '(status, body) := response in
               if negb (AdminCards.ok status)
               then
                 if status =? 405
                 then Rejected (Error ("Method Not Allowed: "
                                       +:+ "This endpoint only accepts POST requests"))
                 else
                   catch
                     (then_ (json body)
                        (λ errData,
                           then_ (detail_or_default errData)
                             (λ text, Rejected (Error text))))
                     (λ err, Rejected (Error ("Upload failed with status "
                                              +:+ pretty status)))
               else json body))
         (λ data,
            Fulfilled
              {| collectionDropdown_value := collectionDropdown_value p;
                 collection_backup_value := collection_backup_value p;
                 messageDiv := Some {| class := "success";
                                       text := "Card uploaded successfully!" |};
                 uploadForm_reset := true |}))
      (λ error,
         Fulfilled
           (set_messageDiv {| class := "error";
                              text := "Error: " +:+ message_of message error |} p)) in
  match chain with
  | Fulfilled p => p
  | Rejected _ => p
  end.

End UploadCardForm.

(** ** The form that adds a pack (add_pack.script.js) *)

Module AddPack.

(** The numbers of the engine are not modelled: [parseFloat], with [None]
    for [NaN], and the two comparisons of the range test are taken from
    outside. *)
Record Floats := {
  float : Type;
  parseFloat : string → option float;
  less_than_0 : float → bool;
  greater_than_1 : float → bool
}.

(** One [div.rarity-group]: its [data-index], of which the heading shows
    the successor ("Rarity Configuration 1" for index 0), and the values of
    its two inputs.  The inputs are of type [number]: their value is the text
    of a number or empty. *)
Record RarityGroup := {
  data_index : nat;
  rarityName_value : string;
  rarityProbability_value : string
}.

(** The page: the counter [rarityGroupIndex], the groups of
    [#raritiesContainer] in document order, the two fields of the form, the
    value that [addPackForm.reset()] gives to the name, and
    [#responseMessage]. *)
Record Page := {
  rarityGroupIndex : nat;
  raritiesContainer : list RarityGroup;
  packName_value : string;
  packName_defaultValue : string;
  packImage_file : option string;
  responseMessage_textContent : string;
  responseMessage_className : string
}.

Definition set_responseMessage (text class : string) (p : Page) : Page :=
  {| rarityGroupIndex := rarityGroupIndex p;
     raritiesContainer := raritiesContainer p;
     packName_value := packName_value p;
     packName_defaultValue := packName_defaultValue p;
     packImage_file := packImage_file p;
     responseMessage_textContent := text;
     responseMessage_className := class |}.

Definition addRarityConfiguration (p : Page) : Page :=
  {| rarityGroupIndex := S (rarityGroupIndex p);
     raritiesContainer :=
       raritiesContainer p
       ++ [{| data_index := rarityGroupIndex p;
              rarityName_value := "";
              rarityProbability_value := "" |}];
     packName_value := packName_value p;
     packName_defaultValue := packName_defaultValue p;
     packImage_file := packImage_file p;
     responseMessage_textContent := responseMessage_textContent p;
     responseMessage_className := responseMessage_className p |}.

(** The click on the [.removeRarityBtn] of the group at [position]. *)
Definition removeRarityBtn_click (position : nat) (p : Page) : Page :=
  {| rarityGroupIndex := rarityGroupIndex p;
     raritiesContainer := delete position (raritiesContainer p);
     packName_value := packName_value p;
     packName_defaultValue := packName_defaultValue p;
     packImage_file := packImage_file p;
     responseMessage_textContent := responseMessage_textContent p;
     responseMessage_className := responseMessage_className p |}.

(** The form data of the request: [pack_name], the object that is sent as
    the JSON text [rarities_config_str], and the image when one is
    selected. *)
Record FormData (F : Floats) := {
  pack_name : string;
  rarities_config : gmap string (float F);
  image_file : option string
}.
Arguments pack_name {F} _.
Arguments rarities_config {F} _.
Arguments image_file {F} _.

Definition invalid_probability (i : nat) : string :=
  "Invalid probability for Rarity " +:+ pretty (i + 1)%nat
  +:+ ". Must be a number between 0.0 and 1.0.".

(** The body of the [for] loop for the group at position [i]: the message
    of the test that stops the loop, or [raritiesConfig] with the entry of
    the group. *)
Definition check_group (F : Floats) (i : nat) (group : RarityGroup)
    (raritiesConfig : gmap string (float F)) : string + gmap string (float F) :=
  let rarityName := Js.trim (rarityName_value group) in
  let probabilityStr := Js.trim (rarityProbability_value group) in
  if String.eqb rarityName ""
  then inl ("Rarity Level Name for Rarity configuration " +:+ pretty (i + 1)%nat
            +:+ " cannot be empty.")
  else if String.eqb probabilityStr ""
  then inl ("Probability for Rarity " +:+ pretty (i + 1)%nat +:+ " cannot be empty.")
  else match parseFloat F probabilityStr with
       | None => inl (invalid_probability i)
       | Some probability =>
           if less_than_0 F probability || greater_than_1 F probability
           then inl (invalid_probability i)
           else if bool_decide (is_Some (raritiesConfig !! rarityName))
           then inl ("Duplicate Rarity Level Name: '" +:+ rarityName
                     +:+ "'. Each rarity name must be unique.")
           else inr (<[rarityName := probability]> raritiesConfig)
       end.

(** The [for] loop from position [i] on. *)
Fixpoint check_groups (F : Floats) (i : nat) (groups : list RarityGroup)
    (raritiesConfig : gmap string (float F)) : string + gmap string (float F) :=
  match groups with
  | [] => inr raritiesConfig
  | group :: rest =>
      match check_group F i group raritiesConfig with
      | inl message => inl message
      | inr raritiesConfig => check_groups F (S i) rest raritiesConfig
      end
  end.

(** The listener of [submit] up to [await fetch(..)]: the page and the
    form data of the request, [None] when the listener returns before. *)
Definition submit (F : Floats) (p : Page) : Page * option (FormData F) :=
  let p := set_responseMessage "" "" p in
  let packName := Js.trim (packName_value p) in
  if String.eqb packName ""
  then (set_responseMessage "Pack Name cannot be empty." "error" p, None)
  else
    match raritiesContainer p with
    | [] => (set_responseMessage "At least one rarity configuration is required." "error" p,
             None)
    | groups =>
        match check_groups F 0 groups ∅ with
        | inl message => (set_responseMessage message "error" p, None)
        | inr raritiesConfig =>
            (p, Some {| pack_name := packName;
                        rarities_config := raritiesConfig;
                        image_file := packImage_file p |})
        end
    end.

(** The members read from the body of the answer. *)
Record AddObject := {
  a_message : option string;
  a_pack_id : option string;
  a_detail : option AdminCards.Detail
}.

(** The form after a success: it is reset, the container is emptied, the
    counter is set to 0 and one group is added. *)
Definition reset_groups (p : Page) : Page :=
  addRarityConfiguration
    {| rarityGroupIndex := 0;
       raritiesContainer := [];
       packName_value := packName_defaultValue p;
       packName_defaultValue := packName_defaultValue p;
       packImage_file := None;
       responseMessage_textContent := responseMessage_textContent p;
       responseMessage_className := responseMessage_className p |}.

(** The listener of [submit] from the outcome of [await fetch(..)] on.  The
    body is read before the status is looked at. *)
Definition submit_resume (r : AdminCards.FetchResult AddObject) (p : Page) : Page :=
  let unexpected := "An unexpected error occurred. Check the console for details." in
  match r with
  | AdminCards.Rejected => set_responseMessage unexpected "error" p
  | AdminCards.Response status body =>
      let success (message pack_id : option string) :=
        reset_groups
          (set_responseMessage
             ("Success: " +:+ Js.or_undefined message
              +:+ " (Pack ID: " +:+ Js.or_undefined pack_id +:+ ")") "success" p) in
      let failure (detail : option AdminCards.Detail) :=
        set_responseMessage
          ("Error: " +:+ (if AdminCards.detail_truthy detail
                          then AdminCards.detail_text detail
                          else "Failed to add pack. Status: " +:+ pretty status))
          "error" p in
      match body with
      | AdminCards.NoBody | AdminCards.NotJson | AdminCards.JsonNull =>
          set_responseMessage unexpected "error" p
      | AdminCards.JsonPrimitive =>
          if AdminCards.ok status then success None None else failure None
      | AdminCards.JsonObject result =>
          if AdminCards.ok status
          then success (a_message result) (a_pack_id result)
          else failure (a_detail result)
      end
  end.

Definition edit (position : nat) (f : RarityGroup → RarityGroup) (p : Page) : Page :=
  {| rarityGroupIndex := rarityGroupIndex p;
     raritiesContainer := alter f position (raritiesContainer p);
     packName_value := packName_value p;
     packName_defaultValue := packName_defaultValue p;
     packImage_file := packImage_file p;
     responseMessage_textContent := responseMessage_textContent p;
     responseMessage_className := responseMessage_className p |}.

Inductive Event :=
  | addRarityBtn_clicked
  | removeRarityBtn_clicked (position : nat)
  | rarityName_input (position : nat) (v : string)
  | rarityProbability_input (position : nat) (v : string)
  | packName_input (v : string)
  | packImage_change (file : option string)
  | submitted
  | answered (r : AdminCards.FetchResult AddObject).

Definition step (F : Floats) (ev : Event) (p : Page) : Page :=
  match ev with
  | addRarityBtn_clicked => addRarityConfiguration p
  | removeRarityBtn_clicked position => removeRarityBtn_click position p
  | rarityName_input position v =>
      edit position (λ g, {| data_index := data_index g;
                             rarityName_value := v;
                             rarityProbability_value := rarityProbability_value g |}) p
  | rarityProbability_input position v =>
      edit position (λ g, {| data_index := data_index g;
                             rarityName_value := rarityName_value g;
                             rarityProbability_value := v |}) p
  | packName_input v =>
      {| rarityGroupIndex := rarityGroupIndex p;
         raritiesContainer := raritiesContainer p;
         packName_value := v;
         packName_defaultValue := packName_defaultValue p;
         packImage_file := packImage_file p;
         responseMessage_textContent := responseMessage_textContent p;
         responseMessage_className := responseMessage_className p |}
  | packImage_change file =>
      {| rarityGroupIndex := rarityGroupIndex p;
         raritiesContainer := raritiesContainer p;
         packName_value := packName_value p;
         packName_defaultValue := packName_defaultValue p;
         packImage_file := file;
         responseMessage_textContent := responseMessage_textContent p;
         responseMessage_className := responseMessage_className p |}
  | submitted => (submit F p).1
  | answered r => submit_resume r p
  end.

Definition run (F : Floats) (evs : list Event) (p : Page) : Page :=
  foldl (λ p ev, step F ev p) p evs.

(** The page when the listener of [DOMContentLoaded] has run: one group is
    there; [packName] is the value that the document gives to the name. *)
Definition loaded (packName : string) : Page :=
  addRarityConfiguration
    {| rarityGroupIndex := 0;
       raritiesContainer := [];
       packName_value := packName;
       packName_defaultValue := packName;
       packImage_file := None;
       responseMessage_textContent := "";
       responseMessage_className := "" |}.

End AddPack.

(** ** The update of a pack (admin.js) *)

Module AdminPacks.

(** The [name] that [showPackDetailsModal] gives to the input of the
    probability of a rarity, and to the input of the cards to add. *)
Definition probability_name (rarityName : string) : string :=
  "rarities." +:+ rarityName +:+ ".probability".
Definition cards_to_add_name (rarityName : string) : string :=
  "cards_to_add." +:+ rarityName.

(** [const [_, rarityName, property] = key.split('.')]: the second and the
    third element, [None] for [undefined]. *)
Definition rarityName_of (key : string) : option string := Js.split "." key !! 1%nat.
Definition property_of (key : string) : option string := Js.split "." key !! 2%nat.

(** [value.split(',').map(id => id.trim()).filter(id => id)]. *)
Definition ids_of (value : string) : list string :=
  filter (λ id, Js.truthy (Some id) = true) (Js.trim <$> Js.split "," value).

(** What the loop of [handlePackUpdate] makes of one entry of the form
    data: the rarity and the property that are set, to [parseFloat] of the
    value; the rarity of which the cards to add are set; or nothing. *)
Inductive Update :=
  | SetProperty (rarityName property : option string) (value : string)
  | SetCardsToAdd (rarityName : option string) (ids : list string)
  | Skip.

Definition update_of (key value : string) : Update :=
  if Js.startsWith "rarities." key
  then SetProperty (rarityName_of key) (property_of key) value
  else if Js.startsWith "cards_to_add." key
  then if Js.truthy (Some (Js.trim value))
       then SetCardsToAdd (rarityName_of key) (ids_of value)
       else Skip
  else Skip.

End AdminPacks.

(** ** The navigation bar and the protection of the pages (script.js) *)

Module Nav.

(** A child of [nav]: a link or a span, with its [id] when it has one. *)
Inductive Child :=
  | Anchor (id : option string) (href textContent : string)
  | Span (id : option string) (textContent : string).

Definition child_id (c : Child) : option string :=
  match c with
  | Anchor i _ _ => i
  | Span i _ => i
  end.

(** [document.getElementById(id)] followed by [remove()] when an element is
    found: the first element with the id goes.  The elements of the document
    that have an id are taken to be children of [nav]. *)
Fixpoint remove_by_id (i : string) (children : list Child) : list Child :=
  match children with
  | [] => []
  | c :: rest =>
      if decide (child_id c = Some i) then rest else c :: remove_by_id i rest
  end.

(** [updateNavUI(user)]: the user is given by the [email] member, [None]
    for [null]; [navLinks] is [None] when the document has no [nav]. *)
Definition updateNavUI (user : option (option string)) (navLinks : option (list Child))
  : option (list Child) :=
  match navLinks with
  | None => None
  | Some children =>
      let children := remove_by_id "auth-link" children in
      let children := remove_by_id "user-info" children in
      match user with
      | Some email =>
          Some (children
                ++ [ Span (Some "user-info") ("Logged in as: " +:+ Js.string_of email);
                     Anchor (Some "auth-link") "#" "Logout" ])
      | None =>
          Some (children ++ [Anchor (Some "auth-link") "login.html" "Login/Sign Up"])
      end
  end.

Definition protectedPages : list string := ["draw.html"; "collection.html"].

(** [window.location.pathname.split('/').pop()]. *)
Definition currentPage (pathname : string) : string :=
  default "" (last (Js.split "/" pathname)).

(** The callback of [onAuthStateChanged]: the children of [nav] and the
    address that [window.location.href] is set to, if it is set. *)
Definition auth_state_changed (pathname : string) (user : option (option string))
    (navLinks : option (list Child)) : option (list Child) * option string :=
  (updateNavUI user navLinks,
   match user with
   | None =>
       if bool_decide (currentPage pathname ∈ protectedPages)
       then Some "login.html" else None
   | Some _ =>
       if String.eqb (currentPage pathname) "login.html"
       then Some "index.html" else None
   end).

End Nav.

(** ** Notions used in the statements *)

Module Notions.
Import AdminCards.

(** The value of a hexadecimal digit. *)
Definition hex_value (c : ascii) : option N :=
  let n := Ascii.N_of_ascii c in
  if ((48 <=? n) && (n <=? 57))%N then Some (n - 48)%N
  else if ((65 <=? n) && (n <=? 70))%N then Some (n - 55)%N
  else if ((97 <=? n) && (n <=? 102))%N then Some (n - 87)%N
  else None.

(** The reading of a query-string value by the receiver: [+] is a space and
    [%XX] is the byte with that code. *)
Fixpoint form_urldecode (s : string) : string :=
  match s with
  | EmptyString => EmptyString
  | String c r =>
      if Ascii.eqb c "+" then String " " (form_urldecode r)
      else if Ascii.eqb c "%"
      then match r with
           | String h (String l r') =>
               match hex_value h, hex_value l with
               | Some a, Some b =>
                   String (Ascii.ascii_of_N (16 * a + b)) (form_urldecode r')
               | _, _ => String c (form_urldecode r)
               end
           | _ => String c (form_urldecode r)
           end
      else String c (form_urldecode r)
  end.

(** A name-value sequence cut at its first [=]; without one the value is
    empty. *)
Fixpoint cut_at (sep : ascii) (s : string) : string * string :=
  match s with
  | EmptyString => (EmptyString, EmptyString)
  | String c r =>
      if Ascii.eqb c sep then (EmptyString, r)
      else (String c (cut_at sep r).1, (cut_at sep r).2)
  end.

(** The reading of a query string by the receiver: the sequences between
    [&], the empty ones skipped, each cut at its first [=] and decoded. *)
Definition parse_query (s : string) : list (string * string) :=
  (λ part, (form_urldecode (cut_at "=" part).1, form_urldecode (cut_at "=" part).2))
    <$> filter (λ part, part ≠ "") (Js.split "&" s).

(** The card elements that a response adds to the area. *)
Definition elements_of (collectionName : option string) (cs : list Card) : list CardElement :=
  card_element collectionName <$> cs.

(** What [renderPaginationControls] leaves in both containers. *)
Definition controls_for (p : Pagination) : list PaginationNode :=
  if total_pages p <=? 0 then [] else pagination_nodes p.

(** A fetch that does not end with a 2xx response whose body is an object. *)
Definition fetch_failed (r : FetchResult CardsObject) : bool :=
  match r with
  | Response status (JsonObject _) => negb (ok status)
  | _ => true
  end.

(** [currentCollectionName] after the two look-ups at the start of
    [fetchAndDisplayCards]. *)
Definition resolved_vars (env : Env) (v : Vars) : Vars :=
  if negb (Js.truthy (currentCollectionName v)) && Js.truthy (location_collectionName env)
  then set_currentCollectionName (location_collectionName env) v
  else v.

(** [currentCollectionName] is set, or the address of the page has no
    collection name to offer: the look-up at the start of a fetch changes
    nothing. *)
Definition collection_resolved (env : Env) (v : Vars) : Prop :=
  Js.truthy (currentCollectionName v) = true ∨ Js.truthy (location_collectionName env) = false.

(** What it is for a listener to reset the page: the variable is 1 when the
    listener is done, and the request it sends asks for page 1. *)
Definition resets_page (listener : State → State * Started) (s : State) : Prop :=
  currentPage (vars (listener s).1) = 1
  ∧ ∀ req, (listener s).2 = Sent req →
      ∃ rest, req = GET (baseUrl +:+ "/cards?page=1&" +:+ rest).

(** The text that [fetchAndDisplayCards] puts into its message for a
    [detail]: a string as it is, another value as [JSON.stringify] writes
    it. *)
Definition detail_stringified (dt : Detail) : string :=
  match dt with
  | DetailString text => text
  | DetailOther _ json _ => json
  end.

(** The search query is not set, or it has text. *)
Definition search_settled (v : Vars) : Prop :=
  currentSearchQuery v = None ∨ has_text (currentSearchQuery v) = true.

(** An update that ends in the handler of its [try]: the request is
    rejected, the answer is not ok, or its body is not JSON. *)
Definition update_failed (r : FetchResult UpdateObject) : bool :=
  match r with
  | Rejected => true
  | Response status body =>
      negb (ok status) || match body with NoBody | NotJson => true | _ => false end
  end.


End Notions.

(** ** Links between the admin pages *)

Module AdminLinks.
Import Notions.

(** The query of the address that a link leads to: what stands behind the
    first [?].  It is what [window.location.search] gives, behind its [?],
    for an address without fragment. *)
Definition query_of (href : string) : string := (cut_at "?" href).2.

(** [new URLSearchParams(window.location.search).get(name)] on the page
    with that query. *)
Definition urlParams_get (name query : string) : option string :=
  snd <$> List.find (λ pair, String.eqb pair.1 name) (parse_query query).

(** The [id] member of a pack of the list: a string, [null], or missing. *)
Inductive PackId :=
  | IdText (text : string)
  | IdNull
  | IdMissing.

(** The text that [encodeURIComponent] has of it. *)
Definition id_text (pack_id : PackId) : string :=
  match pack_id with
  | IdText text => text
  | IdNull => "null"
  | IdMissing => "undefined"
  end.

(** The link of a pack in the list of the packs (view_packs.script.js,
    [displayPacks]). *)
Definition pack_href (pack_id : PackId) : string :=
  "pack_detail.html?id=" +:+ Js.encodeURIComponent (id_text pack_id).

(** The address that the button "View Cards" of a collection goes to
    (admin_collections.js, [displayCollections]). *)
Definition view_cards_href (collection_name : string) : string :=
  "view_cards.html?collectionName=" +:+ collection_name.

(** The elements that [fetchPackDetails] writes to (pack_detail.script.js). *)
Record PackDetailPage := {
  loadingMessage_display : string;
  errorMessage_display : string;
  errorMessage_textContent : string;
  packDetailContainer_innerHTML : string
}.

Definition API_BASE_URL : string := "http://localhost:8080/gacha/api/v1".

(** [fetchPackDetails] up to [await fetch(..)], on the page with the given
    query: the page and the address that is fetched, [None] when the function
    returns before. *)
Definition fetchPackDetails_start (query : string) (p : PackDetailPage)
  : PackDetailPage * option string :=
  let packId := urlParams_get "id" query in
  if Js.truthy packId
  then ({| loadingMessage_display := "block";
           errorMessage_display := "none";
           errorMessage_textContent := errorMessage_textContent p;
           packDetailContainer_innerHTML := "" |},
        Some (API_BASE_URL +:+ "/packs/" +:+ Js.encodeURIComponent (Js.or_empty packId)))
  else ({| loadingMessage_display := "none";
           errorMessage_display := "block";
           errorMessage_textContent := "No Pack ID specified in the URL.";
           packDetailContainer_innerHTML := "" |},
        None).

(** A name made of letters, digits, [-], [_] and [.]. *)
Fixpoint plain_name (s : string) : bool :=
  match s with
  | EmptyString => true
  | String c r => (Js.is_alphanumeric c || Js.char_in c "-_.") && plain_name r
  end.

End AdminLinks.

Module CollectionNotions.
Import Collection.

(** The rarity of the card makes a class name: it has no ASCII white
    space. *)
Definition class_rarity (card : Card) : bool :=
  negb (Js.has_ascii_whitespace (rarity card)).

(** The elements that the loop of [displayCollection] appends: those of the
    cards in front of the first one whose element is refused. *)
Fixpoint appended (cards : list Card) : list CardElement :=
  match cards with
  | [] => []
  | card :: rest =>
      match card_element card with
      | inl _ => []
      | inr element => element :: appended rest
      end
  end.

(** The quantities and the sums that [reduce] forms on its way are safe
    integers: the sum of the engine is the sum in [Z]. *)
Definition safe_sums (cards : list Card) : Prop :=
  Forall (λ card, Js.safe_integer (quantity card) = true) cards
  ∧ ∀ k, Js.safe_integer (foldr Z.add 0 (quantity <$> take k cards)) = true.

End CollectionNotions.

Module AdminCollectionsNotions.
Import AdminCollections.

(** The alerts that are shown, none without the container. *)
Definition shown (p : Page) : list Alert := default [] (alerts_container p).

(** The status of an answer when it is ok. *)
Definition answer_ok (r : AdminCards.FetchResult (option AdminCards.Detail)) : bool :=
  match r with
  | AdminCards.Response status _ => AdminCards.ok status
  | AdminCards.Rejected => false
  end.

End AdminCollectionsNotions.

Module UploadCardNotions.
Import UploadCard.

Definition entry_name (e : Entry) : string :=
  match e with
  | Text name _ => name
  | File name _ => name
  end.

(** An answer that the listener takes as a success. *)
Definition upload_accepted (r : AdminCards.FetchResult UploadObject) : bool :=
  match r with
  | AdminCards.Response status (AdminCards.JsonPrimitive | AdminCards.JsonObject _) =>
      AdminCards.ok status
  | _ => false
  end.

(** A form that is filled, with the collection and the image given. *)
Definition filled_form (collection : string) (image : option string) : Page :=
  {| fields := {| card_name := "Pikachu";
                  rarity := "Rare";
                  point_worth := "10";
                  quantity := "5";
                  date_got_in_stock := "2024-01-01";
                  collection_metadata_id := collection;
                  image_file := image |};
     defaults := {| card_name := "";
                    rarity := "";
                    point_worth := "";
                    quantity := "";
                    date_got_in_stock := "";
                    collection_metadata_id := "";
                    image_file := None |};
     message_textContent := "";
     message_className := "" |}.

End UploadCardNotions.

Module AddPackNotions.
Import AddPack.

Definition name_of (group : RarityGroup) : string := Js.trim (rarityName_value group).

(** A group that passes the tests on its own fields. *)
Definition group_ok (F : Floats) (group : RarityGroup) : Prop :=
  name_of group ≠ ""
  ∧ Js.trim (rarityProbability_value group) ≠ ""
  ∧ ∃ probability,
      parseFloat F (Js.trim (rarityProbability_value group)) = Some probability
      ∧ less_than_0 F probability = false
      ∧ greater_than_1 F probability = false.

(** A text that a number input can hold: digits, signs, a point and the
    mark of an exponent. *)
Fixpoint number_text (s : string) : bool :=
  match s with
  | EmptyString => true
  | String c r => Js.char_in c "0123456789+-.eE" && number_text r
  end.

Definition number_inputs (groups : list RarityGroup) : Prop :=
  Forall (λ group, number_text (rarityName_value group) = true
                   ∧ number_text (rarityProbability_value group) = true) groups.

(** The groups are numbered in document order, below the counter, and none
    has a number below its position. *)
Definition numbered (p : Page) : Prop :=
  (∀ i group, raritiesContainer p !! i = Some group →
     (i ≤ data_index group < rarityGroupIndex p)%nat)
  ∧ ∀ i j gi gj, (i < j)%nat →
      raritiesContainer p !! i = Some gi → raritiesContainer p !! j = Some gj →
      (data_index gi < data_index gj)%nat.

(** An answer that the listener takes as a success: the status is ok and
    the body is JSON other than [null]. *)
Definition accepted (r : AdminCards.FetchResult AddObject) : bool :=
  match r with
  | AdminCards.Response status (AdminCards.JsonPrimitive | AdminCards.JsonObject _) =>
      AdminCards.ok status
  | _ => false
  end.

(** A stand-in for the numbers of the engine that reads whole numbers
    only. *)
Definition whole_numbers : Floats :=
  {| float := Z;
     parseFloat := λ s, Js.parseInt s (Some 10);
     less_than_0 := λ z, z <? 0;
     greater_than_1 := λ z, 1 <? z |}.

(** The page with a name for the pack and the groups given by their two
    values, numbered from 0. *)
Definition filled (name : string) (values : list (string * string)) : Page :=
  {| rarityGroupIndex := length values;
     raritiesContainer :=
       imap (λ i v, {| data_index := i;
                       rarityName_value := v.1;
                       rarityProbability_value := v.2 |}) values;
     packName_value := name;
     packName_defaultValue := "";
     packImage_file := None;
     responseMessage_textContent := "";
     responseMessage_className := "" |}.

(** The probability that the form data holds for a group. *)
Definition probability_of (F : Floats) (group : RarityGroup) : option (float F) :=
  parseFloat F (Js.trim (rarityProbability_value group)).

End AddPackNotions.

Module AdminPacksNotions.
Import AdminPacks.

(** [ids.join(', ')], the form that the placeholder of the input shows. *)
Definition joined (ids : list string) : string := Js.join ", " ids.

(** An id as it can be typed into the list: not empty, without a comma and
    without white space at its ends. *)
Definition typed_id (i : string) : Prop :=
  i ≠ "" ∧ Js.char_in "," i = false ∧ Js.trim i = i.

End AdminPacksNotions.

Module NavNotions.
Import Nav.

(** No child has one of the two ids that [updateNavUI] gives. *)
Definition plain (children : list Child) : Prop :=
  Forall (λ c, child_id c ≠ Some "auth-link" ∧ child_id c ≠ Some "user-info") children.

(** What [updateNavUI] appends for a user. *)
Definition auth_children (user : option (option string)) : list Child :=
  match user with
  | Some email =>
      [ Span (Some "user-info") ("Logged in as: " +:+ Js.string_of email);
        Anchor (Some "auth-link") "#" "Logout" ]
  | None => [Anchor (Some "auth-link") "login.html" "Login/Sign Up"]
  end.

(** The address of the page [page] in the directory of [pathname]: what a
    relative address resolves to. *)
Definition beside (directory page : string) : string :=
  directory +:+ String "/" page.

End NavNotions.

(** ** Sample sessions *)

Module Samples.
Import AdminCards.

(** A page on which no other script defines [parseUrlParams] and whose
    address carries no [collectionName]. *)
Definition plain_env : Env :=
  {| location_collectionName := None;
     parseUrlParams := λ _, None;
     message := λ e,
       match e with
       | Js.TypeError_fetch_failed => "Failed to fetch"
       | Js.SyntaxError_json => "Unexpected token"
       | Js.TypeError_body_used => "body stream already read"
       | Js.TypeError_null_property _ => "Cannot read properties of null"
       | Js.TypeError_not_a_function _ => "is not a function"
       | Js.InvalidCharacterError _ => "The token provided contains invalid characters"
       | Js.SyntaxError_selector => "not a valid selector"
       | Js.ReferenceError_not_defined _ => "is not defined"
       | Js.TypeError_const_assignment _ => "Assignment to constant variable."
       end |}.

(** The document as served, with the collection name typed in. *)
Definition served (collectionName : string) : Dom :=
  {| cardDisplayArea_innerHTML := "";
     cardDisplayArea := [];
     loadingMessage_display := "none";
     errorMessage_textContent := "";
     errorMessage_display := "none";
     clearSearchButton_display := "none";
     paginationControlsTop := [];
     paginationControlsBottom := [];
     controls := {| collectionNameInput := collectionName;
                    searchInput := "";
                    sortBySelect := "point_worth";
                    sortOrderSelect := "desc";
                    perPageSelect := "10" |};
     alerts := [] |}.


(** The text with the given bytes. *)
Definition bytes (codes : list N) : string :=
  foldr (λ code text, String (Ascii.ascii_of_N code) text) "" codes.

(** U+00A0, the no-break space, and U+3000, the ideographic space. *)
Definition no_break_space : string := bytes [194; 160]%N.
Definition ideographic_space : string := bytes [227; 128; 128]%N.

(** A card with the given id, rarity and quantity. *)
Definition rare_card (i r : string) (q : Z) : Card :=
  {| id := i;
     card_name := "Pikachu";
     rarity := r;
     point_worth := 10;
     quantity := q;
     date_got_in_stock := "2024-01-01";
     image_url := None |}.

(** A card with the given id and quantity. *)
Definition card (i : string) (q : Z) : Card :=
  {| id := i;
     card_name := "Pikachu";
     rarity := "Rare";
     point_worth := 10;
     quantity := q;
     date_got_in_stock := "2024-01-01";
     image_url := None |}.

(** A 2xx answer for page [n] of 3 with the given cards. *)
Definition page_of (n : Z) (cs : list Card) : FetchResult CardsObject :=
  Response 200 (JsonObject {| detail := None;
                              cards := Some cs;
                              pagination := Some {| total_pages := 3; current_page := n |} |}).

(** A session in which two fetches overlap: the first page is shown, the
    sort order is changed (fetch A, page 1), "Next" of the controls that are
    still shown is clicked before A is answered (fetch B, page 2), then B is
    answered, then A. *)
Definition overlap_issued : World :=
  run plain_env
    [ cards_arrived 0 (page_of 1 [card "a" 1]);
      sortOrderSelect_select "asc";
      paginationTop_clicked 2 ]
    (loaded plain_env (served "pokemon")).

(** The two answers of the overlap, that of B before that of A. *)
Definition overlap_answered : World :=
  run plain_env
    [ cards_arrived 1 (page_of 2 [card "c" 3]);
      cards_arrived 0 (page_of 1 [card "b" 2]) ]
    overlap_issued.

(** The admin browser with two cards on display, after a click on "-1" of
    the first. *)
Definition minus_pending : World :=
  run plain_env
    [ cards_arrived 0 (page_of 1 [card "c1" 5; card "c2" 7]);
      minus_clicked 0 ]
    (loaded plain_env (served "pokemon")).


(** The collection view before its first fetch. *)
Definition empty_page : Collection.Page :=
  {| Collection.currentCards := [];
     Collection.currentCollectionName := None;
     Collection.my_cards_area_html := "";
     Collection.my_cards_area := [];
     Collection.total_cards := "0";
     Collection.unique_cards := "0";
     Collection.modal_show := false;
     Collection.alerts := [] |}.



End Samples.

(** ** Properties of the primitives *)

Module JsFacts.
Import Notions.

(** A value written into the query string by [URLSearchParams] is read back
    as it was. *)
Lemma form_urlencode_decodes (s : string) :
  form_urldecode (Js.form_urlencode s) = s.
Proof.
  induction s as [|c s IH]; [done|].
  destruct c as [[] [] [] [] [] [] [] []]; simpl; by rewrite IH.
Qed.

End JsFacts.

(** ** Properties of the user collection view *)

Module CollectionFacts.
Import Collection CollectionNotions.

Example displayCollection_sample :
  let p := (displayCollection
              (Some [Samples.card "a" 2; Samples.card "b" 3; Samples.card "a" 4])
              Samples.empty_page).1 in
  total_cards p = "9" ∧ unique_cards p = "2" ∧ length (my_cards_area p) = 3%nat.
Proof. vm_compute. done. Qed.

Lemma has_ascii_whitespace_app (a b : string) :
  Js.has_ascii_whitespace (a +:+ b) = Js.has_ascii_whitespace a || Js.has_ascii_whitespace b.
Proof.
  induction a as [|c a IH]; [done|].
  change (String c a +:+ b) with (String c (a +:+ b)).
  cbn [Js.has_ascii_whitespace]. by rewrite IH, orb_assoc.
Qed.

Lemma has_ascii_whitespace_lower_char (c : ascii) :
  Js.is_ascii_whitespace (Js.lower_char c) = Js.is_ascii_whitespace c.
Proof. by destruct c as [[] [] [] [] [] [] [] []]. Qed.

(** Lower case neither makes nor takes white space. *)
Lemma has_ascii_whitespace_toLowerCase (s : string) :
  Js.has_ascii_whitespace (Js.toLowerCase s) = Js.has_ascii_whitespace s.
Proof.
  induction s as [|c s IH]; [done|].
  cbn [Js.toLowerCase Js.has_ascii_whitespace].
  by rewrite has_ascii_whitespace_lower_char, IH.
Qed.

Lemma class_token_refused (card : Card) :
  Js.has_ascii_whitespace ("rarity-" +:+ Js.toLowerCase (rarity card))
  = negb (class_rarity card).
Proof.
  unfold class_rarity.
  by rewrite has_ascii_whitespace_app, has_ascii_whitespace_toLowerCase, negb_involutive.
Qed.

(** The element of a card is built exactly when its rarity makes a class. *)
Lemma card_element_built (card : Card) :
  class_rarity card = true →
  ∃ element, card_element card = inr element
             ∧ quantity_text element = "Quantity: " +:+ pretty (quantity card).
Proof.
  intros Hc. unfold card_element, Js.classList_add.
  rewrite class_token_refused, Hc. cbn [negb]. by eexists.
Qed.

Lemma card_element_refused (card : Card) :
  class_rarity card = false →
  card_element card
  = inl (Js.InvalidCharacterError ("rarity-" +:+ Js.toLowerCase (rarity card))).
Proof.
  intros Hc. unfold card_element, Js.classList_add.
  by rewrite class_token_refused, Hc.
Qed.

(** The loop over cards whose rarities make classes runs to its end. *)
Lemma forEach_completes (cs : list Card) (ids : gset string) (area : list CardElement) :
  Forall (λ card, class_rarity card = true) cs →
  displayCollection_forEach cs ids area
  = (list_to_set (id <$> cs) ∪ ids, area ++ appended cs, None)
  ∧ length (appended cs) = length cs.
Proof.
  intros Hcs. revert ids area.
  induction Hcs as [|c cs Hc Hcs IH]; intros ids area.
  - csimpl. by rewrite union_empty_l_L, app_nil_r.
  - destruct (card_element_built c Hc) as (element & He & _).
    cbn [displayCollection_forEach appended]. rewrite He.
    destruct (IH ({[id c]} ∪ ids) (area ++ [element])) as [-> Hlen].
    csimpl. rewrite Hlen. split; [|done].
    do 2 f_equal.
    + by rewrite (assoc_L (∪)), (comm_L (∪) (list_to_set _)).
    + by rewrite <- app_assoc.
Qed.

(** The loop ends at the first card whose rarity makes no class: the
    elements of the cards in front of it are in the area. *)
Lemma forEach_stops (cs : list Card) (ids : gset string) (area : list CardElement) :
  Exists (λ card, class_rarity card = false) cs →
  (∃ ids' e, displayCollection_forEach cs ids area = (ids', area ++ appended cs, Some e))
  ∧ (length (appended cs) < length cs)%nat.
Proof.
  intros Hcs. revert ids area.
  induction cs as [|c cs IH]; intros ids area; [by apply Exists_nil in Hcs|].
  cbn [displayCollection_forEach appended].
  destruct (class_rarity c) eqn:Hc.
  - destruct (card_element_built c Hc) as (element & He & _). rewrite He.
    apply Exists_cons in Hcs as [Hcs | Hcs]; [congruence|].
    destruct (IH Hcs ({[id c]} ∪ ids) (area ++ [element])) as [(ids' & e & ->) Hlen].
    split; [|cbn [length]; lia].
    exists ids', e. by rewrite <- app_assoc.
  - rewrite (card_element_refused c Hc). split; [|cbn [length]; lia].
    eexists _, _. by rewrite app_nil_r.
Qed.

Lemma size_list_to_set_remove_dups (l : list string) :
  size (list_to_set l : gset string) = length (remove_dups l).
Proof.
  rewrite <- (size_list_to_set (C := gset string) (remove_dups l))
    by apply NoDup_remove_dups.
  f_equal. apply set_eq. intros x.
  by rewrite !elem_of_list_to_set, elem_of_remove_dups.
Qed.

Lemma reduce_quantity_sum (cs : list Card) :
  reduce_quantity cs = foldr Z.add 0 (quantity <$> cs).
Proof.
  unfold reduce_quantity.
  assert (H : ∀ acc, foldl (λ sum card, sum + quantity card) acc cs
                     = acc + foldr Z.add 0 (quantity <$> cs)).
  { induction cs as [|c cs IH]; intros acc; csimpl; [lia|]. rewrite IH. lia. }
  rewrite H. lia.
Qed.

(** For a list whose rarities make classes and whose quantities add up
    within the safe integers, [displayCollection] runs to its end and writes
    to the "total cards" counter the sum of the [quantity] fields and to the
    "unique cards" counter the number of distinct [id] values; the area holds
    one element for each card. *)
Lemma displayCollection_counters (cs : list Card) (p : Page) :
  Forall (λ card, class_rarity card = true) cs →
  safe_sums cs →
  let out := displayCollection (Some cs) p in
  out.2 = None
  ∧ total_cards out.1 = pretty (foldr Z.add 0 (quantity <$> cs))
  ∧ unique_cards out.1 = pretty (length (remove_dups (id <$> cs)))
  ∧ my_cards_area out.1 = appended cs
  ∧ length (my_cards_area out.1) = length cs
  ∧ currentCards out.1 = currentCards p
  ∧ alerts out.1 = alerts p.
Proof.
  intros Hcs _ out. subst out.
  destruct cs as [|c cs]; [by vm_compute|].
  unfold displayCollection.
  destruct (forEach_completes (c :: cs) ∅ [] Hcs) as [-> Hlen].
  cbn [fst snd total_cards unique_cards my_cards_area currentCards alerts app].
  rewrite union_empty_r_L, reduce_quantity_sum, size_list_to_set_remove_dups.
  done.
Qed.

(** A missing list and the empty one show 0 in both counters. *)
Lemma displayCollection_empty (p : Page) :
  let missing := displayCollection None p in
  let empty := displayCollection (Some []) p in
  missing.2 = None ∧ total_cards missing.1 = "0" ∧ unique_cards missing.1 = "0"
  ∧ empty.2 = None ∧ total_cards empty.1 = "0" ∧ unique_cards empty.1 = "0".
Proof. done. Qed.

(** With a card whose rarity makes no class, [displayCollection] ends with
    the exception of [classList.add]: the counters are not written. *)
Lemma displayCollection_stops (cs : list Card) (p : Page) :
  Exists (λ card, class_rarity card = false) cs →
  let out := displayCollection (Some cs) p in
  (∃ e, out.2 = Some e)
  ∧ total_cards out.1 = total_cards p
  ∧ unique_cards out.1 = unique_cards p
  ∧ my_cards_area out.1 = appended cs
  ∧ (length (my_cards_area out.1) < length cs)%nat
  ∧ currentCards out.1 = currentCards p
  ∧ alerts out.1 = alerts p.
Proof.
  intros Hcs out. subst out.
  destruct cs as [|c cs]; [by apply Exists_nil in Hcs|].
  unfold displayCollection.
  destruct (forEach_stops (c :: cs) ∅ [] Hcs) as [(ids' & e & ->) Hlen].
  cbn [fst snd total_cards unique_cards my_cards_area currentCards alerts app].
  split_and!; try done. by exists e.
Qed.

(** C9.  When the list that is fetched has a card whose rarity holds ASCII
    white space, the view does not show the counters of the list: the loop of
    [displayCollection] ends at that card with the exception of
    [classList.add], before the counters are written.  Both counters keep
    what they showed, the area holds the elements of the cards in front of
    that card only, and the handler of [fetchCards] reports that the cards
    could not be loaded. *)
Theorem rarity_with_space_stops_counters (cards : list Card) (p : Page) :
  Exists (λ card, class_rarity card = false) cards →
  let p' := fetchCards_resume (Ok cards) p in
  total_cards p' = total_cards p
  ∧ unique_cards p' = unique_cards p
  ∧ currentCards p' = cards
  ∧ my_cards_area p' = appended cards
  ∧ (length (my_cards_area p') < length cards)%nat
  ∧ alerts p' = alerts p ++ ["Failed to load cards. Please try again later."].
Proof.
  intros Hcards p'. subst p'. unfold fetchCards_resume.
  destruct (displayCollection_stops cards (set_currentCards cards p) Hcards)
    as ([e He] & Htotal & Hunique & Harea & Hlen & Hcur & Halerts).
  destruct (displayCollection (Some cards) (set_currentCards cards p)) as [p1 thrown].
  cbn [fst snd] in *. subst thrown.
  unfold displayError, alert.
  cbn [total_cards unique_cards currentCards my_cards_area alerts].
  rewrite Harea in Hlen. rewrite Htotal, Hunique, Hcur, Harea, Halerts.
  by split_and!.
Qed.

Lemma rarity_with_space_stops_counters_witness :
  let cards := [Samples.card "c1" 5; Samples.rare_card "c2" "Ultra Rare" 2] in
  let p' := fetchCards_resume (Ok cards) Samples.empty_page in
  total_cards p' = total_cards Samples.empty_page
  ∧ unique_cards p' = unique_cards Samples.empty_page
  ∧ currentCards p' = cards
  ∧ my_cards_area p' = appended cards
  ∧ (length (my_cards_area p') < length cards)%nat
  ∧ alerts p' = alerts Samples.empty_page
               ++ ["Failed to load cards. Please try again later."].
Proof.
  apply (rarity_with_space_stops_counters
           [Samples.card "c1" 5; Samples.rare_card "c2" "Ultra Rare" 2]
           Samples.empty_page).
  apply Exists_cons_tl, Exists_cons_hd. reflexivity.
Defined.

(** The list with the cards c1 (5 of them) and c2 (2 of them, of the rarity
    "Ultra Rare"): the counters stay at 0, where the sum is 7 and the ids are
    two, and one card is on display. *)
Example ultra_rare_counters :
  let cards := [Samples.card "c1" 5; Samples.rare_card "c2" "Ultra Rare" 2] in
  let p' := fetchCards_resume (Ok cards) Samples.empty_page in
  total_cards p' = "0" ∧ unique_cards p' = "0"
  ∧ length (my_cards_area p') = 1%nat
  ∧ alerts p' = ["Failed to load cards. Please try again later."]
  ∧ pretty (foldr Z.add 0 (quantity <$> cards)) = "7"
  ∧ pretty (length (remove_dups (id <$> cards))) = "2".
Proof. vm_compute. done. Qed.

Lemma findIndex_Some (cardId : string) (cards : list Card) (k : nat) :
  findIndex (Some cardId) cards = Some k ↔
  (∃ c, cards !! k = Some c ∧ id c = cardId)
  ∧ ∀ j c, (j < k)%nat → cards !! j = Some c → id c ≠ cardId.
Proof.
  revert k. induction cards as [|c cards IH]; intros k; simpl.
  - split; [done|]. by intros [[c [? _]] _].
  - unfold strict_equal. destruct (String.eqb_spec (id c) cardId) as [Heq|Hne].
    + split.
      * intros [= <-]. split; [by exists c|]. intros j c' Hj. lia.
      * intros [_ Hfirst]. destruct k as [|k]; [done|].
        by destruct (Hfirst 0%nat c ltac:(lia) eq_refl).
    + split.
      * intros Hk. apply fmap_Some in Hk as [k' [Hk' ->]].
        apply IH in Hk' as [[c' [Hat Hid]] Hfirst].
        split; [by exists c'|].
        intros [|j] c'' Hj Hc''; simplify_eq/=; [done|].
        apply (Hfirst j c''); [lia|done].
      * intros [[c' [Hat Hid]] Hfirst].
        destruct k as [|k]; simplify_eq/=.
        apply fmap_Some. exists k. split; [|done].
        apply IH. split; [by exists c'|].
        intros j c'' Hj Hc''. apply (Hfirst (S j) c''); [lia|done].
Qed.


Lemma findIndex_null (cards : list Card) : findIndex None cards = None.
Proof. induction cards as [|c cards IH]; csimpl; [done|]. by rewrite IH. Qed.

(** The merge of [updateCard], for form data that has the id of a card of
    the array: the record at the index of the first card with that id is
    replaced by the record of the server and, when the rarities of the new
    array make classes, the collection is rendered again from the array. *)
Lemma updateCard_in_place (formData : FormData) (updatedCard : Card) (p : Page) (k : nat) :
  findIndex (formData !! "card-id") (currentCards p) = Some k →
  Forall (λ card, class_rarity card = true) (<[k := updatedCard]> (currentCards p)) →
  let p' := updateCard_resume formData (Ok updatedCard) p in
  currentCards p' = <[k := updatedCard]> (currentCards p)
  ∧ my_cards_area p' = appended (currentCards p')
  ∧ length (my_cards_area p') = length (currentCards p)
  ∧ alerts p' = alerts p ++ ["Card updated successfully!"].
Proof.
  intros Hk Hclasses p'. subst p'. unfold updateCard_resume. rewrite Hk.
  destruct (formData !! "card-id") as [cardId|]; [|by rewrite findIndex_null in Hk].
  apply findIndex_Some in Hk as [[c [Hc _]] _].
  set (cards := <[k := updatedCard]> (currentCards p)) in *.
  assert (Hsafe : ∃ c0 cs0, cards = c0 :: cs0).
  { destruct cards as [|c0 cs0] eqn:Hcards; [|by eexists _, _].
    apply (f_equal length) in Hcards. unfold cards in Hcards.
    rewrite length_insert in Hcards. apply lookup_lt_Some in Hc. simpl in Hcards. lia. }
  destruct Hsafe as (c0 & cs0 & Hcards).
  unfold displayCollection. rewrite Hcards. rewrite Hcards in Hclasses.
  destruct (forEach_completes (c0 :: cs0) ∅ [] Hclasses) as [-> Hlen].
  unfold displaySuccess, alert, closeModal.
  cbn [currentCards my_cards_area alerts set_currentCards app].
  rewrite Hlen, <- Hcards. unfold cards. by rewrite length_insert.
Qed.


(** X29.  The edit form of the collection view updates no card.  Its controls
    have no name, so that the form data has no entry, whatever the controls
    hold: the request goes to the card "null", with [null] for every member,
    and the answer, whatever it is, changes neither the array nor what is
    displayed.  An ok answer that parses is reported as a success. *)
Theorem edit_form_updates_no_card (form : EditForm) (r : Outcome Card) (p : Page) :
  let p' := editForm_answered form r p in
  editForm_submit form
  = PUT "http://localhost:8080/gacha/api/v1/storage/cards/null"
      {| b_card_name := None;
         b_rarity := None;
         b_point_worth := None;
         b_quantity := None;
         b_date_got_in_stock := None |}
  ∧ currentCards p' = currentCards p
  ∧ my_cards_area p' = my_cards_area p
  ∧ my_cards_area_html p' = my_cards_area_html p
  ∧ total_cards p' = total_cards p
  ∧ unique_cards p' = unique_cards p
  ∧ alerts p'
    = alerts p ++ [match r with
                   | Ok _ => "Card updated successfully!"
                   | _ => "Failed to update card. Please try again."
                   end].
Proof.
  intros p'. subst p'. split; [by vm_compute|].
  unfold editForm_answered, editForm_FormData, updateCard_resume.
  rewrite lookup_empty, findIndex_null. by destruct r.
Qed.

End CollectionFacts.

(** ** Properties of the admin card browser *)

Module AdminCardsFacts.
Import AdminCards Notions Samples.

Lemma foldl_append_cards (cs : list Card) (s : State) :
  foldl (λ s card,
           with_dom (λ d, set_area (cardDisplayArea_innerHTML d)
                            (cardDisplayArea d
                             ++ [card_element (currentCollectionName (vars s)) card]) d) s)
        s cs
  = with_dom (λ d, set_area (cardDisplayArea_innerHTML d)
                     (cardDisplayArea d ++ elements_of (currentCollectionName (vars s)) cs) d) s.
Proof.
  revert s. induction cs as [|c cs IH]; intros [v d]; simpl.
  - unfold with_dom, set_area; simpl. rewrite app_nil_r. by destruct d.
  - rewrite IH. unfold with_dom, set_area, elements_of; simpl.
    by rewrite <- app_assoc.
Qed.

Lemma renderPaginationControls_top (p : Pagination) (d : Dom) :
  paginationControlsTop (renderPaginationControls (Some p) d) = controls_for p.
Proof. unfold renderPaginationControls, controls_for. by destruct (total_pages p <=? 0). Qed.

Lemma renderPaginationControls_bottom (p : Pagination) (d : Dom) :
  paginationControlsBottom (renderPaginationControls (Some p) d) = controls_for p.
Proof. unfold renderPaginationControls, controls_for. by destruct (total_pages p <=? 0). Qed.

Lemma renderPaginationControls_area (o : option Pagination) (d : Dom) :
  cardDisplayArea (renderPaginationControls o d) = cardDisplayArea d
  ∧ cardDisplayArea_innerHTML (renderPaginationControls o d) = cardDisplayArea_innerHTML d.
Proof.
  unfold renderPaginationControls.
  destruct o as [p|]; [destruct (total_pages p <=? 0)|]; done.
Qed.

(** A 2xx response with a filled [cards] array and pagination data, rendered
    on any state. *)
Lemma render_result_cards (o : CardsObject) (c : Card) (cs : list Card) (p : Pagination)
    (s : State) :
  cards o = Some (c :: cs) →
  pagination o = Some p →
  let s' := render_result o s in
  cardDisplayArea (dom s')
  = cardDisplayArea (dom s) ++ elements_of (currentCollectionName (vars s)) (c :: cs)
  ∧ cardDisplayArea_innerHTML (dom s') = cardDisplayArea_innerHTML (dom s)
  ∧ paginationControlsTop (dom s') = controls_for p
  ∧ paginationControlsBottom (dom s') = controls_for p
  ∧ vars s' = set_totalPages (total_pages p) (vars s).
Proof.
  intros Hcards Hpag. unfold render_result. rewrite Hcards, Hpag.
  rewrite (foldl_append_cards (c :: cs)).
  destruct s as [v d]; simpl.
  split_and!; try done;
    try (unfold controls_for; by destruct (total_pages p <=? 0)).
  destruct (Z.eqb_spec (total_pages p) 0) as [E|E]; [by rewrite E|done].
Qed.

(** The answer to a pending request of [fetchAndDisplayCards] is handed to
    the rest of that call, whichever request of the list it answers. *)
Lemma step_cards_arrived (env : Env) (w : World) (index : nat) (req : Request)
    (r : FetchResult CardsObject) :
  pending w !! index = Some {| request := req; continuation := fetchAndDisplayCards_k |} →
  step env (cards_arrived index r) w
  = {| state := fetchAndDisplayCards_resume env r (state w);
       pending := delete index (pending w);
       uncaught := uncaught w |}.
Proof. intros H. unfold step. by rewrite H. Qed.

Lemma resume_ok_object (env : Env) (status : Z) (o : CardsObject) (s : State) :
  ok status = true →
  fetchAndDisplayCards_resume env (Response status (JsonObject o)) s
  = render_result o (with_dom (set_loadingMessage_display "none") s).
Proof. intros Hok. unfold fetchAndDisplayCards_resume. by rewrite Hok. Qed.

Lemma displayError_clears (message : string) (d : Dom) :
  let d' := displayError message d in
  cardDisplayArea d' = []
  ∧ cardDisplayArea_innerHTML d' = ""
  ∧ errorMessage_display d' = "block"
  ∧ errorMessage_textContent d' = message
  ∧ paginationControlsTop d' = []
  ∧ paginationControlsBottom d' = [].
Proof. done. Qed.

Lemma resume_failed (env : Env) (r : FetchResult CardsObject) (s : State) :
  fetch_failed r = true →
  ∃ text,
    dom (fetchAndDisplayCards_resume env r s) = displayError text (dom s)
    ∨ dom (fetchAndDisplayCards_resume env r s)
      = set_controls (controls (dom (updateActiveControls s)))
          (displayError text (dom s)).
Proof.
  intros Hf. unfold fetchAndDisplayCards_resume.
  destruct r as [|status body].
  { exists ("Failed to load cards. " +:+ message env Js.TypeError_fetch_failed). by left. }
  destruct (ok status) eqn:Hok; cbn [negb].
  - destruct body as [| | | |o].
    + exists ("Failed to load cards. " +:+ message env Js.SyntaxError_json). by left.
    + exists ("Failed to load cards. " +:+ message env Js.SyntaxError_json). by left.
    + exists "Invalid data structure received from server.". by right.
    + exists "Invalid data structure received from server.". by right.
    + simpl in Hf. by rewrite Hok in Hf.
  - destruct (errorMsg status body) as [e|text].
    + exists ("Failed to load cards. " +:+ message env e). by left.
    + exists ("Failed to load cards. " +:+ text). by left.
Qed.

Lemma resume_failed_vars (env : Env) (r : FetchResult CardsObject) (s : State) :
  fetch_failed r = true → vars (fetchAndDisplayCards_resume env r s) = vars s.
Proof.
  intros Hf. unfold fetchAndDisplayCards_resume.
  destruct r as [|status body]; [done|].
  destruct (ok status) eqn:Hok; simpl.
  - destruct body; simpl in Hf; try done. by rewrite Hok in Hf.
  - by destruct (errorMsg status body).
Qed.

(** *** Overlapping fetches *)

(** C1, counterexample.  Fetch A (page 1) and then fetch B (page 2) are
    pending together; B is answered first and A last.  The page that is
    requested last is 2, yet the controls read "Page 1 of 3" and the cards of
    A stand in the area, after those of B. *)
Lemma overlap_shows_stale_page :
  request <$> pending overlap_issued
  = [ GET (baseUrl +:+ "/cards?page=1&per_page=10&sort_by=point_worth"
                   +:+ "&sort_order=asc&collectionName=pokemon");
      GET (baseUrl +:+ "/cards?page=2&per_page=10&sort_by=point_worth"
                   +:+ "&sort_order=asc&collectionName=pokemon") ]
  ∧ currentPage (vars (state overlap_answered)) = 2
  ∧ paginationControlsTop (dom (state overlap_answered))
    = [Button "Previous" 0 true; PageInfo "Page 1 of 3"; Button "Next" 2 false]
  ∧ data_card_id <$> cardDisplayArea (dom (state overlap_answered)) = ["c"; "b"]
  ∧ cardDisplayArea (dom (state overlap_answered))
    ≠ elements_of (Some "pokemon") [card "c" 3].
Proof. vm_compute. split_and!; done. Qed.

(** C1, as amended.  The answer to a request of [fetchAndDisplayCards] is
    applied when it arrives, whichever pending request it answers and
    whatever the request parameters are by then: a 2xx answer with a filled
    [cards] array and pagination data appends its cards to the card area and
    puts its own pagination data into the controls; of the variables only
    [totalPages] changes. *)
Theorem response_applied_on_arrival (env : Env) (w : World) (index : nat) (req : Request)
    (status : Z) (o : CardsObject) (c : Card) (cs : list Card) (p : Pagination) :
  pending w !! index = Some {| request := req; continuation := fetchAndDisplayCards_k |} →
  ok status = true →
  cards o = Some (c :: cs) →
  pagination o = Some p →
  let w' := step env (cards_arrived index (Response status (JsonObject o))) w in
  cardDisplayArea (dom (state w'))
  = cardDisplayArea (dom (state w))
    ++ elements_of (currentCollectionName (vars (state w))) (c :: cs)
  ∧ paginationControlsTop (dom (state w')) = controls_for p
  ∧ paginationControlsBottom (dom (state w')) = controls_for p
  ∧ vars (state w') = set_totalPages (total_pages p) (vars (state w))
  ∧ pending w' = delete index (pending w).
Proof.
  intros Hpending Hok Hcards Hpag w'. subst w'.
  rewrite (step_cards_arrived _ _ _ _ _ Hpending). cbn [state pending].
  rewrite (resume_ok_object _ _ _ _ Hok).
  destruct (render_result_cards o c cs p
              (with_dom (set_loadingMessage_display "none") (state w)) Hcards Hpag)
    as (Harea & _ & Htop & Hbottom & Hvars).
  by rewrite Harea, Htop, Hbottom, Hvars.
Qed.

Lemma response_applied_on_arrival_witness :
  let w' := step plain_env (cards_arrived 0 (page_of 1 [card "b" 2]))
              (step plain_env (cards_arrived 1 (page_of 2 [card "c" 3])) overlap_issued) in
  cardDisplayArea (dom (state w'))
  = elements_of (Some "pokemon") [card "c" 3] ++ elements_of (Some "pokemon") [card "b" 2]
  ∧ paginationControlsTop (dom (state w'))
    = controls_for {| total_pages := 3; current_page := 1 |}
  ∧ paginationControlsBottom (dom (state w'))
    = controls_for {| total_pages := 3; current_page := 1 |}
  ∧ vars (state w')
    = set_totalPages 3
        (vars (state (step plain_env (cards_arrived 1 (page_of 2 [card "c" 3]))
                        overlap_issued)))
  ∧ pending w' = [].
Proof.
  apply (response_applied_on_arrival plain_env
           (step plain_env (cards_arrived 1 (page_of 2 [card "c" 3])) overlap_issued)
           0
           (GET (baseUrl +:+ "/cards?page=1&per_page=10&sort_by=point_worth"
                         +:+ "&sort_order=asc&collectionName=pokemon"))
           200
           {| detail := None;
              cards := Some [card "b" 2];
              pagination := Some {| total_pages := 3; current_page := 1 |} |}
           (card "b" 2) []
           {| total_pages := 3; current_page := 1 |});
    vm_compute; reflexivity.
Defined.

(** *** Failed fetches *)

(** C4, counterexample.  The first page is shown with one card; the sort
    order is changed and the refetch is answered with status 500.  The card
    area is empty afterwards. *)
Lemma failed_refetch_empties_area :
  let shown := run plain_env [cards_arrived 0 (page_of 1 [card "a" 1])]
                 (loaded plain_env (served "pokemon")) in
  let failed := run plain_env
                  [ sortOrderSelect_select "asc";
                    cards_arrived 0 (Response 500 (JsonObject {| detail := None;
                                                                 cards := None;
                                                                 pagination := None |})) ]
                  shown in
  data_card_id <$> cardDisplayArea (dom (state shown)) = ["a"]
  ∧ cardDisplayArea (dom (state failed)) = []
  ∧ cardDisplayArea_innerHTML (dom (state failed)) = ""
  ∧ errorMessage_textContent (dom (state failed))
    = "Failed to load cards. Error fetching cards. Status: 500".
Proof. vm_compute. split_and!; done. Qed.

(** C4, as amended.  A failed fetch, first load or refetch, leaves the card
    area empty: the handler shows the error message and clears the area and
    the pagination controls, whatever was displayed before; the variables
    are as they were. *)
Theorem failed_fetch_clears_area (env : Env) (w : World) (index : nat) (req : Request)
    (r : FetchResult CardsObject) :
  pending w !! index = Some {| request := req; continuation := fetchAndDisplayCards_k |} →
  fetch_failed r = true →
  let w' := step env (cards_arrived index r) w in
  cardDisplayArea (dom (state w')) = []
  ∧ cardDisplayArea_innerHTML (dom (state w')) = ""
  ∧ errorMessage_display (dom (state w')) = "block"
  ∧ paginationControlsTop (dom (state w')) = []
  ∧ paginationControlsBottom (dom (state w')) = []
  ∧ vars (state w') = vars (state w).
Proof.
  intros Hpending Hf w'. subst w'.
  rewrite (step_cards_arrived _ _ _ _ _ Hpending). cbn [state pending].
  rewrite (resume_failed_vars env r _ Hf).
  destruct (resume_failed env r (state w) Hf) as [text [-> | ->]]; done.
Qed.

Lemma failed_fetch_clears_area_witness :
  let w := run plain_env
             [cards_arrived 0 (page_of 1 [card "a" 1]); sortOrderSelect_select "asc"]
             (loaded plain_env (served "pokemon")) in
  let w' := step plain_env (cards_arrived 0 Rejected) w in
  cardDisplayArea (dom (state w')) = []
  ∧ cardDisplayArea_innerHTML (dom (state w')) = ""
  ∧ errorMessage_display (dom (state w')) = "block"
  ∧ paginationControlsTop (dom (state w')) = []
  ∧ paginationControlsBottom (dom (state w')) = []
  ∧ vars (state w') = vars (state w).
Proof.
  apply (failed_fetch_clears_area plain_env _ 0
           (GET (baseUrl +:+ "/cards?page=1&per_page=10&sort_by=point_worth"
                         +:+ "&sort_order=asc&collectionName=pokemon"))
           Rejected);
    vm_compute; reflexivity.
Defined.

(** *** Empty results *)

(** The rendering of a 2xx answer with an empty [cards] array: the area
    shows the empty-state message and no card; the pagination containers are
    empty when the answer has no pagination data or its [total_pages] is not
    positive, and hold the controls of that data otherwise. *)
Lemma empty_result_rendering (env : Env) (w : World) (index : nat) (req : Request)
    (status : Z) (o : CardsObject) :
  pending w !! index = Some {| request := req; continuation := fetchAndDisplayCards_k |} →
  ok status = true →
  cards o = Some [] →
  let w' := step env (cards_arrived index (Response status (JsonObject o))) w in
  cardDisplayArea_innerHTML (dom (state w')) = "<p>No cards found matching your criteria.</p>"
  ∧ cardDisplayArea (dom (state w')) = []
  ∧ paginationControlsTop (dom (state w')) = paginationControlsBottom (dom (state w'))
  ∧ paginationControlsTop (dom (state w'))
    = match pagination o with
      | Some p => if total_pages p <=? 0 then [] else pagination_nodes p
      | None => []
      end.
Proof.
  intros Hpending Hok Hcards w'. subst w'.
  rewrite (step_cards_arrived _ _ _ _ _ Hpending). cbn [state pending].
  rewrite (resume_ok_object _ _ _ _ Hok).
  unfold render_result. rewrite Hcards.
  destruct (pagination o) as [p|]; simpl.
  - unfold renderPaginationControls. by destruct (total_pages p <=? 0).
  - done.
Qed.

(** C6.  For a 2xx answer with an empty [cards] array whose pagination data
    reports a positive [total_pages], the area shows the empty-state message
    and both pagination containers hold controls: "Previous", the page
    information and "Next" of that data.  [totalPages], which the script sets
    to 0 for an empty array, is not what is rendered. *)
Theorem empty_result_keeps_controls (env : Env) (w : World) (index : nat) (req : Request)
    (status : Z) (o : CardsObject) (p : Pagination) :
  pending w !! index = Some {| request := req; continuation := fetchAndDisplayCards_k |} →
  ok status = true →
  cards o = Some [] →
  pagination o = Some p →
  0 < total_pages p →
  let w' := step env (cards_arrived index (Response status (JsonObject o))) w in
  cardDisplayArea_innerHTML (dom (state w')) = "<p>No cards found matching your criteria.</p>"
  ∧ cardDisplayArea (dom (state w')) = []
  ∧ totalPages (vars (state w')) = 0
  ∧ paginationControlsTop (dom (state w')) = pagination_nodes p
  ∧ paginationControlsBottom (dom (state w')) = pagination_nodes p
  ∧ length (paginationControlsTop (dom (state w'))) = 3%nat.
Proof.
  intros Hpending Hok Hcards Hpag Hpos w'.
  destruct (empty_result_rendering env w index req status o Hpending Hok Hcards)
    as (Hhtml & Harea & Hsame & Htop).
  fold w' in Hhtml, Harea, Hsame, Htop.
  rewrite Hpag in Htop.
  apply Z.leb_gt in Hpos. rewrite Hpos in Htop.
  rewrite <- Hsame, Htop. split_and!; try done.
  subst w'. rewrite (step_cards_arrived _ _ _ _ _ Hpending). cbn [state].
  rewrite (resume_ok_object _ _ _ _ Hok).
  unfold render_result. rewrite Hcards, Hpag. done.
Qed.

Lemma empty_result_keeps_controls_witness :
  let w := run plain_env
             [ cards_arrived 0
                 (Response 200 (JsonObject
                    {| detail := None;
                       cards := Some [card "a" 1];
                       pagination := Some {| total_pages := 2; current_page := 1 |} |}));
               paginationTop_clicked 2 ]
             (loaded plain_env (served "pokemon")) in
  let w' := step plain_env
              (cards_arrived 0
                 (Response 200 (JsonObject
                    {| detail := None;
                       cards := Some [];
                       pagination := Some {| total_pages := 1; current_page := 2 |} |})))
              w in
  cardDisplayArea_innerHTML (dom (state w')) = "<p>No cards found matching your criteria.</p>"
  ∧ cardDisplayArea (dom (state w')) = []
  ∧ totalPages (vars (state w')) = 0
  ∧ paginationControlsTop (dom (state w'))
    = pagination_nodes {| total_pages := 1; current_page := 2 |}
  ∧ paginationControlsBottom (dom (state w'))
    = pagination_nodes {| total_pages := 1; current_page := 2 |}
  ∧ length (paginationControlsTop (dom (state w'))) = 3%nat.
Proof.
  apply (empty_result_keeps_controls plain_env _ 0
           (GET (baseUrl +:+ "/cards?page=2&per_page=10&sort_by=point_worth"
                         +:+ "&sort_order=desc&collectionName=pokemon"))
           200
           {| detail := None;
              cards := Some [];
              pagination := Some {| total_pages := 1; current_page := 2 |} |}
           {| total_pages := 1; current_page := 2 |});
    [vm_compute; reflexivity .. | simpl; lia].
Defined.

(** Page 1 of 2 is shown and "Next" is clicked; the answer for page 2 has no
    card and reports one page in all.  The area shows the empty-state message
    and both containers hold controls. *)
Example empty_page_with_controls :
  let w := run plain_env
             [ cards_arrived 0
                 (Response 200 (JsonObject
                    {| detail := None;
                       cards := Some [card "a" 1];
                       pagination := Some {| total_pages := 2; current_page := 1 |} |}));
               paginationTop_clicked 2;
               cards_arrived 0
                 (Response 200 (JsonObject
                    {| detail := None;
                       cards := Some [];
                       pagination := Some {| total_pages := 1; current_page := 2 |} |})) ]
             (loaded plain_env (served "pokemon")) in
  cardDisplayArea_innerHTML (dom (state w)) = "<p>No cards found matching your criteria.</p>"
  ∧ cardDisplayArea (dom (state w)) = []
  ∧ paginationControlsTop (dom (state w))
    = [Button "Previous" 1 false; PageInfo "Page 2 of 1"; Button "Next" 3 false]
  ∧ paginationControlsBottom (dom (state w))
    = [Button "Previous" 1 false; PageInfo "Page 2 of 1"; Button "Next" 3 false].
Proof. vm_compute. split_and!; done. Qed.

(** With pagination data that reports no page, or without pagination data,
    an empty result leaves both containers empty. *)
Example empty_page_without_controls :
  let w p := run plain_env
               [ cards_arrived 0
                   (Response 200 (JsonObject
                      {| detail := None; cards := Some []; pagination := p |})) ]
               (loaded plain_env (served "pokemon")) in
  paginationControlsTop (dom (state (w None))) = []
  ∧ paginationControlsBottom (dom (state (w None))) = []
  ∧ paginationControlsTop
      (dom (state (w (Some {| total_pages := 0; current_page := 1 |})))) = []
  ∧ paginationControlsBottom
      (dom (state (w (Some {| total_pages := 0; current_page := 1 |})))) = [].
Proof. vm_compute. split_and!; done. Qed.

(** *** The request of a fetch *)

Lemma collectionName_from_location_vars (env : Env) (s : State) :
  vars (collectionName_from_location env s) = resolved_vars env (vars s).
Proof.
  unfold collectionName_from_location, resolved_vars.
  destruct (Js.truthy (currentCollectionName (vars s)));
    destruct (Js.truthy (location_collectionName env)); done.
Qed.

Lemma parseUrlParams_if_unset_vars (env : Env) (s s' : State) :
  parseUrlParams_if_unset env s = Some s' → vars s' = vars s.
Proof.
  unfold parseUrlParams_if_unset.
  destruct (Js.truthy (currentCollectionName (vars s))); simpl.
  - by intros [= <-].
  - destruct (parseUrlParams env (dom s)); [by intros [= <-]|done].
Qed.

Lemma build_url_and_fetch_vars (s : State) : vars (build_url_and_fetch s).1 = vars s.
Proof. unfold build_url_and_fetch. by destruct (has_text _). Qed.

Lemma start_vars (env : Env) (s : State) :
  vars (fetchAndDisplayCards_start env s).1 = resolved_vars env (vars s).
Proof.
  unfold fetchAndDisplayCards_start.
  destruct (parseUrlParams_if_unset env _) as [s'|] eqn:Hp.
  - rewrite build_url_and_fetch_vars, (parseUrlParams_if_unset_vars _ _ _ Hp).
    by rewrite collectionName_from_location_vars.
  - cbn [fst]. by rewrite collectionName_from_location_vars.
Qed.

Lemma build_url_and_fetch_sent (s : State) (req : Request) :
  (build_url_and_fetch s).2 = Sent req →
  has_text (currentSearchQuery (vars s)) = false
  ∧ req = GET (baseUrl +:+ "/cards?" +:+ Js.searchParams_toString (queryParams (vars s))).
Proof.
  unfold build_url_and_fetch.
  destruct (has_text (currentSearchQuery (vars s))); [done|]. by intros [= <-].
Qed.

Lemma resolved_vars_search (env : Env) (v : Vars) :
  currentSearchQuery (resolved_vars env v) = currentSearchQuery v.
Proof. unfold resolved_vars. by destruct (_ && _). Qed.

Lemma start_sent (env : Env) (s : State) (req : Request) :
  (fetchAndDisplayCards_start env s).2 = Sent req →
  has_text (currentSearchQuery (vars s)) = false
  ∧ req = GET (baseUrl +:+ "/cards?"
               +:+ Js.searchParams_toString (queryParams (resolved_vars env (vars s)))).
Proof.
  unfold fetchAndDisplayCards_start.
  destruct (parseUrlParams_if_unset env _) as [s'|] eqn:Hp; [|done].
  intros Hs. apply build_url_and_fetch_sent in Hs.
  rewrite (parseUrlParams_if_unset_vars _ _ _ Hp) in Hs.
  rewrite collectionName_from_location_vars in Hs.
  by rewrite resolved_vars_search in Hs.
Qed.

(** C3.  With a search query that is not blank [fetchAndDisplayCards] sends
    no request: the call ends with an exception, the one of the assignment to
    the constant [url] or, before that, the one of [parseUrlParams]. *)
Theorem search_query_sends_nothing (env : Env) (s : State) :
  has_text (currentSearchQuery (vars s)) = true →
  (fetchAndDisplayCards_start env s).2 = Threw (Js.TypeError_const_assignment "url")
  ∨ (fetchAndDisplayCards_start env s).2
    = Threw (Js.ReferenceError_not_defined "parseUrlParams").
Proof.
  intros Hq. unfold fetchAndDisplayCards_start.
  destruct (parseUrlParams_if_unset env _) as [s'|] eqn:Hp; [left|by right].
  unfold build_url_and_fetch.
  rewrite (parseUrlParams_if_unset_vars _ _ _ Hp), collectionName_from_location_vars.
  rewrite resolved_vars_search. cbn [vars with_dom]. by rewrite Hq.
Qed.

Lemma search_query_sends_nothing_witness :
  (fetchAndDisplayCards_start plain_env
     (state (run plain_env [searchInput_input "pika chu"; searchButton_clicked]
               (loaded plain_env (served "pokemon"))))).2
  = Threw (Js.TypeError_const_assignment "url")
  ∨ (fetchAndDisplayCards_start plain_env
       (state (run plain_env [searchInput_input "pika chu"; searchButton_clicked]
                 (loaded plain_env (served "pokemon"))))).2
    = Threw (Js.ReferenceError_not_defined "parseUrlParams").
Proof.
  apply (search_query_sends_nothing plain_env
           (state (run plain_env [searchInput_input "pika chu"; searchButton_clicked]
                     (loaded plain_env (served "pokemon"))))).
  vm_compute. reflexivity.
Defined.

(** Without a search query, and with a collection name at hand, the request
    goes out with the parameters of the state in its query string. *)
Lemma fetch_request_without_search (env : Env) (s : State) :
  has_text (currentSearchQuery (vars s)) = false →
  Js.truthy (currentCollectionName (vars s)) = true →
  (fetchAndDisplayCards_start env s).2
  = Sent (GET (baseUrl +:+ "/cards?" +:+ Js.searchParams_toString (queryParams (vars s)))).
Proof.
  intros Hq Hc. unfold fetchAndDisplayCards_start.
  unfold collectionName_from_location. cbn [vars with_dom]. rewrite Hc. cbn [negb].
  unfold parseUrlParams_if_unset. cbn [vars with_dom]. rewrite Hc. cbn [negb].
  unfold build_url_and_fetch. cbn [vars with_dom]. by rewrite Hq.
Qed.

(** *** Page reset and page navigation *)

Lemma resolved_vars_resolved (env : Env) (v : Vars) :
  collection_resolved env (resolved_vars env v).
Proof.
  unfold collection_resolved, resolved_vars.
  destruct (Js.truthy (currentCollectionName v)) eqn:Hc;
    destruct (Js.truthy (location_collectionName env)) eqn:Hl; simpl; auto.
Qed.

Lemma resolved_vars_id (env : Env) (v : Vars) :
  collection_resolved env v → resolved_vars env v = v.
Proof.
  unfold resolved_vars. intros [-> | ->]; [done|]. by rewrite andb_false_r.
Qed.

Lemma resolved_vars_page (env : Env) (v : Vars) :
  currentPage (resolved_vars env v) = currentPage v.
Proof. unfold resolved_vars. by destruct (_ && _). Qed.

Lemma collection_resolved_totalPages (env : Env) (n : Z) (v : Vars) :
  collection_resolved env v → collection_resolved env (set_totalPages n v).
Proof. done. Qed.

(** The rest of a fetch writes no variable but [totalPages]. *)
Lemma resume_vars (env : Env) (r : FetchResult CardsObject) (s : State) :
  ∃ n, vars (fetchAndDisplayCards_resume env r s) = set_totalPages n (vars s).
Proof.
  assert (Hsame : vars s = set_totalPages (totalPages (vars s)) (vars s))
    by (by destruct (vars s)).
  destruct (fetch_failed r) eqn:Hf.
  - exists (totalPages (vars s)). by rewrite resume_failed_vars.
  - destruct r as [|status [| | | |o]]; try done.
    simpl in Hf. apply negb_false_iff in Hf.
    rewrite (resume_ok_object _ _ _ _ Hf).
    unfold render_result.
    destruct (cards o) as [[|c cs]|].
    + exists 0. by destruct (pagination o).
    + rewrite (foldl_append_cards (c :: cs)).
      exists (match pagination o with
              | Some p => if total_pages p =? 0 then 0 else total_pages p
              | None => 0
              end).
      by destruct (pagination o).
    + exists 0. by destruct (pagination o).
Qed.

Lemma fetching_vars (listener : State → State * Started) (w : World) :
  vars (state (fetching listener w)) = vars (listener (state w)).1.
Proof. unfold fetching. by destruct (listener (state w)) as [s []]. Qed.

Lemma proceed_vars (k : Continuation) (w : World) (dn : Dom * Next) :
  vars (state (proceed k w dn)) = vars (state w).
Proof. unfold proceed. by destruct dn.2. Qed.

(** Every listener that fetches leaves the collection name resolved. *)
Lemma step_resolved (env : Env) (ev : Event) (w : World) :
  collection_resolved env (vars (state w)) →
  collection_resolved env (vars (state (step env ev w))).
Proof.
  intros Hw.
  assert (Hfetch : ∀ (f : State → State) w0,
            collection_resolved env
              (vars (state (fetching (λ s, fetchAndDisplayCards_start env (f s)) w0)))).
  { intros f w0. rewrite fetching_vars, start_vars. apply resolved_vars_resolved. }
  destruct ev; cbn [step]; try done.
  - apply (Hfetch (λ s, with_vars (set_currentPage 1)
                          (with_vars (set_currentSortBy _) s))).
  - apply (Hfetch (λ s, with_vars (set_currentPage 1)
                          (with_vars (set_currentSortOrder _) s))).
  - apply (Hfetch (λ s, with_vars (set_currentPage 1)
                          (with_vars (set_itemsPerPage _) s))).
  - destruct (String.eqb key "Enter"); [|done].
    apply (Hfetch (λ s, with_vars (set_currentPage 1)
                          (with_vars (set_currentSearchQuery _) s))).
  - apply (Hfetch (λ s, with_vars (set_currentPage 1)
                          (with_vars (set_currentCollectionName _) s))).
  - apply (Hfetch (λ s, with_vars (set_currentPage 1)
                          (with_vars (set_currentSearchQuery _) s))).
  - apply (Hfetch (λ s, with_dom (set_clearSearchButton_display "none")
                          (with_vars (set_currentPage 1)
                             (with_dom _ (with_vars (set_currentSearchQuery None) s))))).
  - unfold pagination_click.
    destruct (_ !! _) as [[? page []|]|]; try done.
    apply (Hfetch (with_vars (set_currentPage page))).
  - unfold pagination_click.
    destruct (_ !! _) as [[? page []|]|]; try done.
    apply (Hfetch (with_vars (set_currentPage page))).
  - by destruct (_ !! _).
  - by destruct (_ !! _).
  - destruct (_ !! _); [|done]. by rewrite proceed_vars.
  - destruct (pending w !! index) as [[req []]|]; try done.
    cbn [state set_state].
    destruct (resume_vars env r (state w)) as [n ->].
    by apply collection_resolved_totalPages.
  - destruct (pending w !! index) as [[req []]|]; try done.
    by rewrite proceed_vars.
Qed.

Lemma loaded_resolved (env : Env) (d : Dom) :
  collection_resolved env (vars (state (loaded env d))).
Proof. unfold loaded. rewrite fetching_vars, start_vars. apply resolved_vars_resolved. Qed.

Lemma run_resolved (env : Env) (evs : list Event) (w : World) :
  collection_resolved env (vars (state w)) →
  collection_resolved env (vars (state (run env evs w))).
Proof.
  revert w. induction evs as [|ev evs IH]; intros w Hw; [done|].
  apply IH. by apply step_resolved.
Qed.

Lemma searchParams_toString_cons (k v : string) (p : string * string)
    (ps : list (string * string)) :
  Js.searchParams_toString ((k, v) :: p :: ps)
  = Js.form_urlencode k +:+ "=" +:+ Js.form_urlencode v +:+ "&"
    +:+ Js.searchParams_toString (p :: ps).
Proof. done. Qed.

Lemma pretty_1 : pretty 1 = "1".
Proof. by vm_compute. Qed.

Lemma fetch_at_page_1 (env : Env) (s : State) :
  currentPage (vars s) = 1 →
  resets_page (fetchAndDisplayCards_start env) s.
Proof.
  intros Hp. split.
  - by rewrite start_vars, resolved_vars_page.
  - intros req Hs. apply start_sent in Hs as [_ ->].
    unfold queryParams. rewrite resolved_vars_page, Hp.
    cbn [app]. rewrite searchParams_toString_cons, pretty_1.
    match goal with
    | |- context [Js.searchParams_toString ?l] =>
        generalize (Js.searchParams_toString l)
    end.
    intros rest. by exists rest.
Qed.

(** C5.  In every state that a session reaches, each of the listeners for
    the collection name, the search (set or cleared), the sort field, the
    sort order and the page size leaves [currentPage] at 1 and, when it sends
    its request, asks for page 1; the listener of a pagination button writes
    [currentPage] and no other variable, and its request carries the
    variables so changed. *)
Theorem page_reset_and_navigation (env : Env) (d : Dom) (evs : list Event) (page : Z) :
  let s := state (run env evs (loaded env d)) in
  resets_page (fetchCollectionButton_click env) s
  ∧ resets_page (searchButton_click env) s
  ∧ resets_page (clearSearchButton_click env) s
  ∧ resets_page (sortBySelect_change env) s
  ∧ resets_page (sortOrderSelect_change env) s
  ∧ resets_page (perPageSelect_change env) s
  ∧ vars (pageButton_click env page s).1 = set_currentPage page (vars s)
  ∧ ∀ req, (pageButton_click env page s).2 = Sent req →
      req = GET (baseUrl +:+ "/cards?"
                 +:+ Js.searchParams_toString (queryParams (set_currentPage page (vars s)))).
Proof.
  intros s.
  assert (Hs : collection_resolved env (vars s))
    by apply run_resolved, loaded_resolved.
  assert (Hpage : resolved_vars env (set_currentPage page (vars s))
                  = set_currentPage page (vars s))
    by (by apply resolved_vars_id).
  split_and!; try (by apply fetch_at_page_1).
  - unfold pageButton_click. by rewrite start_vars.
  - intros req Hreq. unfold pageButton_click in Hreq.
    apply start_sent in Hreq as [_ ->]. cbn [vars with_vars]. by rewrite Hpage.
Qed.

(** *** Error messages *)

(** C7.  For an answer that is not ok and whose JSON body is an object, the
    message that the user sees carries the [detail] of the body when
    JavaScript takes it as true (a string that is not empty, an array, an
    object): the text of the error element after a fetch ends with the
    string, or with the JSON text of a detail that is not a string, and the
    [alert] after a quantity update ends with the string, or with
    [String(detail)].  When the [detail] is missing, or there and taken as
    false (the empty string, [null], 0, [false]), the message is the generic
    one, with the status of the answer. *)
Theorem error_detail_surfaced (env : Env) (s : State) (d : Dom) (documentId : string)
    (status : Z) (o : option Detail) (cs : option (list Card)) (pg : option Pagination)
    (uid : option string) (uq : option Z) :
  ok status = false →
  let answer := Response status (JsonObject {| detail := o; cards := cs; pagination := pg |}) in
  let update_answer :=
    Response status (JsonObject {| u_detail := o; u_id := uid; u_quantity := uq |}) in
  let shown := dom (fetchAndDisplayCards_resume env answer s) in
  let generic := "Error: " +:+ pretty status in
  errorMessage_display shown = "block"
  ∧ errorMessage_textContent shown
    = "Failed to load cards. Error fetching cards. Status: " +:+ pretty status
      +:+ match o with
          | Some (DetailString text) =>
              if String.eqb text "" then "" else ", Server says: " +:+ text
          | Some (DetailOther is_truthy json _) =>
              if is_truthy then ", Server says: " +:+ json else ""
          | None => ""
          end
  ∧ alerts (updateQuantity_resume env documentId update_answer d)
    = alerts d
      ++ ["Failed to update quantity: "
          +:+ match o with
              | Some (DetailString text) => if String.eqb text "" then generic else text
              | Some (DetailOther is_truthy _ text) => if is_truthy then text else generic
              | None => generic
              end]
  ∧ alerts (updateQuantityByInput_resume env documentId update_answer d)
    = alerts d
      ++ ["Failed to set quantity: "
          +:+ match o with
              | Some (DetailString text) => if String.eqb text "" then generic else text
              | Some (DetailOther is_truthy _ text) => if is_truthy then text else generic
              | None => generic
              end].
Proof.
  intros Hok answer update_answer shown generic.
  subst answer update_answer shown generic.
  unfold updateQuantity_resume, updateQuantityByInput_resume, update_response,
    fetchAndDisplayCards_resume, errorMsg.
  cbn [detail u_detail]. rewrite Hok. cbn [negb].
  assert (Hend : ∀ text : string, text +:+ "" = text).
  { intros text. induction text as [|c text IH]; [done|].
    change (String c text +:+ "") with (String c (text +:+ "")). by rewrite IH. }
  destruct o as [[text|[] json text]|]; cbn [detail_truthy detail_text];
    try destruct (String.eqb text ""); cbn [negb];
    rewrite ?Hend; split_and!; reflexivity.
Qed.

Lemma error_detail_surfaced_witness :
  let s := state (loaded plain_env (served "pokemon")) in
  let d := served "pokemon" in
  let o := Some (DetailString "db unavailable") in
  let answer := Response 500 (JsonObject {| detail := o; cards := None; pagination := None |}) in
  let update_answer :=
    Response 500 (JsonObject {| u_detail := o; u_id := None; u_quantity := None |}) in
  let shown := dom (fetchAndDisplayCards_resume plain_env answer s) in
  errorMessage_display shown = "block"
  ∧ errorMessage_textContent shown
    = "Failed to load cards. Error fetching cards. Status: " +:+ pretty 500
      +:+ ", Server says: " +:+ "db unavailable"
  ∧ alerts (updateQuantity_resume plain_env "c1" update_answer d)
    = alerts d ++ ["Failed to update quantity: " +:+ "db unavailable"]
  ∧ alerts (updateQuantityByInput_resume plain_env "c1" update_answer d)
    = alerts d ++ ["Failed to set quantity: " +:+ "db unavailable"].
Proof.
  apply (error_detail_surfaced plain_env (state (loaded plain_env (served "pokemon")))
           (served "pokemon") "c1" 500 (Some (DetailString "db unavailable"))
           None None None None).
  vm_compute. reflexivity.
Defined.

(** The answer 500 with the body [{"detail": ""}] has a [detail], and the
    messages are the generic ones. *)
Lemma empty_detail_shows_generic :
  let o := Some (DetailString "") in
  let answer := Response 500 (JsonObject {| detail := o; cards := None; pagination := None |}) in
  let update_answer :=
    Response 500 (JsonObject {| u_detail := o; u_id := None; u_quantity := None |}) in
  errorMessage_textContent
    (dom (fetchAndDisplayCards_resume plain_env answer
            (state (loaded plain_env (served "pokemon")))))
  = "Failed to load cards. Error fetching cards. Status: 500"
  ∧ alerts (updateQuantity_resume plain_env "c1" update_answer (served "pokemon"))
    = ["Failed to update quantity: Error: 500"]
  ∧ alerts (updateQuantityByInput_resume plain_env "c1" update_answer (served "pokemon"))
    = ["Failed to set quantity: Error: 500"].
Proof. vm_compute. done. Qed.

(** The two messages for the answer 500 with the body
    [{"detail":"db unavailable"}]. *)
Example db_unavailable_messages :
  errorMessage_textContent
    (dom (fetchAndDisplayCards_resume plain_env
            (Response 500 (JsonObject {| detail := Some (DetailString "db unavailable");
                                         cards := None;
                                         pagination := None |}))
            (state (loaded plain_env (served "pokemon")))))
  = "Failed to load cards. Error fetching cards. Status: 500, Server says: db unavailable"
  ∧ alerts (updateQuantity_resume plain_env "c1"
              (Response 500 (JsonObject {| u_detail := Some (DetailString "db unavailable");
                                           u_id := None;
                                           u_quantity := None |}))
              (served "pokemon"))
    = ["Failed to update quantity: db unavailable"].
Proof. vm_compute. done. Qed.

(** *** Quantity set through the input *)

(** C2.  For an input that [parseInt] reads as a negative number,
    [updateQuantityByInput] sends a request: the [PATCH] of [updateQuantity],
    with the number as the change of the quantity.  The validation of the
    sign comes after that request, and stops the [PUT]. *)
Theorem negative_input_sends_patch (env : Env) (documentId inputValue : string)
    (collectionName : option string) (r1 r2 : FetchResult UpdateObject) (d : Dom) (n : Z) :
  Js.parseInt inputValue None = Some n →
  n < 0 →
  (updateQuantityByInput env documentId inputValue collectionName r1 r2 d).2
  = [PATCH (quantity_url documentId collectionName) n].
Proof.
  intros Hn Hneg.
  unfold updateQuantityByInput, updateQuantityByInput_start, updateQuantityByInput_patched.
  rewrite Hn.
  destruct (querySelector_card documentId _) as [e|found]; [done|].
  apply Z.ltb_lt in Hneg. by rewrite Hneg.
Qed.

Lemma negative_input_sends_patch_witness :
  (updateQuantityByInput plain_env "c1" "-1" (Some "pokemon")
     (Response 200 (JsonObject {| u_detail := None; u_id := Some "c1"; u_quantity := Some 4 |}))
     Rejected (served "pokemon")).2
  = [PATCH "http://localhost:8080/gacha/api/v1/storage/cards/c1/quantity?collectionName=pokemon"
       (-1)].
Proof.
  apply (negative_input_sends_patch plain_env "c1" "-1" (Some "pokemon") _ _ _ (-1));
    [reflexivity | lia].
Defined.

(** X9.  An input without a leading number, the empty one among them, is
    turned down before any request, with one [alert]. *)
Lemma non_numeric_input_rejected (env : Env) (documentId inputValue : string)
    (collectionName : option string) (r1 r2 : FetchResult UpdateObject) (d : Dom) :
  Js.parseInt inputValue None = None →
  updateQuantityByInput env documentId inputValue collectionName r1 r2 d
  = (alert "Please enter a valid number for quantity change." d, []).
Proof.
  intros Hn. unfold updateQuantityByInput, updateQuantityByInput_start. by rewrite Hn.
Qed.


Example set_quantity_inputs :
  Js.parseInt "-1" None = Some (-1)
  ∧ Js.parseInt "abc" None = None
  ∧ Js.parseInt "0" None = Some 0.
Proof. done. Qed.

(** *** Quantity updates *)






End AdminCardsFacts.

(** ** Edits merged into what is displayed *)

Module EditFacts.
Import AdminCards Notions Samples AdminCardsFacts.






End EditFacts.

(** ** The query string, white space and numbers *)

Module PrimitiveFacts.
Import Notions.

Lemma append_assoc (a b c : string) : (a +:+ b) +:+ c = a +:+ b +:+ c.
Proof.
  induction a as [|d a IH]; [done|].
  change (String d ((a +:+ b) +:+ c) = String d (a +:+ b +:+ c)). by rewrite IH.
Qed.

Lemma char_in_app (c : ascii) (a b : string) :
  Js.char_in c (a +:+ b) = Js.char_in c a || Js.char_in c b.
Proof.
  induction a as [|d a IH]; simpl; [done|]. rewrite IH. by rewrite orb_assoc.
Qed.

Lemma form_urlencode_cons (c : ascii) (s : string) :
  Js.form_urlencode (String c s)
  = Js.form_urlencode (String c "") +:+ Js.form_urlencode s.
Proof.
  cbn [Js.form_urlencode]. destruct (Ascii.eqb c " "); [done|]. by destruct (_ || _).
Qed.

Lemma form_urlencode_char (c : ascii) :
  Js.char_in "&" (Js.form_urlencode (String c "")) = false
  ∧ Js.char_in "=" (Js.form_urlencode (String c "")) = false.
Proof. destruct c as [[] [] [] [] [] [] [] []]; vm_compute; auto. Qed.

(** The serializer writes neither [&] nor [=]. *)
Lemma form_urlencode_separators (s : string) :
  Js.char_in "&" (Js.form_urlencode s) = false
  ∧ Js.char_in "=" (Js.form_urlencode s) = false.
Proof.
  induction s as [|c s [IH1 IH2]]; [done|].
  destruct (form_urlencode_char c) as [H1 H2].
  rewrite form_urlencode_cons, !char_in_app. by rewrite IH1, IH2, H1, H2.
Qed.

Lemma cut_at_app (sep : ascii) (a b : string) :
  Js.char_in sep a = false → cut_at sep (a +:+ String sep b) = (a, b).
Proof.
  induction a as [|c a IH]; simpl.
  - by rewrite Ascii.eqb_refl.
  - rewrite Ascii.eqb_sym. intros [Hc Ha]%orb_false_iff. rewrite Hc, (IH Ha). done.
Qed.

Lemma cut_at_free (sep : ascii) (s : string) :
  Js.char_in sep s = false → cut_at sep s = (s, "").
Proof.
  induction s as [|c s IH]; [done|].
  cbn [Js.char_in cut_at]. rewrite Ascii.eqb_sym.
  intros [Hc Hs]%orb_false_iff. by rewrite Hc, (IH Hs).
Qed.

Lemma split_free (sep : ascii) (a : string) :
  Js.char_in sep a = false → Js.split sep a = [a].
Proof.
  induction a as [|c a IH]; simpl; [done|].
  rewrite Ascii.eqb_sym. intros [Hc Ha]%orb_false_iff. by rewrite Hc, (IH Ha).
Qed.

Lemma split_app (sep : ascii) (a b : string) :
  Js.char_in sep a = false →
  Js.split sep (a +:+ String sep b) = a :: Js.split sep b.
Proof.
  induction a as [|c a IH]; simpl.
  - by rewrite Ascii.eqb_refl.
  - rewrite Ascii.eqb_sym. intros [Hc Ha]%orb_false_iff. by rewrite Hc, (IH Ha).
Qed.

Lemma pair_text_free (k v : string) :
  Js.char_in "&" (Js.form_urlencode k +:+ "=" +:+ Js.form_urlencode v) = false.
Proof.
  rewrite !char_in_app.
  destruct (form_urlencode_separators k) as [-> _].
  by destruct (form_urlencode_separators v) as [-> _].
Qed.

Lemma pair_text_read (k v : string) :
  (form_urldecode (cut_at "=" (Js.form_urlencode k +:+ "=" +:+ Js.form_urlencode v)).1,
   form_urldecode (cut_at "=" (Js.form_urlencode k +:+ "=" +:+ Js.form_urlencode v)).2)
  = (k, v).
Proof.
  change (Js.form_urlencode k +:+ "=" +:+ Js.form_urlencode v)
    with (Js.form_urlencode k +:+ String "=" (Js.form_urlencode v)).
  rewrite cut_at_app by apply form_urlencode_separators.
  cbn [fst snd]. by rewrite !JsFacts.form_urlencode_decodes.
Qed.

Lemma pair_text_not_empty (k v : string) :
  Js.form_urlencode k +:+ "=" +:+ Js.form_urlencode v ≠ "".
Proof. by destruct (Js.form_urlencode k). Qed.

(** What [URLSearchParams] writes is read back, by the parser of the
    receiver, as the pairs that were appended, in their order. *)
Lemma searchParams_round_trip (ps : list (string * string)) :
  parse_query (Js.searchParams_toString ps) = ps.
Proof.
  unfold parse_query.
  induction ps as [|[k v] ps IH]; [done|].
  destruct ps as [|p ps].
  - cbn [Js.searchParams_toString].
    rewrite split_free by apply pair_text_free.
    rewrite filter_cons_True by apply pair_text_not_empty.
    rewrite filter_nil. csimpl. by rewrite pair_text_read.
  - replace (Js.searchParams_toString ((k, v) :: p :: ps))
      with ((Js.form_urlencode k +:+ "=" +:+ Js.form_urlencode v)
            +:+ String "&" (Js.searchParams_toString (p :: ps)))
      by (by rewrite !append_assoc).
    rewrite split_app by apply pair_text_free.
    rewrite filter_cons_True by apply pair_text_not_empty.
    rewrite fmap_cons, IH. by rewrite pair_text_read.
Qed.

Lemma trimStart_skip (s : string) :
  Js.trimStart s
  = match Js.skip_whitespace s with
    | Some r => Js.trimStart r
    | None => s
    end.
Proof.
  destruct s as [|a r]; [done|].
  cbn [Js.trimStart Js.skip_whitespace]. repeat case_match; done.
Qed.

Lemma skip_whitespace_shorter (s r : string) :
  Js.skip_whitespace s = Some r → (String.length r < String.length s)%nat.
Proof.
  destruct s as [|a [|b [|c s]]]; cbn [Js.skip_whitespace String.length];
    repeat case_match; intros [= <-]; cbn [String.length]; lia.
Qed.

(** Induction on the white space characters at the start of a text. *)
Lemma skip_whitespace_ind (P : string → Prop) :
  (∀ s, Js.skip_whitespace s = None → P s) →
  (∀ s r, Js.skip_whitespace s = Some r → P r → P s) →
  ∀ s, P s.
Proof.
  intros Hnone Hsome s.
  remember (String.length s) as n eqn:Hn. revert s Hn.
  induction (lt_wf n) as [n _ IH]; intros s ->.
  destruct (Js.skip_whitespace s) as [r|] eqn:Hs; [|by apply Hnone].
  apply (Hsome s r Hs), (IH (String.length r)); [by apply skip_whitespace_shorter | done].
Qed.

Lemma skip_whitespace_trimStart (s : string) : Js.skip_whitespace (Js.trimStart s) = None.
Proof.
  induction s as [s Hs | s r Hs IH] using skip_whitespace_ind;
    rewrite trimStart_skip, Hs; done.
Qed.

Lemma trimStart_idemp (s : string) : Js.trimStart (Js.trimStart s) = Js.trimStart s.
Proof. by rewrite (trimStart_skip (Js.trimStart s)), skip_whitespace_trimStart. Qed.

Lemma skip_whitespace_app (s r w : string) :
  Js.skip_whitespace s = Some r → Js.skip_whitespace (s +:+ w) = Some (r +:+ w).
Proof.
  destruct s as [|a [|b [|c s]]]; cbn [Js.skip_whitespace]; [done|..].
  - case_match; [|done]. intros [= <-].
    change (String a "" +:+ w) with (String a w). cbn [Js.skip_whitespace]. by rewrite H.
  - change (String a (String b "") +:+ w) with (String a (String b w)).
    cbn [Js.skip_whitespace]. repeat case_match; try done; by intros [= <-].
  - change (String a (String b (String c s)) +:+ w)
      with (String a (String b (String c (s +:+ w)))).
    cbn [Js.skip_whitespace]. repeat case_match; try done; by intros [= <-].
Qed.

Lemma blank_app (s w : string) : Js.blank s = true → Js.blank (s +:+ w) = Js.blank w.
Proof.
  unfold Js.blank.
  induction s as [s Hs | s r Hs IH] using skip_whitespace_ind.
  - rewrite trimStart_skip, Hs. by destruct s.
  - rewrite (trimStart_skip s), Hs. intros Hr.
    by rewrite (trimStart_skip (s +:+ w)), (skip_whitespace_app _ _ _ Hs), IH.
Qed.

(** What [trimEnd] takes away is white space. *)
Lemma trimEnd_split (s : string) : ∃ w, s = Js.trimEnd s +:+ w ∧ Js.blank w = true.
Proof.
  induction s as [|c r (w & Hr & Hw)]; [by exists ""|].
  cbn [Js.trimEnd]. destruct (Js.blank (String c r)) eqn:Hb.
  - by exists (String c r).
  - exists w. split; [|done].
    change (String c (Js.trimEnd r) +:+ w) with (String c (Js.trimEnd r +:+ w)).
    by rewrite <- Hr.
Qed.

Lemma trimEnd_idemp (s : string) : Js.trimEnd (Js.trimEnd s) = Js.trimEnd s.
Proof.
  induction s as [|c r IH]; [done|].
  cbn [Js.trimEnd]. destruct (Js.blank (String c r)) eqn:Hb; [done|].
  cbn [Js.trimEnd]. rewrite IH.
  destruct (Js.blank (String c (Js.trimEnd r))) eqn:Hb'; [|done].
  destruct (trimEnd_split r) as (w & Hr & Hw).
  rewrite <- (blank_app _ w Hb') in Hw.
  change (String c (Js.trimEnd r) +:+ w) with (String c (Js.trimEnd r +:+ w)) in Hw.
  rewrite <- Hr in Hw. congruence.
Qed.

Lemma trimStart_trimEnd (s : string) :
  Js.skip_whitespace s = None → Js.trimStart (Js.trimEnd s) = Js.trimEnd s.
Proof.
  intros Hs. rewrite trimStart_skip.
  destruct (Js.skip_whitespace (Js.trimEnd s)) as [r|] eqn:Hr; [|done].
  destruct (trimEnd_split s) as (w & Hsplit & _).
  apply (skip_whitespace_app _ _ w) in Hr. rewrite <- Hsplit in Hr. congruence.
Qed.

Lemma trim_idemp (s : string) : Js.trim (Js.trim s) = Js.trim s.
Proof.
  unfold Js.trim.
  rewrite trimStart_trimEnd by apply skip_whitespace_trimStart.
  apply trimEnd_idemp.
Qed.

(** The white space of more than one byte is taken away as the space is,
    and a text of such white space is blank. *)
Example trim_wide_spaces :
  Js.trim (Samples.no_break_space +:+ " pika chu" +:+ Samples.ideographic_space +:+ " ")
  = "pika chu"
  ∧ Js.trim (Samples.no_break_space +:+ Samples.ideographic_space) = ""
  ∧ AdminCards.has_text (Some Samples.no_break_space) = false
  ∧ Collection.collection_query (Some Samples.no_break_space) = "".
Proof. vm_compute. done. Qed.

(** The white space characters of more than one byte, from U+00A0 to U+FEFF,
    are blank; U+0085, U+180E, U+200B and U+2060, which are none, and the
    letter U+00E0 stay. *)
Example trim_of_each_character :
  Forall (λ codes, Js.trim (Samples.bytes codes) = "")
    [ [194; 160]; [225; 154; 128]; [226; 128; 128]; [226; 128; 129]; [226; 128; 130];
      [226; 128; 131]; [226; 128; 132]; [226; 128; 133]; [226; 128; 134];
      [226; 128; 135]; [226; 128; 136]; [226; 128; 137]; [226; 128; 138];
      [226; 128; 168]; [226; 128; 169]; [226; 128; 175]; [226; 129; 159];
      [227; 128; 128]; [239; 187; 191] ]%N
  ∧ Forall (λ codes, Js.trim (Samples.bytes codes) = Samples.bytes codes)
      [ [194; 133]; [225; 160; 142]; [226; 128; 139]; [226; 129; 160]; [195; 160] ]%N.
Proof. split; repeat constructor. Qed.

(** A byte of ASCII that is no white space starts no white space
    character. *)
Lemma skip_whitespace_ascii (a : ascii) (r : string) :
  Js.is_whitespace a = false → (Ascii.N_of_ascii a <? 128)%N = true →
  Js.skip_whitespace (String a r) = None.
Proof.
  destruct a as [[] [] [] [] [] [] [] []]; intros H1 H2;
    try discriminate H1; try discriminate H2; by destruct r as [|b [|c r]].
Qed.

(** A text that starts and ends with such bytes is its own trimmed form. *)
Lemma trim_ascii_ends (a : ascii) (r : string) :
  Js.is_whitespace a = false → (Ascii.N_of_ascii a <? 128)%N = true →
  Js.trimStart (String a r) = String a r.
Proof. intros H1 H2. by rewrite trimStart_skip, skip_whitespace_ascii. Qed.








Lemma encodeURIComponent_cons (c : ascii) (s : string) :
  Js.encodeURIComponent (String c s)
  = Js.encodeURIComponent (String c "") +:+ Js.encodeURIComponent s.
Proof. cbn [Js.encodeURIComponent]. by destruct (_ || _). Qed.

Lemma encodeURIComponent_char (c : ascii) :
  Js.char_in "&" (Js.encodeURIComponent (String c "")) = false
  ∧ Js.char_in "=" (Js.encodeURIComponent (String c "")) = false
  ∧ Js.char_in "#" (Js.encodeURIComponent (String c "")) = false
  ∧ Js.char_in "?" (Js.encodeURIComponent (String c "")) = false.
Proof. destruct c as [[] [] [] [] [] [] [] []]; vm_compute; auto. Qed.

Lemma encodeURIComponent_char_decodes (c : ascii) (rest : string) :
  form_urldecode (Js.encodeURIComponent (String c "") +:+ rest)
  = String c (form_urldecode rest).
Proof. destruct c as [[] [] [] [] [] [] [] []]; reflexivity. Qed.

(** [encodeURIComponent] writes none of [&], [=], [#] and [?]. *)
Lemma encodeURIComponent_separators (s : string) :
  Js.char_in "&" (Js.encodeURIComponent s) = false
  ∧ Js.char_in "=" (Js.encodeURIComponent s) = false
  ∧ Js.char_in "#" (Js.encodeURIComponent s) = false
  ∧ Js.char_in "?" (Js.encodeURIComponent s) = false.
Proof.
  induction s as [|c s (IH1 & IH2 & IH3 & IH4)]; [done|].
  destruct (encodeURIComponent_char c) as (H1 & H2 & H3 & H4).
  rewrite encodeURIComponent_cons, !char_in_app.
  by rewrite IH1, IH2, IH3, IH4, H1, H2, H3, H4.
Qed.

Lemma encodeURIComponent_decodes (s : string) :
  form_urldecode (Js.encodeURIComponent s) = s.
Proof.
  induction s as [|c s IH]; [done|].
  by rewrite encodeURIComponent_cons, encodeURIComponent_char_decodes, IH.
Qed.

Lemma parse_query_single (name value : string) :
  Js.char_in "&" name = false → Js.char_in "=" name = false →
  Js.char_in "&" value = false → name ≠ "" →
  parse_query (name +:+ String "=" value) = [(form_urldecode name, form_urldecode value)].
Proof.
  intros Hn1 Hn2 Hv Hne. unfold parse_query.
  rewrite split_free.
  - rewrite filter_cons_True by (by destruct name).
    rewrite filter_nil. csimpl. by rewrite cut_at_app.
  - rewrite char_in_app, Hn1. cbn [Js.char_in orb]. by rewrite Hv.
Qed.

End PrimitiveFacts.

(** ** The admin card browser between two answers *)

Module BrowserFacts.
Import AdminCards Notions Samples AdminCardsFacts PrimitiveFacts.



(** The request of the page that is loaded with the name " a b&c " typed in:
    the receiver reads the name "a b&c". *)
Example request_query_of_sample :
  parse_query "page=1&per_page=10&sort_by=point_worth&sort_order=desc&collectionName=a+b%26c"
  = [ ("page", "1"); ("per_page", "10"); ("sort_by", "point_worth");
      ("sort_order", "desc"); ("collectionName", "a b&c") ].
Proof. vm_compute. done. Qed.

Lemma render_result_dom (o : CardsObject) (s : State) :
  let s' := render_result o s in
  loadingMessage_display (dom s') = loadingMessage_display (dom s)
  ∧ alerts (dom s') = alerts (dom s)
  ∧ clearSearchButton_display (dom s') = clearSearchButton_display (dom s)
  ∧ errorMessage_display (dom s') = errorMessage_display (dom s)
  ∧ errorMessage_textContent (dom s') = errorMessage_textContent (dom s)
  ∧ controls (dom s') = controls (dom (updateActiveControls s)).
Proof.
  unfold render_result.
  destruct (cards o) as [[|c cs]|]; rewrite ?(foldl_append_cards (c :: cs));
    destruct (pagination o) as [p|]; cbn;
    unfold renderPaginationControls; cbn;
    repeat match goal with |- context [if ?b then _ else _] => destruct b end; done.
Qed.

(** X2.  Whatever the answer to a fetch is, the loading indicator is hidden
    when the answer has been handled; no [alert] is raised, the button that
    clears the search is as it was, and of the variables only [totalPages] can
    have changed. *)
Theorem answer_hides_loading (env : Env) (r : FetchResult CardsObject) (s : State) :
  let s' := fetchAndDisplayCards_resume env r s in
  loadingMessage_display (dom s') = "none"
  ∧ alerts (dom s') = alerts (dom s)
  ∧ clearSearchButton_display (dom s') = clearSearchButton_display (dom s)
  ∧ vars s' = set_totalPages (totalPages (vars s')) (vars s).
Proof.
  intros s'. subst s'.
  assert (Hdom : loadingMessage_display (dom (fetchAndDisplayCards_resume env r s)) = "none"
                 ∧ alerts (dom (fetchAndDisplayCards_resume env r s)) = alerts (dom s)
                 ∧ clearSearchButton_display (dom (fetchAndDisplayCards_resume env r s))
                   = clearSearchButton_display (dom s)).
  { destruct (fetch_failed r) eqn:Hf.
    - by destruct (resume_failed env r s Hf) as [text [-> | ->]].
    - destruct r as [|status [| | | |o]]; try done.
      simpl in Hf. apply negb_false_iff in Hf.
      rewrite (resume_ok_object _ _ _ _ Hf).
      by destruct (render_result_dom o (with_dom (set_loadingMessage_display "none") s))
        as (-> & -> & -> & _). }
  destruct Hdom as (Hloading & Halerts & Hclear). split_and!; try done.
  destruct (resume_vars env r s) as [n Hn]. by rewrite Hn.
Qed.

Lemma or_null_trim_settled (x : string) (v : Vars) :
  search_settled (set_currentSearchQuery (Js.or_null (Js.trim x)) v).
Proof.
  unfold search_settled, Js.or_null. cbn [currentSearchQuery set_currentSearchQuery].
  destruct (String.eqb (Js.trim x) "") eqn:Hx; [by left|right].
  unfold has_text. cbn [Js.truthy Js.or_empty]. by rewrite trim_idemp, Hx.
Qed.

Lemma resolved_vars_settled (env : Env) (v : Vars) :
  search_settled v → search_settled (resolved_vars env v).
Proof. unfold search_settled. by rewrite resolved_vars_search. Qed.

Lemma fetching_settled (env : Env) (f : State → State) (w : World) :
  search_settled (vars (f (state w))) →
  search_settled (vars (state (fetching (λ s, fetchAndDisplayCards_start env (f s)) w))).
Proof. intros H. rewrite fetching_vars, start_vars. by apply resolved_vars_settled. Qed.

Lemma step_settled (env : Env) (ev : Event) (w : World) :
  search_settled (vars (state w)) →
  search_settled (vars (state (step env ev w))).
Proof.
  intros Hw.
  destruct ev; cbn [step]; try done.
  - by apply (fetching_settled env (λ s, with_vars (set_currentPage 1)
                                        (with_vars (set_currentSortBy _) s))).
  - by apply (fetching_settled env (λ s, with_vars (set_currentPage 1)
                                        (with_vars (set_currentSortOrder _) s))).
  - by apply (fetching_settled env (λ s, with_vars (set_currentPage 1)
                                        (with_vars (set_itemsPerPage _) s))).
  - destruct (String.eqb key "Enter"); [|done].
    apply (fetching_settled env (λ s, with_vars (set_currentPage 1)
                                     (with_vars (set_currentSearchQuery _) s))).
    apply (or_null_trim_settled _ (set_currentPage 1 (vars (state w)))).
  - by apply (fetching_settled env (λ s, with_vars (set_currentPage 1)
                                        (with_vars (set_currentCollectionName _) s))).
  - apply (fetching_settled env (λ s, with_vars (set_currentPage 1)
                                     (with_vars (set_currentSearchQuery _) s))).
    apply (or_null_trim_settled _ (set_currentPage 1 (vars (state w)))).
  - apply (fetching_settled env
             (λ s, with_dom (set_clearSearchButton_display "none")
                     (with_vars (set_currentPage 1)
                        (with_dom _ (with_vars (set_currentSearchQuery None) s))))).
    by left.
  - unfold pagination_click.
    destruct (_ !! _) as [[? page []|]|]; try done.
    by apply (fetching_settled env (with_vars (set_currentPage page))).
  - unfold pagination_click.
    destruct (_ !! _) as [[? page []|]|]; try done.
    by apply (fetching_settled env (with_vars (set_currentPage page))).
  - by destruct (_ !! _).
  - by destruct (_ !! _).
  - destruct (_ !! _); [|done]. by rewrite proceed_vars.
  - destruct (pending w !! index) as [[req []]|]; try done.
    cbn [state set_state].
    by destruct (resume_vars env r (state w)) as [n ->].
  - destruct (pending w !! index) as [[req []]|]; try done.
    by rewrite proceed_vars.
Qed.

Lemma loaded_settled (env : Env) (d : Dom) :
  search_settled (vars (state (loaded env d))).
Proof.
  unfold loaded. rewrite fetching_vars, start_vars. apply resolved_vars_settled.
  apply (or_null_trim_settled (searchInput (controls d))
           {| currentPage := 1;
              itemsPerPage := Js.parseInt (perPageSelect (controls d)) (Some 10);
              currentSortBy := sortBySelect (controls d);
              currentSortOrder := sortOrderSelect (controls d);
              currentCollectionName := Js.or_null (Js.trim (collectionNameInput (controls d)));
              currentSearchQuery := None;
              totalPages := 1 |}).
Qed.

Lemma run_settled (env : Env) (evs : list Event) (w : World) :
  search_settled (vars (state w)) →
  search_settled (vars (state (run env evs w))).
Proof.
  revert w. induction evs as [|ev evs IH]; intros w Hw; [done|].
  apply IH. by apply step_settled.
Qed.

Lemma start_threw_inv (env : Env) (s : State) (e : Js.Exception) :
  (fetchAndDisplayCards_start env s).2 = Threw e →
  has_text (currentSearchQuery (vars s)) = true
  ∨ Js.truthy (currentCollectionName (resolved_vars env (vars s))) = false.
Proof.
  unfold fetchAndDisplayCards_start.
  destruct (parseUrlParams_if_unset env _) as [s'|] eqn:Hp.
  - unfold build_url_and_fetch.
    rewrite (parseUrlParams_if_unset_vars _ _ _ Hp), collectionName_from_location_vars.
    rewrite resolved_vars_search. cbn [vars with_dom].
    destruct (has_text (currentSearchQuery (vars s))); [by left | done].
  - intros _. right. unfold parseUrlParams_if_unset in Hp.
    rewrite collectionName_from_location_vars in Hp. cbn [vars with_dom] in Hp.
    by destruct (Js.truthy (currentCollectionName (resolved_vars env (vars s)))).
Qed.

Lemma start_threw (env : Env) (s : State) :
  has_text (currentSearchQuery (vars s)) = true →
  ∃ e, (fetchAndDisplayCards_start env s).2 = Threw e.
Proof.
  intros Hq. destruct (fetchAndDisplayCards_start env s).2 as [req|e] eqn:Hs; [|by exists e].
  apply start_sent in Hs as [Hq' _]. congruence.
Qed.

(** X4.  In every state that a session reaches, a search query that is set has
    text.  While one is set, the listeners of the collection name, of the sort
    field, of the sort order, of the page size and of the pagination buttons
    send no request: their call of [fetchAndDisplayCards] ends with an
    exception. *)
Theorem search_blocks_other_controls (env : Env) (d : Dom) (evs : list Event) (page : Z) :
  let s := state (run env evs (loaded env d)) in
  Js.truthy (currentSearchQuery (vars s)) = true →
  (∃ e, (fetchCollectionButton_click env s).2 = Threw e)
  ∧ (∃ e, (sortBySelect_change env s).2 = Threw e)
  ∧ (∃ e, (sortOrderSelect_change env s).2 = Threw e)
  ∧ (∃ e, (perPageSelect_change env s).2 = Threw e)
  ∧ (∃ e, (pageButton_click env page s).2 = Threw e).
Proof.
  intros s Hset.
  assert (Hq : has_text (currentSearchQuery (vars s)) = true).
  { destruct (run_settled env evs _ (loaded_settled env d)) as [Hnone | Hq]; [|done].
    fold s in Hnone. by rewrite Hnone in Hset. }
  split_and!; by apply start_threw.
Qed.

Lemma search_blocks_other_controls_witness :
  let s := state (run plain_env [searchInput_input " pika chu "; searchButton_clicked]
                    (loaded plain_env (served "pokemon"))) in
  (∃ e, (fetchCollectionButton_click plain_env s).2 = Threw e)
  ∧ (∃ e, (sortBySelect_change plain_env s).2 = Threw e)
  ∧ (∃ e, (sortOrderSelect_change plain_env s).2 = Threw e)
  ∧ (∃ e, (perPageSelect_change plain_env s).2 = Threw e)
  ∧ (∃ e, (pageButton_click plain_env 2 s).2 = Threw e).
Proof.
  apply (search_blocks_other_controls plain_env (served "pokemon")
           [searchInput_input " pika chu "; searchButton_clicked] 2).
  vm_compute. reflexivity.
Defined.

Lemma start_dom (env : Env) (s : State) :
  Js.truthy (currentCollectionName (vars s)) = true →
  has_text (currentSearchQuery (vars s)) = false →
  dom (fetchAndDisplayCards_start env s).1
  = set_clearSearchButton_display "none"
      (set_area "" []
         (set_errorMessage_display "none" (set_loadingMessage_display "block" (dom s)))).
Proof.
  intros Hc Hq.
  unfold fetchAndDisplayCards_start, collectionName_from_location, parseUrlParams_if_unset,
    build_url_and_fetch.
  cbn [vars with_dom]. rewrite Hc. cbn [negb vars with_dom].
  rewrite Hc. cbn [negb vars with_dom]. by rewrite Hq.
Qed.

(** X5.  With a collection name set, the button that clears the search sends
    the request for page 1 of the state without search query, empties the
    search input and hides itself. *)
Theorem clear_search_recovers (env : Env) (s : State) :
  Js.truthy (currentCollectionName (vars s)) = true →
  let s' := (clearSearchButton_click env s).1 in
  (clearSearchButton_click env s).2
  = Sent (GET (baseUrl +:+ "/cards?"
               +:+ Js.searchParams_toString
                     (queryParams (set_currentPage 1 (set_currentSearchQuery None (vars s))))))
  ∧ vars s' = set_currentPage 1 (set_currentSearchQuery None (vars s))
  ∧ searchInput (controls (dom s')) = ""
  ∧ clearSearchButton_display (dom s') = "none".
Proof.
  intros Hc s'. subst s'. unfold clearSearchButton_click.
  split_and!.
  - by rewrite fetch_request_without_search.
  - rewrite start_vars. apply resolved_vars_id. by left.
  - by rewrite start_dom.
  - by rewrite start_dom.
Qed.

Lemma clear_search_recovers_witness :
  let s := state (run plain_env [searchInput_input "pika"; searchButton_clicked]
                    (loaded plain_env (served "pokemon"))) in
  (clearSearchButton_click plain_env s).2
  = Sent (GET (baseUrl +:+ "/cards?"
               +:+ Js.searchParams_toString
                     (queryParams (set_currentPage 1 (set_currentSearchQuery None (vars s))))))
  ∧ vars (clearSearchButton_click plain_env s).1
    = set_currentPage 1 (set_currentSearchQuery None (vars s))
  ∧ searchInput (controls (dom (clearSearchButton_click plain_env s).1)) = ""
  ∧ clearSearchButton_display (dom (clearSearchButton_click plain_env s).1) = "none".
Proof.
  apply (clear_search_recovers plain_env
           (state (run plain_env [searchInput_input "pika"; searchButton_clicked]
                     (loaded plain_env (served "pokemon"))))).
  vm_compute. reflexivity.
Defined.




Lemma with_card_ids (index : nat) (v : string) (d : Dom) :
  data_card_id <$> cardDisplayArea (with_card index (set_quantity_value v) d)
  = data_card_id <$> cardDisplayArea d
  ∧ data_card_id <$> cardDisplayArea (with_card index (set_quantity_input v) d)
    = data_card_id <$> cardDisplayArea d.
Proof.
  unfold with_card, set_area. cbn [cardDisplayArea].
  split.
  - rewrite (list_fmap_alter data_card_id (set_quantity_value v) (λ x, x))
      by (by apply Forall_forall).
    by rewrite list_alter_id.
  - rewrite (list_fmap_alter data_card_id (set_quantity_input v) (λ x, x))
      by (by apply Forall_forall).
    by rewrite list_alter_id.
Qed.

(** X7.  The answer to a quantity update, of [updateQuantity] or of the [PUT]
    of [updateQuantityByInput], adds, removes and reorders no card element,
    and leaves the pagination controls, the error element and the input
    controls alone; it raises one [alert] at most, which starts with the
    prefix of the function.  After an update that failed the card elements are
    as they were and the [alert] is raised. *)
Theorem update_keeps_cards (env : Env) (prefix : string) (clear_input : bool)
    (documentId : string) (r : FetchResult UpdateObject) (d : Dom) :
  let d' := update_response env prefix clear_input documentId r d in
  data_card_id <$> cardDisplayArea d' = data_card_id <$> cardDisplayArea d
  ∧ paginationControlsTop d' = paginationControlsTop d
  ∧ paginationControlsBottom d' = paginationControlsBottom d
  ∧ errorMessage_display d' = errorMessage_display d
  ∧ controls d' = controls d
  ∧ (alerts d' = alerts d ∨ ∃ text, alerts d' = alerts d ++ [prefix +:+ text])
  ∧ (update_failed r = true →
       cardDisplayArea d' = cardDisplayArea d
       ∧ ∃ text, alerts d' = alerts d ++ [prefix +:+ text]).
Proof.
  intros d'. subst d'. unfold update_response.
  assert (Hfail : ∀ text, let d' := alert (prefix +:+ text) d in
            data_card_id <$> cardDisplayArea d' = data_card_id <$> cardDisplayArea d
            ∧ paginationControlsTop d' = paginationControlsTop d
            ∧ paginationControlsBottom d' = paginationControlsBottom d
            ∧ errorMessage_display d' = errorMessage_display d
            ∧ controls d' = controls d
            ∧ (alerts d' = alerts d ∨ ∃ text, alerts d' = alerts d ++ [prefix +:+ text])
            ∧ (update_failed r = true →
                 cardDisplayArea d' = cardDisplayArea d
                 ∧ ∃ text, alerts d' = alerts d ++ [prefix +:+ text])).
  { intros text. split_and!; try done; [right|intros _; split; [done|]]; by exists text. }
  assert (Hshown : ∀ v index (b : bool),
            let d0 := with_card index (set_quantity_value v) d in
            let d' := if b then with_card index (set_quantity_input "") d0 else d0 in
            data_card_id <$> cardDisplayArea d' = data_card_id <$> cardDisplayArea d
            ∧ paginationControlsTop d' = paginationControlsTop d
            ∧ paginationControlsBottom d' = paginationControlsBottom d
            ∧ errorMessage_display d' = errorMessage_display d
            ∧ controls d' = controls d
            ∧ (alerts d' = alerts d ∨ ∃ text, alerts d' = alerts d ++ [prefix +:+ text])).
  { intros v index b d0 d'. subst d0 d'.
    destruct b; split_and!; try done; try (by left).
    - by rewrite !(proj2 (with_card_ids _ _ _)), !(proj1 (with_card_ids _ _ _)).
    - by rewrite !(proj1 (with_card_ids _ _ _)). }
  destruct r as [|status body]; [apply Hfail|].
  cbn [update_failed] in *.
  destruct (ok status) eqn:Hok; cbn [negb orb] in *.
  - destruct body as [| | | |o]; try apply Hfail.
    + destruct (querySelector_card documentId d) as [e|[index|]]; try apply Hfail.
      split_and!; try done. by left.
    + destruct (querySelector_card documentId d) as [e|[index|]]; try apply Hfail.
      * destruct (Hshown "" index clear_input) as (?&?&?&?&?&?). split_and!; done.
      * split_and!; try done. by left.
    + destruct (querySelector_card documentId d) as [e|[index|]]; try apply Hfail.
      * destruct (Hshown (match u_quantity o with Some q => pretty q | None => "" end)
                    index clear_input) as (?&?&?&?&?&?).
        split_and!; done.
      * split_and!; try done. by left.
  - destruct body as [| | | |o]; try apply Hfail.
    destruct (detail_truthy (u_detail o)); apply Hfail.
Qed.

Lemma update_keeps_cards_witness :
  let d := dom (state minus_pending) in
  let d' := update_response plain_env "Failed to update quantity: " false "c1"
              (Response 404 (JsonObject {| u_detail := Some (DetailString "Card not found");
                                            u_id := None;
                                            u_quantity := None |})) d in
  cardDisplayArea d' = cardDisplayArea d
  ∧ ∃ text, alerts d' = alerts d ++ ["Failed to update quantity: " +:+ text].
Proof.
  apply (update_keeps_cards plain_env "Failed to update quantity: " false "c1"
           (Response 404 (JsonObject {| u_detail := Some (DetailString "Card not found");
                                         u_id := None;
                                         u_quantity := None |}))
           (dom (state minus_pending))).
  vm_compute. reflexivity.
Defined.



Lemma has_text_trim (c : option string) :
  has_text c = true → Js.trim (Js.or_empty c) ≠ "".
Proof.
  unfold has_text. intros [_ H]%andb_true_iff.
  apply negb_true_iff in H. by apply String.eqb_neq in H.
Qed.

Lemma collection_query_same (c : option string) :
  Collection.collection_query c = collection_query c.
Proof.
  unfold Collection.collection_query, collection_query, has_text.
  destruct c as [c|]; done.
Qed.

Lemma collection_query_text (c : option string) :
  has_text c = true →
  ∃ q, collection_query c = String "?" q
       ∧ parse_query q = [("collectionName", Js.trim (Js.or_empty c))].
Proof.
  intros Hc. unfold collection_query. rewrite Hc.
  exists ("collectionName=" +:+ Js.encodeURIComponent (Js.trim (Js.or_empty c))).
  split; [done|].
  destruct (encodeURIComponent_separators (Js.trim (Js.or_empty c))) as (Hamp & _).
  change ("collectionName=" +:+ ?e) with ("collectionName" +:+ String "=" e).
  rewrite parse_query_single by done.
  by rewrite encodeURIComponent_decodes.
Qed.

(** X10.  The two scripts build the same query from a collection name: none
    for a name that is missing or blank, and otherwise [?collectionName=] with
    the trimmed name, encoded so that the receiver reads it back as it is. *)
Theorem collection_query_read_back (c : option string) :
  Collection.collection_query c = collection_query c
  ∧ match c with
    | Some name =>
        if String.eqb (Js.trim name) ""
        then collection_query c = ""
        else ∃ q, collection_query c = String "?" q
                  ∧ parse_query q = [("collectionName", Js.trim name)]
    | None => collection_query c = ""
    end.
Proof.
  split; [apply collection_query_same|].
  destruct c as [name|]; [|done].
  destruct (String.eqb_spec (Js.trim name) "") as [Hblank|Htext].
  - unfold collection_query, has_text. cbn [Js.truthy Js.or_empty].
    by rewrite Hblank, andb_false_r.
  - apply (collection_query_text (Some name)).
    unfold has_text. cbn [Js.truthy Js.or_empty].
    apply String.eqb_neq in Htext. rewrite Htext.
    destruct (String.eqb_spec name "") as [-> | Hname]; [done|]. done.
Qed.


Lemma non_numeric_input_rejected_witness :
  updateQuantityByInput plain_env "c1" "" (Some "pokemon") Rejected Rejected
    (dom (state minus_pending))
  = (alert "Please enter a valid number for quantity change." (dom (state minus_pending)), []).
Proof.
  apply (non_numeric_input_rejected plain_env "c1" "" (Some "pokemon")).
  reflexivity.
Defined.

End BrowserFacts.

Module CollectionEventsFacts.
Import Collection CollectionEvents Notions PrimitiveFacts BrowserFacts.

Lemma find_never (A : Type) (l : list A) : List.find (λ _, false) l = None.
Proof. by induction l. Qed.

(** X11.  A click on the name of a card opens nothing and changes nothing,
    whatever the cards are: the card that is handed over is no id. No call of
    [openEditModal] shows the modal. *)
Theorem card_name_click_opens_nothing (card : Card) (cardId : Argument) (p p' : Page) :
  cardName_click card p = inr p
  ∧ (openEditModal cardId p = inr p' → p' = p).
Proof.
  unfold cardName_click, openEditModal. split.
  - cbn [id_is]. by rewrite find_never.
  - destruct (List.find _ _); [done|]. by intros [= <-].
Qed.

(** X12.  The custom collection is asked for by its trimmed name, which the
    receiver reads back from the query of the address; a blank input asks for
    the default collection, with no query. [currentCollectionName] is set
    before the answer. *)
Theorem custom_collection_request (customCollectionName : string) (p : Page) :
  let name := Js.trim customCollectionName in
  let out := viewCustomCollection_click customCollectionName p in
  currentCollectionName out.1 = Js.or_null name
  ∧ currentCards out.1 = currentCards p
  ∧ my_cards_area out.1 = my_cards_area p
  ∧ (if String.eqb name ""
     then out.2 = GET (API_BASE_URL +:+ "/cards")
     else ∃ q, out.2 = GET ((API_BASE_URL +:+ "/cards") +:+ String "?" q)
               ∧ parse_query q = [("collectionName", name)]).
Proof.
  intros name out. subst name out.
  unfold viewCustomCollection_click, Js.truthy, Js.or_null, fetchCards_start, GET_CARDS.
  destruct (String.eqb (Js.trim customCollectionName) "") eqn:Hblank; cbn [negb fst snd].
  - split_and!; try done.
  - split_and!; try done.
    assert (Htext : AdminCards.has_text (Some (Js.trim customCollectionName)) = true).
    { unfold AdminCards.has_text. cbn [Js.truthy Js.or_empty].
      by rewrite trim_idemp, Hblank. }
    rewrite collection_query_same.
    destruct (collection_query_text _ Htext) as (q & -> & Hq).
    cbn [Js.or_empty] in Hq. rewrite trim_idemp in Hq. by exists q.
Qed.

End CollectionEventsFacts.

Module AdminCollectionsFacts.
Import AdminCollections AdminCollectionsNotions.

(** X13.  The list is asked for again exactly after an ok answer, whatever the
    body of that answer, and the modal is hidden then; after every other
    answer the modal is as it was. One alert is added when the container is
    there: "success" after an ok answer, "danger" otherwise, with a message
    that starts with "Failed to add collection: ". The table is not touched. *)
Theorem add_collection_outcome (message : Js.Exception → string)
    (r : AdminCards.FetchResult (option AdminCards.Detail)) (p : Page) (alerts : list Alert) :
  alerts_container p = Some alerts →
  let out := handleCollectionSubmit_resume message r p in
  collections_table_body out.1 = collections_table_body p
  ∧ (if answer_ok r
     then out.2 = Some (GET GET_ALL_COLLECTIONS)
          ∧ collectionModal_shown out.1 = false
          ∧ shown out.1
            = alerts ++ [{| alert_type := "success";
                            alert_message := "Collection added successfully!" |}]
     else out.2 = None
          ∧ collectionModal_shown out.1 = collectionModal_shown p
          ∧ ∃ text, shown out.1
                    = alerts ++ [{| alert_type := "danger";
                                    alert_message := "Failed to add collection: " +:+ text |}]).
Proof.
  intros Halerts out. subst out.
  unfold handleCollectionSubmit_resume, answer_ok, displayError, displaySuccess, displayAlert,
    shown.
  destruct r as [|status body]; cbn [alerts_container]; rewrite ?Halerts.
  - split; [done|]. split_and!; try done. by eexists.
  - destruct (AdminCards.ok status); cbn [negb alerts_container]; rewrite ?Halerts.
    + done.
    + destruct body as [| | | |detail]; try destruct (AdminCards.detail_truthy detail);
        rewrite ?Halerts; (split; [done|]); split_and!; try done; by eexists.
Qed.

Lemma add_collection_outcome_witness :
  let p := {| collections_table_body := Some [];
              alerts_container := Some [];
              collectionModal_shown := true |} in
  let out := handleCollectionSubmit_resume (λ _, "")
               (AdminCards.Response 201 AdminCards.NoBody) p in
  collections_table_body out.1 = collections_table_body p
  ∧ (if answer_ok (AdminCards.Response 201 AdminCards.NoBody)
     then out.2 = Some (GET GET_ALL_COLLECTIONS)
          ∧ collectionModal_shown out.1 = false
          ∧ shown out.1
            = [] ++ [{| alert_type := "success";
                        alert_message := "Collection added successfully!" |}]
     else out.2 = None
          ∧ collectionModal_shown out.1 = collectionModal_shown p
          ∧ ∃ text, shown out.1
                    = [] ++ [{| alert_type := "danger";
                                alert_message := "Failed to add collection: " +:+ text |}]).
Proof.
  apply (add_collection_outcome (λ _, "") (AdminCards.Response 201 AdminCards.NoBody)
           {| collections_table_body := Some [];
              alerts_container := Some [];
              collectionModal_shown := true |} []).
  reflexivity.
Defined.

(** X14.  With the table in the document, an ok answer whose body is an array
    of collections replaces the rows, one row for each collection in the
    order of the answer, whatever the table showed, and adds no alert.  An ok
    answer whose body is JSON and no array empties the table and adds the
    "danger" alert.  An answer that is not ok or whose body is no JSON, and a
    request that fails, keep the rows and add the alert.  Without the table
    an ok answer of JSON changes nothing, whatever it holds. *)
Theorem collections_table_follows_answer (r : Collection.Outcome Collections) (p : Page) :
  let p' := fetchAllCollections_resume r p in
  let danger :=
    match alerts_container p with
    | Some _ => [{| alert_type := "danger";
                    alert_message := "Failed to load collections. Please try again." |}]
    | None => []
    end in
  match r, collections_table_body p with
  | Collection.Ok _, None => p' = p
  | Collection.Ok (CollectionsArray collections), Some _ =>
      collections_table_body p'
      = Some ((λ c, {| nameCell := name c;
                       firestoreCollectionCell := firestoreCollection c;
                       storagePrefixCell := storagePrefix c;
                       viewBtn_href :=
                         "http://localhost:8080/gacha/api/v1/storage/cards?collectionName="
                         +:+ name c |}) <$> collections)
      ∧ alerts_container p' = alerts_container p
  | Collection.Ok _, Some _ =>
      collections_table_body p' = Some [] ∧ shown p' = shown p ++ danger
  | _, _ =>
      collections_table_body p' = collections_table_body p ∧ shown p' = shown p ++ danger
  end.
Proof.
  intros p' danger. subst p' danger.
  unfold fetchAllCollections_resume, displayCollections, displayError, displayAlert, shown,
    set_collections_table_body.
  destruct r as [| | |[|collections|]];
    destruct (collections_table_body p) as [rows|] eqn:Hrows;
    destruct (alerts_container p) as [alerts|] eqn:Ha;
    cbn [collections_table_body alerts_container default];
    rewrite ?Ha, ?Hrows; cbn [collections_table_body alerts_container default];
    rewrite ?Ha, ?app_nil_r; done.
Qed.

(** The table shows one row and the answer is 200 with the body [{}]: the row
    is gone and the alert is there. *)
Example collections_table_emptied :
  let p := {| collections_table_body :=
                Some [row_of {| name := "old"; firestoreCollection := "o";
                                storagePrefix := "o/" |}];
              alerts_container := Some [];
              collectionModal_shown := false |} in
  let p' := fetchAllCollections_resume (Collection.Ok CollectionsOther) p in
  collections_table_body p' = Some []
  ∧ shown p' = [{| alert_type := "danger";
                   alert_message := "Failed to load collections. Please try again." |}].
Proof. done. Qed.

End AdminCollectionsFacts.

Module UploadCardFacts.
Import UploadCard UploadCardNotions Notions PrimitiveFacts.

(** X15.  The request goes out exactly when an image is selected; without one
    the message asks for it. The collection stands in the query of the
    address, from which the receiver reads it back as it was selected, and in
    no entry of the form data. *)
Theorem upload_needs_image (p : Page) :
  ((submit p).2 = None ↔ image_file (fields p) = None)
  ∧ (image_file (fields p) = None →
       message_textContent (submit p).1 = "Please select an image file."
       ∧ message_className (submit p).1 = "error")
  ∧ ∀ req, (submit p).2 = Some req →
      ("collection_metadata_id" ∉ entry_name <$> formData req)
      ∧ (entry_name <$> formData req)
        = ["card_name"; "rarity"; "point_worth"; "quantity"; "date_got_in_stock";
           "image_file"]
      ∧ (if Js.truthy (Some (collection_metadata_id (fields p)))
         then ∃ q, url req = backendUrl +:+ String "?" q
                   ∧ parse_query q
                     = [("collection_metadata_id", collection_metadata_id (fields p))]
         else url req = backendUrl).
Proof.
  unfold submit. cbn [fields set_message].
  destruct (image_file (fields p)) as [imageFile|]; cbn [snd fst].
  - split_and!; try done.
    intros req [= <-]. cbn [formData url]. split_and!.
    + csimpl. rewrite !not_elem_of_cons. split_and!; try done. apply not_elem_of_nil.
    + done.
    + unfold Js.truthy. destruct (negb _); [|done].
      exists ("collection_metadata_id="
              +:+ Js.encodeURIComponent (collection_metadata_id (fields p))).
      split; [done|].
      destruct (encodeURIComponent_separators (collection_metadata_id (fields p)))
        as (Hamp & _).
      change ("collection_metadata_id=" +:+ ?e)
        with ("collection_metadata_id" +:+ String "=" e).
      rewrite parse_query_single by done.
      by rewrite encodeURIComponent_decodes.
  - split_and!; done.
Qed.

(** X16.  Whatever the answer is, the message ends as a success or as an
    error: a success exactly for an ok status with a JSON body that is not
    [null], and then the form is reset; every other answer, an ok one without
    a JSON body among them, leaves the controls as they are. *)
Theorem upload_outcome (r : AdminCards.FetchResult UploadObject) (p : Page) :
  let p' := submit_resume r p in
  (if upload_accepted r
   then message_className p' = "success" ∧ fields p' = defaults p
   else message_className p' = "error" ∧ fields p' = fields p)
  ∧ message_textContent p' ≠ ""
  ∧ defaults p' = defaults p.
Proof.
  intros p'. subst p'. unfold submit_resume, upload_accepted.
  destruct r as [|status [| | | |o]]; try done;
    destruct (AdminCards.ok status); done.
Qed.

End UploadCardFacts.

Module UploadCardFormFacts.
Import Promise UploadCardForm.

(** X17.  For an answer that is not ok the message is made of the status
    alone: the [detail] of the body, read or not, is replaced by the handler
    that follows its [throw]. Status 405 has a message of its own. *)
Theorem upload_failure_hides_detail (message : Js.Exception → string) (status : Z)
    (body : AdminCards.Body (option AdminCards.Detail)) (p : Page) :
  AdminCards.ok status = false →
  let p' := submit_resume message (AdminCards.Response status body) p in
  messageDiv p'
  = Some {| class := "error";
            text := "Error: "
                    +:+ (if status =? 405
                         then "Method Not Allowed: This endpoint only accepts POST requests"
                         else "Upload failed with status " +:+ pretty status) |}
  ∧ uploadForm_reset p' = uploadForm_reset p.
Proof.
  intros Hok p'. subst p'. unfold submit_resume. cbn [fetch then_]. rewrite Hok. cbn [negb].
  destruct (status =? 405); [done|].
  destruct body as [| | | |detail]; try done.
Qed.

Lemma upload_failure_hides_detail_witness :
  let p := {| collectionDropdown_value := "pokemon";
              collection_backup_value := Some "";
              messageDiv := None;
              uploadForm_reset := false |} in
  let p' := submit_resume (λ _, "")
              (AdminCards.Response 422
                 (AdminCards.JsonObject (Some (AdminCards.DetailString "rarity is required"))))
              p in
  messageDiv p'
  = Some {| class := "error";
            text := "Error: " +:+ (if 422 =? 405
                                   then "Method Not Allowed: This endpoint only accepts POST requests"
                                   else "Upload failed with status " +:+ pretty 422) |}
  ∧ uploadForm_reset p' = uploadForm_reset p.
Proof.
  apply (upload_failure_hides_detail (λ _, "") 422
           (AdminCards.JsonObject (Some (AdminCards.DetailString "rarity is required")))).
  reflexivity.
Defined.

Lemma filter_delete_same (name : string) (formData : list (string * string)) :
  filter (λ entry, entry.1 = name) (delete name formData) = [].
Proof.
  unfold delete. induction formData as [|e es IH]; [done|].
  rewrite filter_cons. case_decide as He; [|done].
  rewrite filter_cons. by case_decide.
Qed.

Lemma filter_delete_other (name : string) (formData : list (string * string)) :
  filter (λ entry, entry.1 ≠ name) (delete name formData)
  = filter (λ entry, entry.1 ≠ name) formData.
Proof.
  unfold delete. induction formData as [|e es IH]; [done|].
  rewrite !filter_cons. case_decide as He; [|done].
  rewrite filter_cons. case_decide; [|done]. by rewrite IH.
Qed.

(** X18.  With a collection selected, the form data that go out hold one entry
    [collection_metadata_id], the selected value, after the other entries of
    the form, which are kept in their order; the address of the request has no
    query. *)
Theorem collection_id_sent_once (entries : list (string * string)) (p : Page)
    (req : Request) :
  Js.truthy (Some (collectionDropdown_value p)) = true →
  (submit entries p).2 = inr req →
  url req = backendUrl
  ∧ filter (λ entry, entry.1 = "collection_metadata_id") (body req)
    = [("collection_metadata_id", collectionDropdown_value p)]
  ∧ filter (λ entry, entry.1 ≠ "collection_metadata_id") (body req)
    = filter (λ entry, entry.1 ≠ "collection_metadata_id") entries
  ∧ last (body req) = Some ("collection_metadata_id", collectionDropdown_value p)
  ∧ collection_backup_value (submit entries p).1 = Some (collectionDropdown_value p).
Proof.
  intros Hsel. unfold submit.
  cbn [collectionDropdown_value collection_backup_value set_messageDiv].
  destruct (collection_backup_value p) as [backup|]; [|done].
  rewrite Hsel. intros [= <-]. cbn [url body snd fst collection_backup_value]. unfold append.
  split_and!; try done.
  - rewrite filter_app, filter_delete_same. done.
  - rewrite filter_app, filter_delete_other. cbn. by rewrite app_nil_r.
  - by rewrite last_snoc.
Qed.

Lemma collection_id_sent_once_witness :
  let p := {| collectionDropdown_value := "pokemon";
              collection_backup_value := Some "";
              messageDiv := None;
              uploadForm_reset := false |} in
  let entries := [ ("card_name", "Pikachu"); ("collection_metadata_id", "pokemon");
                   ("rarity", "Rare"); ("collection_backup", "pokemon") ] in
  let req := {| url := backendUrl;
                body := [ ("card_name", "Pikachu"); ("rarity", "Rare");
                          ("collection_backup", "pokemon");
                          ("collection_metadata_id", "pokemon") ] |} in
  url req = backendUrl
  ∧ filter (λ entry, entry.1 = "collection_metadata_id") (body req)
    = [("collection_metadata_id", collectionDropdown_value p)]
  ∧ filter (λ entry, entry.1 ≠ "collection_metadata_id") (body req)
    = filter (λ entry, entry.1 ≠ "collection_metadata_id") entries
  ∧ last (body req) = Some ("collection_metadata_id", collectionDropdown_value p)
  ∧ collection_backup_value (submit entries p).1 = Some (collectionDropdown_value p).
Proof.
  apply (collection_id_sent_once
           [ ("card_name", "Pikachu"); ("collection_metadata_id", "pokemon");
             ("rarity", "Rare"); ("collection_backup", "pokemon") ]
           {| collectionDropdown_value := "pokemon";
              collection_backup_value := Some "";
              messageDiv := None;
              uploadForm_reset := false |});
    vm_compute; reflexivity.
Defined.

End UploadCardFormFacts.

Module AddPackFacts.
Import AddPack AddPackNotions.

Lemma check_group_inr (F : Floats) (i : nat) (group : RarityGroup)
    (config config' : gmap string (float F)) :
  check_group F i group config = inr config' ↔
  group_ok F group ∧ config !! name_of group = None
  ∧ ∃ probability, probability_of F group = Some probability
                   ∧ config' = <[name_of group := probability]> config.
Proof.
  unfold check_group, group_ok, probability_of, name_of.
  destruct (String.eqb_spec (Js.trim (rarityName_value group)) "") as [Hn|Hn].
  { split; [done|]. by intros [[? _] _]. }
  destruct (String.eqb_spec (Js.trim (rarityProbability_value group)) "") as [Hp|Hp].
  { split; [done|]. by intros [(_ & ? & _) _]. }
  destruct (parseFloat F _) as [probability|] eqn:Hparse.
  2:{ split; [done|]. by intros [(_ & _ & ? & ? & _) _]. }
  destruct (less_than_0 F probability) eqn:Hlt; cbn [orb].
  { split; [done|]. intros [(_ & _ & ? & [= <-] & ? & _) _]. congruence. }
  destruct (greater_than_1 F probability) eqn:Hgt.
  { split; [done|]. intros [(_ & _ & ? & [= <-] & _ & ?) _]. congruence. }
  case_bool_decide as Hdup.
  { split; [done|]. intros (_ & Hnone & _). rewrite Hnone in Hdup. by destruct Hdup. }
  apply eq_None_not_Some in Hdup.
  split.
  - intros [= <-]. split_and!; try done; by exists probability.
  - intros (_ & _ & ? & [= <-] & ->). done.
Qed.

(** The loop goes through exactly when every group passes the tests on its
    fields and no name occurs twice or is in the object already; the object
    then has the entries of the groups added. *)
Lemma check_groups_inr (F : Floats) (groups : list RarityGroup) (i : nat)
    (config config' : gmap string (float F)) :
  check_groups F i groups config = inr config' ↔
  Forall (group_ok F) groups
  ∧ NoDup (name_of <$> groups)
  ∧ (∀ group, group ∈ groups → config !! name_of group = None)
  ∧ (∀ name, config' !! name
             = match list_find (λ group, name_of group = name) groups with
               | Some (_, group) => probability_of F group
               | None => config !! name
               end).
Proof.
  revert i config. induction groups as [|group rest IH]; intros i config.
  - cbn. split.
    + intros [= <-]. split_and!; try done; [constructor | by intros ? ?%elem_of_nil].
    + intros (_ & _ & _ & Hsame). f_equal. apply map_eq. intros name. by rewrite Hsame.
  - cbn [check_groups]. destruct (check_group F i group config) as [message|config1] eqn:Hg.
    + split; [done|]. intros (Hok & Hdup & Hfree & _).
      assert (Hinr : ∃ c, check_group F i group config = inr c).
      { apply Forall_cons in Hok as [Hok _].
        destruct Hok as (Hn & Hp & probability & Hparse & Hlt & Hgt).
        exists (<[name_of group := probability]> config).
        apply check_group_inr. split_and!.
        - split_and!; try done. by exists probability.
        - apply Hfree. by left.
        - by exists probability. }
      destruct Hinr as [c Hc]. congruence.
    + apply check_group_inr in Hg as (Hok & Hnone & probability & Hprob & ->).
      rewrite IH. csimpl. rewrite Forall_cons, NoDup_cons. split.
      * intros (Hrest & Hdup & Hfree & Hlook). split_and!; try done.
        -- intros Hin. apply list_elem_of_fmap in Hin as (g & Hg & Hin).
           specialize (Hfree g Hin). rewrite <- Hg, lookup_insert_eq in Hfree. done.
        -- intros g [-> | Hin]%elem_of_cons; [done|].
           specialize (Hfree g Hin).
           apply lookup_insert_None in Hfree. by destruct Hfree.
        -- intros name. rewrite Hlook. cbn [list_find].
           case_decide as Hname.
           ++ destruct (list_find _ rest) as [[j g]|] eqn:Hfind; cbn.
              ** apply list_find_Some in Hfind as (Hj & Hg & _).
                 apply list_elem_of_lookup_2 in Hj.
                 specialize (Hfree g Hj). rewrite Hg, <- Hname, lookup_insert_eq in Hfree.
                 done.
              ** by rewrite <- Hname, lookup_insert_eq.
           ++ destruct (list_find _ rest) as [[j g]|] eqn:Hfind; cbn; [done|].
              by rewrite lookup_insert_ne.
      * intros ((_ & Hrest) & (Hnotin & Hdup) & Hfree & Hlook). split_and!; try done.
        -- intros g Hin. apply lookup_insert_None. split.
           ++ apply Hfree. by right.
           ++ intros Heq. apply Hnotin. apply list_elem_of_fmap. by exists g.
        -- intros name. rewrite Hlook. cbn [list_find].
           case_decide as Hname.
           ++ destruct (list_find _ rest) as [[j g]|] eqn:Hfind; cbn.
              ** apply list_find_Some in Hfind as (Hj & Hg & _).
                 apply list_elem_of_lookup_2 in Hj. destruct Hnotin.
                 apply list_elem_of_fmap. exists g. by rewrite Hg.
              ** by rewrite <- Hname, lookup_insert_eq.
           ++ destruct (list_find _ rest) as [[j g]|] eqn:Hfind; cbn; [done|].
              by rewrite lookup_insert_ne.
Qed.

Lemma check_groups_app (F : Floats) (prefix rest : list RarityGroup) (i : nat)
    (config config1 : gmap string (float F)) :
  check_groups F i prefix config = inr config1 →
  check_groups F i (prefix ++ rest) config
  = check_groups F (i + length prefix) rest config1.
Proof.
  revert i config. induction prefix as [|g prefix IH]; intros i config; cbn.
  - intros [= <-]. by rewrite Nat.add_0_r.
  - destruct (check_group F i g config) as [m|c]; [done|].
    intros H. rewrite (IH _ _ H). f_equal. lia.
Qed.

Lemma check_groups_passes (F : Floats) (groups : list RarityGroup) (i : nat)
    (config : gmap string (float F)) :
  Forall (group_ok F) groups →
  NoDup (name_of <$> groups) →
  (∀ group, group ∈ groups → config !! name_of group = None) →
  ∃ config', check_groups F i groups config = inr config'.
Proof.
  revert i config. induction groups as [|g gs IH]; intros i config Hok Hdup Hfree.
  { by eexists. }
  apply Forall_cons in Hok as [Hg Hok]. csimpl in Hdup.
  apply NoDup_cons in Hdup as [Hnotin Hdup].
  pose proof Hg as (_ & _ & q & Hq & _).
  assert (Hc : check_group F i g config = inr (<[name_of g := q]> config)).
  { apply check_group_inr. split_and!; [done | apply Hfree; by left | by exists q]. }
  cbn [check_groups]. rewrite Hc. apply IH; [done..|].
  intros g' Hin. apply lookup_insert_None. split.
  - apply Hfree. by right.
  - intros Heq. apply Hnotin, list_elem_of_fmap. by exists g'.
Qed.

(** X19.  For the values that number inputs hold, the form data go out exactly
    when the name of the pack is not blank, there is a group, every group
    passes the tests on its fields, and no rarity name occurs twice; they
    carry the trimmed name of the pack and, under each rarity name, the
    probability read from its group. *)
Theorem valid_form_is_sent (F : Floats) (p : Page) :
  number_inputs (raritiesContainer p) →
  ((submit F p).2 ≠ None ↔
     Js.trim (packName_value p) ≠ ""
     ∧ raritiesContainer p ≠ []
     ∧ Forall (group_ok F) (raritiesContainer p)
     ∧ NoDup (name_of <$> raritiesContainer p))
  ∧ ∀ data, (submit F p).2 = Some data →
      pack_name data = Js.trim (packName_value p)
      ∧ image_file data = packImage_file p
      ∧ dom (rarities_config data) = list_to_set (name_of <$> raritiesContainer p)
      ∧ ∀ group, group ∈ raritiesContainer p →
          rarities_config data !! name_of group = probability_of F group.
Proof.
  intros _. unfold submit. cbn [packName_value set_responseMessage raritiesContainer
                                  packImage_file].
  destruct (String.eqb_spec (Js.trim (packName_value p)) "") as [Hn|Hn].
  { split; [|done]. split; [done|]. by intros [? _]. }
  destruct (raritiesContainer p) as [|g gs] eqn:Hgroups.
  { split; [|done]. split; [done|]. by intros (_ & ? & _). }
  destruct (check_groups F 0 (g :: gs) ∅) as [message|config] eqn:Hcheck.
  - split; [|done]. split; [done|]. intros (_ & _ & Hok & Hdup).
    destruct (check_groups_passes F (g :: gs) 0 ∅ Hok Hdup) as [c Hc]; [done|].
    congruence.
  - apply check_groups_inr in Hcheck as (Hok & Hdup & _ & Hlook).
    split; [split; [by intros _ | done]|].
    intros data [= <-]. cbn [pack_name image_file rarities_config].
    split_and!; try done.
    + apply set_eq. intros name. rewrite elem_of_dom, Hlook, elem_of_list_to_set.
      destruct (list_find _ (g :: gs)) as [[j g']|] eqn:Hfind.
      * apply list_find_Some in Hfind as (Hj & Hg' & _).
        apply list_elem_of_lookup_2 in Hj.
        split.
        -- intros _. apply list_elem_of_fmap. by exists g'.
        -- intros _. rewrite Forall_forall in Hok.
           destruct (Hok g' Hj) as (_ & _ & q & Hq & _).
           unfold probability_of. by rewrite Hq.
      * rewrite lookup_empty. split; [by intros [? ?]|].
        intros (g' & Hg' & Hin)%list_elem_of_fmap.
        apply list_find_None in Hfind. rewrite Forall_forall in Hfind.
        by destruct (Hfind g' Hin).
    + intros group Hin. rewrite Hlook.
      destruct (list_find _ (g :: gs)) as [[j g']|] eqn:Hfind.
      * apply list_find_Some in Hfind as (Hj & Hg' & Hfirst).
        apply list_elem_of_lookup in Hin as [k Hk].
        assert (j = k) as ->.
        { eapply NoDup_lookup; [exact Hdup| |];
            rewrite list_lookup_fmap; [by rewrite Hj | by rewrite Hk; cbn; rewrite Hg']. }
        congruence.
      * apply list_find_None in Hfind. rewrite Forall_forall in Hfind.
        by destruct (Hfind group Hin).
Qed.

Lemma valid_form_is_sent_witness :
  let p := filled " Starter " [("1", "0"); ("2", "1")] in
  ((submit whole_numbers p).2 ≠ None ↔
     Js.trim (packName_value p) ≠ ""
     ∧ raritiesContainer p ≠ []
     ∧ Forall (group_ok whole_numbers) (raritiesContainer p)
     ∧ NoDup (name_of <$> raritiesContainer p))
  ∧ ∀ data, (submit whole_numbers p).2 = Some data →
      pack_name data = Js.trim (packName_value p)
      ∧ image_file data = packImage_file p
      ∧ dom (rarities_config data) = list_to_set (name_of <$> raritiesContainer p)
      ∧ ∀ group, group ∈ raritiesContainer p →
          rarities_config data !! name_of group = probability_of whole_numbers group.
Proof.
  apply (valid_form_is_sent whole_numbers (filled " Starter " [("1", "0"); ("2", "1")])).
  repeat constructor.
Defined.

Lemma submit_checked (F : Floats) (p : Page) :
  Js.trim (packName_value p) ≠ "" →
  raritiesContainer p ≠ [] →
  submit F p
  = match check_groups F 0 (raritiesContainer p) ∅ with
    | inl message =>
        (set_responseMessage message "error" (set_responseMessage "" "" p), None)
    | inr raritiesConfig =>
        (set_responseMessage "" "" p,
         Some {| pack_name := Js.trim (packName_value p);
                 rarities_config := raritiesConfig;
                 image_file := packImage_file p |})
    end.
Proof.
  intros Hname Hgroups. unfold submit.
  cbn [packName_value set_responseMessage raritiesContainer packImage_file].
  apply String.eqb_neq in Hname. rewrite Hname.
  by destruct (raritiesContainer p).
Qed.

Lemma passed_prefix (F : Floats) (prefix : list RarityGroup) :
  Forall (group_ok F) prefix →
  NoDup (name_of <$> prefix) →
  ∃ config, check_groups F 0 prefix ∅ = inr config
            ∧ ∀ group, group_ok F group →
                (name_of group ∈ name_of <$> prefix ↔ is_Some (config !! name_of group)).
Proof.
  intros Hok Hdup.
  destruct (check_groups_passes F prefix 0 ∅ Hok Hdup) as [config Hc]; [done|].
  exists config. split; [done|].
  apply check_groups_inr in Hc as (_ & _ & _ & Hlook).
  intros group _. rewrite Hlook.
  destruct (list_find _ prefix) as [[j g']|] eqn:Hfind.
  - apply list_find_Some in Hfind as (Hj & Hg' & _).
    apply list_elem_of_lookup_2 in Hj. split.
    + intros _. rewrite Forall_forall in Hok.
      destruct (Hok g' Hj) as (_ & _ & q & Hq & _).
      unfold probability_of. by rewrite Hq.
    + intros _. apply list_elem_of_fmap. by exists g'.
  - rewrite lookup_empty. split; [|by intros [? ?]].
    intros (g' & Hg' & Hin)%list_elem_of_fmap.
    apply list_find_None in Hfind. rewrite Forall_forall in Hfind.
    by destruct (Hfind g' Hin).
Qed.

(** X20.  The message is about the first group, in document order, that fails:
    the groups before it pass, and the number in the message is the place of
    the group among the groups of the container, counted from 1. Nothing is
    sent. *)
Theorem first_failure_is_reported (F : Floats) (p : Page)
    (prefix : list RarityGroup) (group : RarityGroup) (rest : list RarityGroup) :
  number_inputs (raritiesContainer p) →
  Js.trim (packName_value p) ≠ "" →
  raritiesContainer p = prefix ++ group :: rest →
  Forall (group_ok F) prefix →
  NoDup (name_of <$> prefix) →
  let place := pretty (length prefix + 1)%nat in
  let reported (message : string) :=
    submit F p = (set_responseMessage message "error" (set_responseMessage "" "" p), None) in
  (name_of group = "" →
     reported ("Rarity Level Name for Rarity configuration " +:+ place
               +:+ " cannot be empty."))
  ∧ (name_of group ≠ "" → Js.trim (rarityProbability_value group) = "" →
       reported ("Probability for Rarity " +:+ place +:+ " cannot be empty."))
  ∧ (name_of group ≠ "" → Js.trim (rarityProbability_value group) ≠ "" →
     ¬ group_ok F group →
       reported ("Invalid probability for Rarity " +:+ place
                 +:+ ". Must be a number between 0.0 and 1.0."))
  ∧ (group_ok F group → name_of group ∈ name_of <$> prefix →
       reported ("Duplicate Rarity Level Name: '" +:+ name_of group
                 +:+ "'. Each rarity name must be unique.")).
Proof.
  intros _ Hname Hgroups Hok Hdup place reported. subst place reported.
  destruct (passed_prefix F prefix Hok Hdup) as (config & Hprefix & Hin).
  assert (Hsubmit : ∀ message,
            check_group F (length prefix) group config = inl message →
            submit F p
            = (set_responseMessage message "error" (set_responseMessage "" "" p), None)).
  { intros message Hg. rewrite submit_checked; [|done|].
    - rewrite Hgroups.
      rewrite (check_groups_app F prefix (group :: rest) 0 ∅ config Hprefix).
      cbn [check_groups Nat.add]. by rewrite Hg.
    - rewrite Hgroups. by destruct prefix. }
  unfold name_of in *.
  split_and!.
  - intros Hn. apply Hsubmit. unfold check_group. by rewrite Hn.
  - intros Hn Hp. apply Hsubmit. unfold check_group.
    apply String.eqb_neq in Hn. by rewrite Hn, Hp.
  - intros Hn Hp Hbad. apply Hsubmit. unfold check_group.
    pose proof Hn as Hn'. pose proof Hp as Hp'.
    apply String.eqb_neq in Hn', Hp'. rewrite Hn', Hp'.
    destruct (parseFloat F _) as [q|] eqn:Hq; [|done].
    destruct (less_than_0 F q) eqn:Hlt; [done|].
    destruct (greater_than_1 F q) eqn:Hgt; [done|].
    destruct Hbad. split_and!; try done. by exists q.
  - intros Hg Hmember. apply Hsubmit.
    apply (Hin group Hg) in Hmember.
    destruct Hg as (Hn & Hp & q & Hq & Hlt & Hgt). unfold name_of in Hn.
    unfold check_group.
    apply String.eqb_neq in Hn, Hp. rewrite Hn, Hp, Hq, Hlt, Hgt.
    cbn [orb]. by rewrite bool_decide_eq_true_2.
Qed.

Lemma first_failure_is_reported_witness :
  let p := filled "Starter" [("1", "0"); ("2", "1"); ("1", "1"); ("", "")] in
  submit whole_numbers p
  = (set_responseMessage
       ("Duplicate Rarity Level Name: '" +:+ "1" +:+ "'. Each rarity name must be unique.")
       "error" (set_responseMessage "" "" p), None).
Proof.
  apply (first_failure_is_reported whole_numbers
           (filled "Starter" [("1", "0"); ("2", "1"); ("1", "1"); ("", "")])
           [ {| data_index := 0; rarityName_value := "1"; rarityProbability_value := "0" |};
             {| data_index := 1; rarityName_value := "2"; rarityProbability_value := "1" |} ]
           {| data_index := 2; rarityName_value := "1"; rarityProbability_value := "1" |}
           [ {| data_index := 3; rarityName_value := ""; rarityProbability_value := "" |} ]).
  - repeat constructor.
  - discriminate.
  - reflexivity.
  - repeat constructor; try discriminate; by eexists.
  - repeat constructor; rewrite ?elem_of_cons, ?elem_of_nil;
      intros H; repeat destruct H as [H|H]; discriminate || done.
  - repeat split; try discriminate. by eexists.
  - left.
Defined.

Lemma numbered_add (p : Page) : numbered p → numbered (addRarityConfiguration p).
Proof.
  intros [Hbound Hinc].
  assert (Hlen : (length (raritiesContainer p) ≤ rarityGroupIndex p)%nat).
  { destruct (raritiesContainer p) as [|g0 gs0] eqn:E using rev_ind; [cbn; lia|].
    rewrite <- E in *. clear IHgs0.
    assert (Hlast : raritiesContainer p !! length gs0 = Some g0).
    { rewrite E. by apply list_lookup_middle. }
    specialize (Hbound _ _ Hlast). rewrite E, length_app. cbn. lia. }
  unfold numbered, addRarityConfiguration. cbn [raritiesContainer rarityGroupIndex].
  split.
  - intros i g [Hi | [Hi Hg]]%lookup_app_Some.
    + specialize (Hbound _ _ Hi). lia.
    + apply list_lookup_singleton_Some in Hg as [Hz <-]. cbn. lia.
  - intros i j gi gj Hij [Hi | [Hi Hgi]]%lookup_app_Some
      [Hj | [Hj Hgj]]%lookup_app_Some.
    + by apply (Hinc i j).
    + apply list_lookup_singleton_Some in Hgj as [_ <-]. cbn.
      specialize (Hbound _ _ Hi). lia.
    + apply lookup_lt_Some in Hj. lia.
    + apply list_lookup_singleton_Some in Hgi as [Hz1 _].
      apply list_lookup_singleton_Some in Hgj as [Hz2 _]. lia.
Qed.

Lemma lookup_delete_shift {A} (l : list A) (k i : nat) :
  delete k l !! i = if decide (i < k)%nat then l !! i else l !! S i.
Proof.
  case_decide.
  - by apply list_lookup_delete_lt.
  - apply list_lookup_delete_ge. lia.
Qed.

Lemma numbered_remove (position : nat) (p : Page) :
  numbered p → numbered (removeRarityBtn_click position p).
Proof.
  intros [Hbound Hinc]. unfold numbered, removeRarityBtn_click.
  cbn [raritiesContainer rarityGroupIndex]. split.
  - intros i g. rewrite lookup_delete_shift. case_decide; intros Hg.
    + by apply Hbound.
    + specialize (Hbound _ _ Hg). lia.
  - intros i j gi gj Hij. rewrite !lookup_delete_shift.
    repeat case_decide; intros Hi Hj; try lia.
    + by apply (Hinc i j).
    + apply (Hinc i (S j)); [lia|done..].
    + apply (Hinc (S i) (S j)); [lia|done..].
Qed.

Lemma numbered_edit (position : nat) (f : RarityGroup → RarityGroup) (p : Page) :
  (∀ g, data_index (f g) = data_index g) →
  numbered p → numbered (edit position f p).
Proof.
  intros Hf [Hbound Hinc]. unfold numbered, edit.
  cbn [raritiesContainer rarityGroupIndex].
  assert (Hlook : ∀ i g, alter f position (raritiesContainer p) !! i = Some g →
            ∃ g0, raritiesContainer p !! i = Some g0 ∧ data_index g = data_index g0).
  { intros i g. destruct (decide (position = i)) as [->|Hne].
    - rewrite list_lookup_alter_eq. intros (g0 & Hg0 & ->)%fmap_Some. by exists g0.
    - rewrite list_lookup_alter_ne by done. intros Hg. by exists g. }
  split.
  - intros i g (g0 & Hg0 & ->)%Hlook. by apply Hbound.
  - intros i j gi gj Hij (g1 & Hg1 & ->)%Hlook (g2 & Hg2 & ->)%Hlook.
    by apply (Hinc i j).
Qed.

Lemma numbered_loaded (packName : string) : numbered (loaded packName).
Proof.
  apply numbered_add. split; intros *; cbn; by rewrite ?lookup_nil.
Qed.

Lemma numbered_message (text class : string) (p : Page) :
  numbered p → numbered (set_responseMessage text class p).
Proof. done. Qed.

Lemma numbered_submit (F : Floats) (p : Page) : numbered p → numbered (submit F p).1.
Proof.
  intros Hp. unfold submit. cbn [packName_value set_responseMessage raritiesContainer].
  destruct (String.eqb _ ""); [done|].
  destruct (raritiesContainer p) as [|g gs] eqn:E; [done|].
  destruct (check_groups F 0 (g :: gs) ∅); done.
Qed.

Lemma numbered_resume (r : AdminCards.FetchResult AddObject) (p : Page) :
  numbered p → numbered (submit_resume r p).
Proof.
  intros Hp.
  assert (Hreset : ∀ q, numbered (reset_groups q)).
  { intros q. apply numbered_add. split; intros *; cbn; by rewrite ?lookup_nil. }
  unfold submit_resume.
  destruct r as [|status [| | | |o]]; try done;
    destruct (AdminCards.ok status); try done; apply Hreset.
Qed.

Lemma numbered_step (F : Floats) (ev : Event) (p : Page) :
  numbered p → numbered (step F ev p).
Proof.
  intros Hp. destruct ev; cbn [step]; try done.
  - by apply numbered_add.
  - by apply numbered_remove.
  - by apply numbered_edit.
  - by apply numbered_edit.
  - by apply numbered_submit.
  - by apply numbered_resume.
Qed.

Lemma numbered_run (F : Floats) (evs : list Event) (p : Page) :
  numbered p → numbered (run F evs p).
Proof.
  revert p. induction evs as [|ev evs IH]; intros p Hp; [done|].
  apply IH. by apply numbered_step.
Qed.

(** X21.  In every state that a session reaches, the groups of the container
    have different numbers; the place of a group, which is the number that a
    message gives, is never above the number of its heading, and it is below
    that number for every group that stands behind a group that is removed. *)
Theorem places_trail_headings (F : Floats) (packName : string) (evs : list Event)
    (position : nat) :
  let p := run F evs (loaded packName) in
  NoDup (data_index <$> raritiesContainer p)
  ∧ (∀ i group, raritiesContainer p !! i = Some group → (i + 1 ≤ data_index group + 1)%nat)
  ∧ (∀ i group,
       raritiesContainer (removeRarityBtn_click position p) !! i = Some group →
       (position ≤ i)%nat → (i + 1 < data_index group + 1)%nat).
Proof.
  intros p.
  destruct (numbered_run F evs (loaded packName) (numbered_loaded packName))
    as [Hbound Hinc].
  fold p in Hbound, Hinc. split_and!.
  - apply NoDup_alt. intros i j n.
    rewrite !list_lookup_fmap.
    intros (gi & Hgi & ->)%fmap_Some (gj & Hgj & Heq)%fmap_Some.
    destruct (Nat.lt_trichotomy i j) as [Hlt | [-> | Hgt]]; [|done|].
    + specialize (Hinc i j gi gj Hlt Hgi Hgj). lia.
    + specialize (Hinc j i gj gi Hgt Hgj Hgi). lia.
  - intros i group Hg. specialize (Hbound _ _ Hg). lia.
  - intros i group. cbn [removeRarityBtn_click raritiesContainer].
    rewrite lookup_delete_shift. case_decide; [lia|].
    intros Hg _. specialize (Hbound _ _ Hg). lia.
Qed.

(** X22.  Whatever the answer is, the message ends as a success or as an
    error; it is a success exactly for an ok status with a JSON body that is
    not [null]. A success leaves one empty group, numbered 0, and the counter
    at 1; every other answer leaves the groups and the counter as they are. *)
Theorem answer_outcome (r : AdminCards.FetchResult AddObject) (p : Page) :
  let p' := submit_resume r p in
  (if accepted r
   then responseMessage_className p' = "success"
        ∧ raritiesContainer p'
          = [{| data_index := 0; rarityName_value := ""; rarityProbability_value := "" |}]
        ∧ rarityGroupIndex p' = 1%nat
        ∧ packImage_file p' = None
   else responseMessage_className p' = "error"
        ∧ raritiesContainer p' = raritiesContainer p
        ∧ rarityGroupIndex p' = rarityGroupIndex p
        ∧ packImage_file p' = packImage_file p)
  ∧ responseMessage_textContent p' ≠ "".
Proof.
  intros p'. subst p'. unfold submit_resume, accepted.
  destruct r as [|status [| | | |o]]; try done;
    destruct (AdminCards.ok status); done.
Qed.
End AddPackFacts.

Module AdminPacksFacts.
Import AdminPacks AdminPacksNotions Notions PrimitiveFacts.

Lemma split_cons_head (sep : ascii) (s : string) :
  ∃ h t, Js.split sep s = h :: t ∧ h = (cut_at sep s).1.
Proof.
  induction s as [|c s (h & t & IH & Hh)]; [by exists "", []|].
  cbn [Js.split cut_at]. destruct (Ascii.eqb c sep).
  - by eexists _, _.
  - rewrite IH. exists (String c h), t. by rewrite Hh.
Qed.

Lemma cut_at_head (sep : ascii) (s : string) : Js.char_in sep (cut_at sep s).1 = false.
Proof.
  induction s as [|c s IH]; [done|].
  cbn [cut_at]. destruct (Ascii.eqb c sep) eqn:Hc; [done|].
  cbn [fst Js.char_in]. by rewrite Ascii.eqb_sym, Hc, IH.
Qed.

Lemma cut_at_join (sep : ascii) (s : string) :
  Js.char_in sep s = true → s = (cut_at sep s).1 +:+ String sep (cut_at sep s).2.
Proof.
  induction s as [|c s IH]; [done|].
  cbn [Js.char_in cut_at]. rewrite Ascii.eqb_sym.
  destruct (Ascii.eqb_spec c sep) as [-> | Hc]; [done|].
  cbn [orb fst snd]. intros Hs.
  change (String c ?a +:+ ?b) with (String c (a +:+ b)). by rewrite <- (IH Hs).
Qed.

Lemma cut_at_before (sep : ascii) (a b : string) :
  (cut_at sep (a +:+ String sep b)).1 = (cut_at sep a).1.
Proof.
  induction a as [|c a IH].
  - change ("" +:+ String sep b) with (String sep b). cbn [cut_at].
    by rewrite Ascii.eqb_refl.
  - change (String c a +:+ String sep b) with (String c (a +:+ String sep b)).
    cbn [cut_at]. destruct (Ascii.eqb c sep); [done|]. cbn [fst]. by rewrite IH.
Qed.

(** X23.  The entry of a probability is read as the update of the rarity whose
    name is the part of the rarity name before its first point.  When the name
    has no point that is the rarity itself, with the property [probability].
    When it has one it is another rarity, and the property is the part of the
    name between its first point and the next, or all that follows the first
    point when there is no other. *)
Theorem probability_key_read (rarityName value : string) :
  update_of (probability_name rarityName) value
  = SetProperty (Some (cut_at "." rarityName).1)
      (Some (if Js.char_in "." rarityName
             then (cut_at "." (cut_at "." rarityName).2).1
             else "probability")) value
  ∧ (Js.char_in "." rarityName = false → (cut_at "." rarityName).1 = rarityName)
  ∧ (Js.char_in "." rarityName = true → (cut_at "." rarityName).1 ≠ rarityName).
Proof.
  assert (Hkey : update_of (probability_name rarityName) value
                 = SetProperty (rarityName_of (probability_name rarityName))
                     (property_of (probability_name rarityName)) value) by done.
  split_and!.
  - rewrite Hkey. unfold rarityName_of, property_of, probability_name.
    change ("rarities." +:+ ?r) with ("rarities" +:+ String "." r).
    rewrite split_app by done.
    destruct (Js.char_in "." rarityName) eqn:Hdot.
    + rewrite (cut_at_join "." rarityName Hdot) at 1 2.
      pose proof (cut_at_head "." rarityName) as Hh.
      destruct (cut_at "." rarityName) as [h rest] eqn:Hcut. cbn [fst snd] in *.
      rewrite append_assoc.
      change (String "." rest +:+ ".probability") with (String "." (rest +:+ ".probability")).
      rewrite split_app by done.
      destruct (split_cons_head "." (rest +:+ ".probability")) as (h' & t & -> & ->).
      cbn [lookup list_lookup]. do 2 f_equal.
      change (rest +:+ ".probability") with (rest +:+ String "." "probability").
      apply cut_at_before.
    + change (rarityName +:+ ".probability") with (rarityName +:+ String "." "probability").
      rewrite split_app by done. by rewrite cut_at_free.
  - intros Hplain. by rewrite cut_at_free.
  - intros Hdot Heq. rewrite <- Heq, cut_at_head in Hdot. done.
Qed.

(** The rarity "a.probability": the entry of its probability is read as the
    property [probability] of the rarity "a". *)
Example probability_key_of_dotted_name :
  update_of (probability_name "a.probability") "0.5"
  = SetProperty (Some "a") (Some "probability") "0.5".
Proof. done. Qed.

(** X24.  The cards to add are the parts of the input between commas, trimmed,
    the empty ones left out: each is an id as it is typed, and a list of such
    ids, written with ", " between them, is read as it is. An input that is
    blank sets nothing. *)
Theorem cards_to_add_read (rarityName value : string) (ids : list string) :
  Forall (λ i, i ≠ "" ∧ Js.trim i = i) (ids_of value)
  ∧ (Js.trim value = "" → update_of (cards_to_add_name rarityName) value = Skip)
  ∧ (Forall typed_id ids → ids_of (joined ids) = ids).
Proof.
  split_and!.
  - unfold ids_of. apply Forall_forall. intros i [Hne Hin]%list_elem_of_filter.
    apply list_elem_of_fmap in Hin as (part & -> & _). split.
    + intros Heq. by rewrite Heq in Hne.
    + apply trim_idemp.
  - intros Hblank. unfold update_of, cards_to_add_name.
    by rewrite Hblank.
  - intros Hids. unfold ids_of, joined.
    assert (Hgen : ∀ (lead : string),
              (lead = "" ∨ lead = " ") → ids ≠ [] →
              filter (λ id, Js.truthy (Some id) = true)
                (Js.trim <$> Js.split "," (lead +:+ Js.join ", " ids)) = ids).
    { induction Hids as [|i rest (Hne & Hcomma & Htrim) Hrest IH]; intros lead Hlead Hsome;
        [done|].
      assert (Hlead_i : Js.trim (lead +:+ i) = i ∧ Js.char_in "," (lead +:+ i) = false).
      { destruct Hlead as [-> | ->]; [done|]. split; [|done].
        change (" " +:+ i) with (String " " i). unfold Js.trim in *.
        by cbn [Js.trimStart Js.is_whitespace]. }
      destruct Hlead_i as [Hti Hci].
      assert (Htruthy : Js.truthy (Some i) = true).
      { cbn. apply negb_true_iff. by apply String.eqb_neq. }
      destruct rest as [|j rest'].
      - cbn [Js.join]. rewrite split_free by done. csimpl.
        rewrite Hti, filter_cons_True by done. done.
      - change (Js.join ", " (i :: j :: rest')) with (i +:+ ", " +:+ Js.join ", " (j :: rest')).
        replace (lead +:+ i +:+ ", " +:+ Js.join ", " (j :: rest'))
          with ((lead +:+ i) +:+ String "," (" " +:+ Js.join ", " (j :: rest')))
          by (by rewrite append_assoc).
        rewrite split_app by done. csimpl.
        rewrite Hti, filter_cons_True by done.
        f_equal. apply (IH " "); [by right | done]. }
    destruct ids as [|i rest]; [done|].
    apply (Hgen ""); [by left | done].
Qed.

Lemma cards_to_add_read_witness :
  ids_of (joined ["XY-001"; "XY-002"; "XY 003"]) = ["XY-001"; "XY-002"; "XY 003"].
Proof.
  apply (cards_to_add_read "1" "" ["XY-001"; "XY-002"; "XY 003"]).
  repeat constructor; discriminate.
Defined.

End AdminPacksFacts.

Module NavFacts.
Import Nav NavNotions PrimitiveFacts.

Lemma remove_by_id_plain (i : string) (base tail : list Child) :
  Forall (λ c, child_id c ≠ Some i) base →
  remove_by_id i (base ++ tail) = base ++ remove_by_id i tail.
Proof.
  induction 1 as [|c base Hc _ IH]; [done|].
  cbn. rewrite decide_False by done. by rewrite IH.
Qed.

Lemma updateNavUI_from (user : option (option string)) (tail : list Child)
    (base : list Child) :
  plain base →
  (tail = [] ∨ ∃ user0, tail = auth_children user0) →
  updateNavUI user (Some (base ++ tail)) = Some (base ++ auth_children user).
Proof.
  intros Hplain Htail.
  assert (H1 : Forall (λ c, child_id c ≠ Some "auth-link") base)
    by (eapply Forall_impl; [exact Hplain | by intros ? [? ?]]).
  assert (H2 : Forall (λ c, child_id c ≠ Some "user-info") base)
    by (eapply Forall_impl; [exact Hplain | by intros ? [? ?]]).
  unfold updateNavUI. rewrite (remove_by_id_plain "auth-link") by done.
  assert (Hgone : ∃ tail', remove_by_id "auth-link" tail = tail'
                           ∧ remove_by_id "user-info" tail' = []).
  { destruct Htail as [-> | [[email|] ->]]; by eexists. }
  destruct Hgone as (tail' & -> & Hgone).
  rewrite (remove_by_id_plain "user-info") by done. rewrite Hgone, app_nil_r.
  by destruct user.
Qed.

(** X25.  However often the state of the sign-in changes, [nav] ends as after
    the last change alone: its own links, in their order, followed by the link
    to log in, or by the user and the link to log out. One element has the id
    [auth-link]. *)
Theorem nav_shows_last_state (base : list Child) (users : list (option (option string)))
    (user : option (option string)) :
  plain base →
  let nav := foldl (λ nav u, updateNavUI u nav) (Some base) (users ++ [user]) in
  nav = Some (base ++ auth_children user)
  ∧ nav = updateNavUI user (Some base)
  ∧ ∀ children, nav = Some children →
      length (filter (λ c, child_id c = Some "auth-link") children) = 1%nat.
Proof.
  intros Hplain nav. subst nav.
  assert (Hfold : ∀ us tail,
            (tail = [] ∨ ∃ user0, tail = auth_children user0) →
            foldl (λ nav u, updateNavUI u nav) (Some (base ++ tail)) (us ++ [user])
            = Some (base ++ auth_children user)).
  { induction us as [|u us IH]; intros tail Htail; cbn [foldl app].
    - by apply updateNavUI_from.
    - rewrite (updateNavUI_from u tail base Hplain Htail). apply IH. right. by exists u. }
  specialize (Hfold users [] (or_introl eq_refl)). rewrite app_nil_r in Hfold.
  rewrite Hfold. split_and!; [done| |].
  - rewrite <- (app_nil_r base) at 2. symmetry. apply updateNavUI_from; auto.
  - intros children [= <-]. rewrite filter_app.
    assert (Hnone : filter (λ c, child_id c = Some "auth-link") base = []).
    { clear Hfold. induction Hplain as [|c base [Hc _] _ IH]; [done|].
      rewrite filter_cons. by rewrite decide_False. }
    rewrite Hnone. by destruct user.
Qed.

Lemma nav_shows_last_state_witness :
  let base := [ Anchor None "index.html" "Home"; Anchor None "draw.html" "Draw Cards" ] in
  let nav := foldl (λ nav u, updateNavUI u nav) (Some base)
               ([None; Some (Some "ash@example.com")] ++ [None]) in
  nav = Some (base ++ auth_children None)
  ∧ nav = updateNavUI None (Some base)
  ∧ ∀ children, nav = Some children →
      length (filter (λ c, child_id c = Some "auth-link") children) = 1%nat.
Proof.
  apply (nav_shows_last_state
           [ Anchor None "index.html" "Home"; Anchor None "draw.html" "Draw Cards" ]
           [None; Some (Some "ash@example.com")] None).
  repeat constructor; discriminate.
Defined.

Lemma split_last (sep : ascii) (a b : string) :
  ∃ x t, Js.split sep (a +:+ String sep b) = x :: t
         ∧ t ≠ [] ∧ last t = last (Js.split sep b).
Proof.
  assert (Hne : ∀ s, Js.split sep s ≠ []).
  { intros s. destruct s as [|c s]; cbn; [done|].
    destruct (Ascii.eqb c sep); [done|]. by destruct (Js.split sep s). }
  induction a as [|c a (x & t & IH & Ht & Hlast)].
  - exists "", (Js.split sep b).
    change ("" +:+ String sep b) with (String sep b).
    cbn [Js.split]. rewrite Ascii.eqb_refl. by split_and!.
  - change (String c a +:+ String sep b) with (String c (a +:+ String sep b)).
    cbn [Js.split]. rewrite IH. destruct (Ascii.eqb c sep).
    + exists "", (x :: t). split_and!; try done.
      rewrite <- Hlast. by destruct t.
    + by exists (String c x), t.
Qed.

Lemma currentPage_beside (directory page : string) :
  Js.char_in "/" page = false → currentPage (beside directory page) = page.
Proof.
  intros Hpage. unfold currentPage, beside.
  destruct (split_last "/" directory page) as (x & t & -> & Ht & Hlast).
  replace (last (x :: t)) with (last t) by (by destruct t).
  by rewrite Hlast, split_free.
Qed.

(** X26.  A signed-out visitor of a protected page is sent to the login page,
    a signed-in visitor of the login page to the home page, and nobody else is
    sent anywhere: on the page that a visitor is sent to, the same state of
    the sign-in sends nowhere. *)
Theorem redirect_settles (directory page : string) (user : option (option string))
    (navLinks : option (list Child)) :
  Js.char_in "/" page = false →
  let target := (auth_state_changed (beside directory page) user navLinks).2 in
  target = match user with
           | Some _ => if String.eqb page "login.html" then Some "index.html" else None
           | None => if bool_decide (page ∈ protectedPages) then Some "login.html" else None
           end
  ∧ ∀ next, target = Some next →
      (auth_state_changed (beside directory next) user navLinks).2 = None.
Proof.
  intros Hpage target. subst target. unfold auth_state_changed. cbn [snd].
  rewrite currentPage_beside by done. split; [by destruct user|].
  intros next. destruct user as [email|].
  - destruct (String.eqb page "login.html"); [|done]. intros [= <-].
    by rewrite currentPage_beside.
  - case_bool_decide; [|done]. intros [= <-].
    by rewrite currentPage_beside.
Qed.

Lemma redirect_settles_witness :
  let target := (auth_state_changed (beside "/frontend" "collection.html") None None).2 in
  target = (if bool_decide ("collection.html" ∈ protectedPages) then Some "login.html" else None)
  ∧ ∀ next, target = Some next →
      (auth_state_changed (beside "/frontend" next) None None).2 = None.
Proof.
  apply (redirect_settles "/frontend" "collection.html" None None).
  reflexivity.
Defined.

End NavFacts.

Module AdminLinksFacts.
Import AdminCards Notions Samples AdminCardsFacts PrimitiveFacts BrowserFacts AdminLinks.

(** X27.  The link of a pack leads to the page that asks for that pack: the id
    is read back from the query as it was, and is written into the address of
    the request as it was in the link.  A pack whose id is the empty string
    leads to the page that asks for nothing and says that no id is given; a
    pack whose id is missing or [null] leads to the page that asks for the
    pack of the name "undefined" or "null". *)
Theorem pack_link_opens_its_pack (pack_id : PackId) (p : PackDetailPage) :
  let query := query_of (pack_href pack_id) in
  urlParams_get "id" query = Some (id_text pack_id)
  ∧ match pack_id with
    | IdText "" =>
        fetchPackDetails_start query p
        = ({| loadingMessage_display := "none";
              errorMessage_display := "block";
              errorMessage_textContent := "No Pack ID specified in the URL.";
              packDetailContainer_innerHTML := "" |}, None)
    | IdText text =>
        (fetchPackDetails_start query p).2
        = Some (API_BASE_URL +:+ "/packs/" +:+ Js.encodeURIComponent text)
    | IdNull => (fetchPackDetails_start query p).2 = Some (API_BASE_URL +:+ "/packs/null")
    | IdMissing =>
        (fetchPackDetails_start query p).2 = Some (API_BASE_URL +:+ "/packs/undefined")
    end.
Proof.
  intros query. subst query.
  assert (Hget : urlParams_get "id" (query_of (pack_href pack_id)) = Some (id_text pack_id)).
  { unfold urlParams_get, query_of, pack_href.
    change ("pack_detail.html?id=" +:+ ?e) with ("pack_detail.html" +:+ String "?" ("id=" +:+ e)).
    rewrite cut_at_app by done. cbn [snd].
    destruct (encodeURIComponent_separators (id_text pack_id)) as (Hamp & _).
    change ("id=" +:+ ?e) with ("id" +:+ String "=" e).
    rewrite parse_query_single by done.
    by rewrite encodeURIComponent_decodes. }
  split; [done|].
  unfold fetchPackDetails_start. rewrite Hget.
  destruct pack_id as [[|c text]| |]; done.
Qed.

Lemma plain_char (c : ascii) :
  Js.is_alphanumeric c || Js.char_in c "-_." = true →
  (Js.is_whitespace c = false ∧ (Ascii.N_of_ascii c <? 128)%N = true)
  ∧ Ascii.eqb c "&" = false ∧ Ascii.eqb c "=" = false
  ∧ ∀ r, form_urldecode (String c r) = String c (form_urldecode r).
Proof.
  destruct c as [[] [] [] [] [] [] [] []]; intros H; try discriminate H;
    split_and!; reflexivity.
Qed.

Lemma plain_name_read (s : string) :
  plain_name s = true →
  form_urldecode s = s ∧ Js.char_in "&" s = false ∧ Js.char_in "=" s = false
  ∧ Js.trimStart s = s ∧ Js.trimEnd s = s.
Proof.
  induction s as [|c s IH]; [done|].
  cbn [plain_name]. intros [Hc Hs]%andb_true_iff.
  destruct (plain_char c Hc) as ([Hws Hascii] & Hamp & Heq & Hdec).
  destruct (IH Hs) as (IH1 & IH2 & IH3 & IH4 & IH5).
  assert (Hstart : Js.trimStart (String c s) = String c s)
    by (by apply trim_ascii_ends).
  split_and!.
  - by rewrite Hdec, IH1.
  - cbn [Js.char_in]. by rewrite Ascii.eqb_sym, Hamp, IH2.
  - cbn [Js.char_in]. by rewrite Ascii.eqb_sym, Heq, IH3.
  - done.
  - cbn [Js.trimEnd]. unfold Js.blank. by rewrite Hstart, IH5.
Qed.

(** X28.  The button "View Cards" of a collection whose name is made of
    letters, digits, [-], [_] and [.] leads to the card browser of that
    collection: a browser that is opened at the address of the button, with
    the input of the collection name empty, reads the name from the address
    and asks for the first page of that collection, which becomes the current
    one. *)
Theorem view_cards_link_opens_collection (env : Env) (d : Dom) (collection_name : string) :
  plain_name collection_name = true →
  collection_name ≠ "" →
  location_collectionName env
  = urlParams_get "collectionName" (query_of (view_cards_href collection_name)) →
  Js.trim (collectionNameInput (controls d)) = "" →
  Js.trim (searchInput (controls d)) = "" →
  let w := loaded env d in
  currentCollectionName (vars (state w)) = Some collection_name
  ∧ uncaught w = []
  ∧ ∃ q, request <$> pending w = [GET (baseUrl +:+ "/cards?" +:+ q)]
         ∧ parse_query q
           = [ ("page", "1");
               ("per_page", Js.number_to_string (Js.parseInt (perPageSelect (controls d))
                                                   (Some 10)));
               ("sort_by", sortBySelect (controls d));
               ("sort_order", sortOrderSelect (controls d));
               ("collectionName", collection_name) ].
Proof.
  intros Hplain Hne Hloc Hinput Hsearch w. subst w.
  destruct (plain_name_read _ Hplain) as (Hdec & Hamp & Heq & Hts & Hte).
  assert (Hget : location_collectionName env = Some collection_name).
  { rewrite Hloc. unfold urlParams_get, query_of, view_cards_href.
    change ("view_cards.html?collectionName=" +:+ ?e)
      with ("view_cards.html" +:+ String "?" ("collectionName" +:+ String "=" e)).
    rewrite cut_at_app by done. cbn [snd].
    rewrite parse_query_single by done. by rewrite Hdec. }
  assert (Htruthy : Js.truthy (Some collection_name) = true).
  { cbn. apply negb_true_iff. by apply String.eqb_neq. }
  assert (Htrim : Js.trim collection_name = collection_name).
  { unfold Js.trim. by rewrite Hts, Hte. }
  set (s0 := {| vars := initial_vars (controls d); dom := d |}).
  assert (Hvars : resolved_vars env (vars s0)
                  = set_currentCollectionName (Some collection_name) (vars s0)).
  { unfold resolved_vars. cbn [vars s0 initial_vars currentCollectionName].
    unfold Js.or_null. rewrite Hinput. cbn [String.eqb Js.truthy negb andb].
    by rewrite Hget, Htruthy. }
  assert (Hstart : (fetchAndDisplayCards_start env s0).2
                   = Sent (GET (baseUrl +:+ "/cards?"
                                +:+ Js.searchParams_toString
                                      (queryParams (resolved_vars env (vars s0)))))).
  { destruct (fetchAndDisplayCards_start env s0).2 as [req|e] eqn:Hs.
    - by apply start_sent in Hs as [_ ->].
    - apply start_threw_inv in Hs as [Hq | Hc].
      + cbn [vars s0 initial_vars currentSearchQuery] in Hq. unfold Js.or_null in Hq.
        by rewrite Hsearch in Hq.
      + rewrite Hvars in Hc. cbn [currentCollectionName set_currentCollectionName] in Hc.
        congruence. }
  change (loaded env d)
    with (fetching (fetchAndDisplayCards_start env)
            {| state := s0; pending := []; uncaught := [] |}).
  pose proof (start_vars env s0) as Hs1.
  unfold fetching. cbn [state].
  destruct (fetchAndDisplayCards_start env s0) as [s1 started].
  cbn [fst snd] in Hs1, Hstart. subst started. cbn [state send set_state pending uncaught].
  split_and!; [by rewrite Hs1, Hvars | done |].
  exists (Js.searchParams_toString (queryParams (resolved_vars env (vars s0)))).
  split; [done|].
  rewrite searchParams_round_trip, Hvars. unfold queryParams.
  cbn [currentPage itemsPerPage currentSortBy currentSortOrder currentCollectionName
       currentSearchQuery set_currentCollectionName vars s0 initial_vars].
  unfold Js.or_null at 1. rewrite Hsearch. cbn [String.eqb].
  unfold has_text. cbn [Js.truthy Js.or_empty andb]. rewrite Htrim.
  apply String.eqb_neq in Hne. rewrite Hne. cbn [negb andb app].
  by rewrite pretty_1.
Qed.

Lemma view_cards_link_opens_collection_witness :
  let env := {| location_collectionName := Some "pokemon_cards";
                parseUrlParams := λ _, None;
                message := λ _, "" |} in
  let w := loaded env (served "") in
  currentCollectionName (vars (state w)) = Some "pokemon_cards"
  ∧ uncaught w = []
  ∧ ∃ q, request <$> pending w = [GET (baseUrl +:+ "/cards?" +:+ q)]
         ∧ parse_query q
           = [ ("page", "1");
               ("per_page", Js.number_to_string (Js.parseInt "10" (Some 10)));
               ("sort_by", "point_worth");
               ("sort_order", "desc");
               ("collectionName", "pokemon_cards") ].
Proof.
  apply (view_cards_link_opens_collection
           {| location_collectionName := Some "pokemon_cards";
              parseUrlParams := λ _, None;
              message := λ _, "" |}
           (served "") "pokemon_cards");
    try reflexivity.
  discriminate.
Defined.

End AdminLinksFacts.
